(** * alfred-async-agent: the skill-execution pipeline, embedded in Rocq

    A shallow embedding of the TypeScript sources

      - [src/db/utils.ts]          (withRetry, isPrismaError, createSkillExecution,
                                    completeSkillExecution, detailedHealthCheck)
      - [src/db/client.ts]         (withTimeout, healthCheck, transaction)
      - [src/database.ts]          (createExecution, updateExecution, upsertResult,
                                    getAllWorkflows, getWorkflowById, getResult,
                                    getExecutionById, getExecutionsForSkill)
      - [src/config.ts]            (encrypt, decrypt, maskApiKey, getAnthropicApiKey,
                                    saveConfig)
      - [src/config/index.ts]      (parseIntEnv, parseStringArrayEnv, parseJsonEnv,
                                    config, validateConfig)
      - [src/workflow-classifier.ts] (classifyWorkflow, parseClassificationResponse)
      - [src/agent.ts]             (executeAgent)
      - [src/webhook.ts]           (webhookHandler, processWebhook)
      - [src/index.ts]             (the /health route)

    JavaScript values are a small inductive type, [async] functions are
    state-passing computations over a [World] (database tables, clock, fault
    schedule, statement log), exceptions are the [Throw] outcome.  A text
    is held by its UTF-8 bytes; what the runtime counts in UTF-16 code
    units ([length], [substring]) goes through [Text.utf16]. *)

From Stdlib Require Import ZArith Ascii String List Bool Lia.
From stdpp Require Import base option list gmap strings pretty sorting.

Local Open Scope string_scope.
Local Open Scope Z_scope.

(* ===================================================================== *)
(** * JavaScript values and outcomes *)
(* ===================================================================== *)

Module Js.

(** A JSON number is kept as an exact decimal [m * 10^e]; the code under
    study only tests numbers for truthiness and passes them through. *)
#[warnings="-register-all"]
Inductive jsval : Type :=
| JUndefined
| JNull
| JBool (b : bool)
| JNum (m e : Z)
| JStr (s : string)
| JArr (items : list jsval)
| JObj (fields : list (string * jsval)).

(** [obj.k]: the last binding of [k] wins, as in an object literal or a
    parsed JSON text with a repeated key. *)
Fixpoint get_field (k : string) (fields : list (string * jsval)) : option jsval :=
  match fields with
  | [] => None
  | (k', v) :: rest =>
      match get_field k rest with
      | Some v' => Some v'
      | None => if String.eqb k k' then Some v else None
      end
  end.

(** Property read [v.k]; [undefined] when absent.  (Reading a property of
    [undefined] or [null] throws and is handled at the call sites.) *)
Definition prop (v : jsval) (k : string) : jsval :=
  match v with
  | JObj fields => default JUndefined (get_field k fields)
  | _ => JUndefined
  end.

(** ToBoolean. *)
Definition truthy (v : jsval) : bool :=
  match v with
  | JUndefined | JNull => false
  | JBool b => b
  | JNum m _ => negb (m =? 0)
  | JStr s => negb (String.eqb s EmptyString)
  | JArr _ | JObj _ => true
  end.

(** [a ?? b] *)
Definition nullish (a b : jsval) : jsval :=
  match a with
  | JUndefined | JNull => b
  | _ => a
  end.

(** [a || b] *)
Definition or_else (a b : jsval) : jsval := if truthy a then a else b.

(** [new Error(message)] and friends, as far as the code inspects them. *)
Definition mkError (name message : string) : jsval :=
  JObj [("name", JStr name); ("message", JStr message)].

(** [error.message] as the template literals and loggers print it. *)
Definition message_of (e : jsval) : jsval := prop e "message".

(** The result of running a piece of code: a value or a thrown value. *)
Inductive outcome (A : Type) : Type :=
| Ret (a : A)
| Throw (e : jsval).
Arguments Ret {A} a.
Arguments Throw {A} e.

End Js.
Export Js.

(* ===================================================================== *)
(** * The timers of the runtime *)
(* ===================================================================== *)

Module Timer.

(** The longest delay a timer takes: 2^31 - 1 milliseconds. *)
Definition TIMEOUT_MAX : Z := 2147483647.

(** How long [setTimeout(callback, after)] waits, in milliseconds, for an
    integer [after]: a delay below 1 or above [TIMEOUT_MAX] is replaced by
    1. *)
Definition delay (after : Z) : N :=
  if (1 <=? after) && (after <=? TIMEOUT_MAX) then Z.to_N after else 1%N.

End Timer.

(* ===================================================================== *)
(** * src/db/utils.ts: the retry policy *)
(* ===================================================================== *)

Module Retry.

(** [PrismaErrorCodes] *)
Definition CONNECTION_ERROR : string := "P1001".
Definition CONNECTION_TIMEOUT : string := "P1008".
Definition DATABASE_NOT_FOUND : string := "P1003".
Definition UNIQUE_CONSTRAINT : string := "P2002".
Definition FOREIGN_KEY_CONSTRAINT : string := "P2003".
Definition RECORD_NOT_FOUND : string := "P2025".

(** [isPrismaError]: an object (not null) that has a [code] property whose
    value is a string.  Arrays are objects without a [code] property. *)
Definition isPrismaError (error : jsval) : bool :=
  match error with
  | JObj fields =>
      match get_field "code" fields with
      | Some (JStr _) => true
      | _ => false
      end
  | _ => false
  end.

(** [error.code === c] for a string constant [c]. *)
Definition code_is (error : jsval) (c : string) : bool :=
  match prop error "code" with
  | JStr s => String.eqb s c
  | _ => false
  end.

(** The [shouldRetry] expression of [withRetry]. *)
Definition shouldRetry (error : jsval) : bool :=
  isPrismaError error &&
  (code_is error CONNECTION_ERROR || code_is error CONNECTION_TIMEOUT).

Record RetryConfig : Type := {
  maxAttempts : Z;
  delayMs : Z;
  backoffMultiplier : Z;
}.

(** [Partial<RetryConfig>]: [None] is an absent key. *)
Record PartialRetryConfig : Type := {
  p_maxAttempts : option Z;
  p_delayMs : option Z;
  p_backoffMultiplier : option Z;
}.

Definition DEFAULT_RETRY_CONFIG : RetryConfig :=
  {| maxAttempts := 3; delayMs := 100; backoffMultiplier := 2 |}.

Definition no_overrides : PartialRetryConfig :=
  {| p_maxAttempts := None; p_delayMs := None; p_backoffMultiplier := None |}.

(** [{ ...DEFAULT_RETRY_CONFIG, ...config }] *)
Definition merge_config (config : PartialRetryConfig) : RetryConfig :=
  {| maxAttempts := default (maxAttempts DEFAULT_RETRY_CONFIG) (p_maxAttempts config);
     delayMs := default (delayMs DEFAULT_RETRY_CONFIG) (p_delayMs config);
     backoffMultiplier :=
       default (backoffMultiplier DEFAULT_RETRY_CONFIG) (p_backoffMultiplier config) |}.

(** What a call of [withRetry] did: its outcome, how often it invoked the
    operation, how long each of its sleeps lasted, in milliseconds (oldest
    first), and the state the operation left behind. *)
Record Run (S T : Type) : Type := {
  result : outcome T;
  invocations : nat;
  sleeps : list N;
  final : S;
}.
Arguments result {S T} _.
Arguments invocations {S T} _.
Arguments sleeps {S T} _.
Arguments final {S T} _.

Section WithRetry.
Context {S T : Type}.

(** [operation: () => Promise<T>] is a closure: everything it reads and
    writes is the state [S]. *)
Variable operation : S -> outcome T * S.

(** The [for] loop of [withRetry].  [fuel] bounds the iterations; [None]
    is an exhausted bound (see [withRetry_total]: it is never returned).
    A sleep is [setTimeout(resolve, delay)] and lasts [Timer.delay delay].
    The settings are integers and [delay] is kept exact; the runtime
    holds it as a double, which is the same number up to 2^53 and beyond
    that a number of the same sign that is no smaller in size, so that
    the timer waits 1 ms for the one as for the other. *)
Fixpoint retry_loop (fuel : nat) (cfg : RetryConfig)
    (attempt : Z) (delay : Z) (lastError : jsval)
    (calls : nat) (slept : list N) (st : S) : option (Run S T) :=
  match fuel with
  | O => None
  | Datatypes.S fuel' =>
      if attempt <=? maxAttempts cfg then
        match operation st with
        | (Ret v, st') =>
            Some {| result := Ret v; invocations := Datatypes.S calls;
                    sleeps := slept; final := st' |}
        | (Throw error, st') =>
            if negb (shouldRetry error) || (attempt =? maxAttempts cfg) then
              Some {| result := Throw error; invocations := Datatypes.S calls;
                      sleeps := slept; final := st' |}
            else
              retry_loop fuel' cfg (attempt + 1)
                (delay * backoffMultiplier cfg) error
                (Datatypes.S calls) (slept ++ [Timer.delay delay]) st'
        end
      else
        (* [throw lastError!] after the loop *)
        Some {| result := Throw lastError; invocations := calls;
                sleeps := slept; final := st |}
  end.

Definition withRetry (config : PartialRetryConfig) (st : S) : option (Run S T) :=
  let retryConfig := merge_config config in
  retry_loop (Datatypes.S (Z.to_nat (maxAttempts retryConfig))) retryConfig
    1 (delayMs retryConfig) JUndefined 0%nat [] st.

(** [transient_failures n st last]: the operation, started in [st], throws
    a retryable error [n] times in a row; the result is the last of these
    errors ([last] when [n = 0]) and the state it leaves. *)
Fixpoint transient_failures (n : nat) (st : S) (last : jsval) : option (jsval * S) :=
  match n with
  | O => Some (last, st)
  | Datatypes.S n' =>
      match operation st with
      | (Throw e, st') =>
          if shouldRetry e then transient_failures n' st' e else None
      | (Ret _, _) => None
      end
  end.

End WithRetry.

(** A scripted operation, like a jest mock with queued results: each call
    pops the next outcome; once the queue is empty it keeps returning the
    fallback. *)
Definition scripted {T} (fallback : outcome T)
    (queue : list (outcome T)) : outcome T * list (outcome T) :=
  match queue with
  | [] => (fallback, [])
  | o :: rest => (o, rest)
  end.

End Retry.

(* ===================================================================== *)
(** * src/db/client.ts: the timeout guard *)
(* ===================================================================== *)

Module Timeout.

(** [DATABASE_CONFIG] *)
Definition CONNECTION_TIMEOUT : Z := 5000.
Definition QUERY_TIMEOUT : Z := 15000.
Definition POOL_SIZE : Z := 5.

(** A promise on the virtual time line of the event loop: the millisecond
    (counted from the call of [withTimeout]) at which it settles and how;
    [None] is a promise that never settles. *)
Definition promise (T : Type) : Type := option (N * outcome T).

(** What calling [queryFn()] starts: the promise it returns and the side
    effects the operation performs, each with the millisecond at which it
    happens.  Nothing in [withTimeout] holds a handle that could stop it. *)
Record Started (T : Type) : Type := {
  settles : promise T;
  effects : list (N * string);
}.
Arguments settles {T} _.
Arguments effects {T} _.

(** [new Promise((_, reject) => setTimeout(() => reject(error), ms))]:
    rejected when the timer runs, [Timer.delay ms] milliseconds on. *)
Definition rejectAfter {T} (ms : Z) (error : jsval) : promise T :=
  Some (Timer.delay ms, Throw error).

(** [Promise.race([p, q])]: settles like the promise that settles first.
    When both settle within the same millisecond the order of the two
    callbacks in the event loop decides; [first_wins_tie] is that order. *)
Definition race {T} (first_wins_tie : bool) (p q : promise T) : promise T :=
  match p, q with
  | None, _ => q
  | Some _, None => p
  | Some (tp, _), Some (tq, _) =>
      if (tp <? tq)%N then p
      else if (tq <? tp)%N then q
      else if first_wins_tie then p else q
  end.

(** [`Query timeout after ${timeoutMs}ms`], for an integer [timeoutMs]
    (the runtime writes every integer up to 2^53 in size by its decimal
    digits). *)
Definition timeout_message (timeoutMs : Z) : string :=
  "Query timeout after " ++ pretty timeoutMs ++ "ms".

(** The observable result of [withTimeout]: the promise it returns and the
    side effects set in motion by the call. *)
Record Guarded (T : Type) : Type := {
  returned : promise T;
  started_effects : list (N * string);
}.
Arguments returned {T} _.
Arguments started_effects {T} _.

(** [withTimeout(queryFn, timeoutMs = DATABASE_CONFIG.QUERY_TIMEOUT)],
    for an integer [timeoutMs]. *)
Definition withTimeout {T} (first_wins_tie : bool)
    (queryFn : unit -> Started T) (timeoutMs : option Z) : Guarded T :=
  let timeoutMs := default QUERY_TIMEOUT timeoutMs in
  let op := queryFn tt in
  {| returned :=
       race first_wins_tie (settles op)
         (rejectAfter timeoutMs (mkError "Error" (timeout_message timeoutMs)));
     started_effects := effects op |}.

(** The side effects that have happened by millisecond [horizon]. *)
Definition happened_by (horizon : N) (effs : list (N * string)) : list string :=
  map snd (filter (fun te => (fst te <=? horizon)%N = true) effs).

End Timeout.

(* ===================================================================== *)
(** * Text functions of the runtime: regular expression, JSON, strings *)
(* ===================================================================== *)

Module Text.

Definition chars (s : string) : list ascii := list_ascii_of_string s.
Definition text (l : list ascii) : string := string_of_list_ascii l.

Definition code (c : ascii) : N := N_of_ascii c.

Definition lbrace : ascii := ascii_of_N 123.
Definition rbrace : ascii := ascii_of_N 125.
Definition colon : ascii := ascii_of_N 58.
Definition dquote : ascii := ascii_of_N 34.

(** The suffix of [s] that starts at the first occurrence of [c]. *)
Fixpoint from_first (c : ascii) (s : list ascii) : option (list ascii) :=
  match s with
  | [] => None
  | x :: rest => if Ascii.eqb x c then Some s else from_first c rest
  end.

(** The prefix of [s] that ends with the last occurrence of [c]. *)
Fixpoint upto_last (c : ascii) (s : list ascii) : option (list ascii) :=
  match s with
  | [] => None
  | x :: rest =>
      match upto_last c rest with
      | Some p => Some (x :: p)
      | None => if Ascii.eqb x c then Some [x] else None
      end
  end.

(** [text.match(/\{[\s\S]*\}/)]: the match starts at the leftmost position
    where one exists and [[\s\S]*] is greedy, so it runs from the first
    opening brace to the last closing brace after it. *)
Definition match_braces (s : string) : option string :=
  match from_first lbrace (chars s) with
  | Some suffix => text <$> upto_last rbrace suffix
  | None => None
  end.

(** [s.includes(needle)] *)
Fixpoint includes_chars (needle s : list ascii) : bool :=
  match s with
  | [] => match needle with [] => true | _ => false end
  | _ :: rest => String.prefix (text needle) (text s) || includes_chars needle rest
  end.

Definition includes (needle s : string) : bool :=
  includes_chars (chars needle) (chars s).

(** [s.startsWith(p)] *)
Definition startsWith (p s : string) : bool := String.prefix p s.

(** [s.split(sep)] for a one-character separator. *)
Fixpoint split_chars (sep : ascii) (cur : list ascii) (s : list ascii) : list string :=
  match s with
  | [] => [text (rev cur)]
  | x :: rest =>
      if Ascii.eqb x sep then text (rev cur) :: split_chars sep [] rest
      else split_chars sep (x :: cur) rest
  end.

Definition split (sep : ascii) (s : string) : list string :=
  split_chars sep [] (chars s).

(** [toLowerCase] on the ASCII letters; other characters are unchanged. *)
Definition lower_char (c : ascii) : ascii :=
  if ((65 <=? code c) && (code c <=? 90))%N then ascii_of_N (code c + 32) else c.

Definition ascii_lower (s : string) : string := text (map lower_char (chars s)).

(** ** Code points and UTF-16 code units *)

(** A continuation byte of UTF-8, and the six bits it carries. *)
Definition cont (c : ascii) : bool := ((128 <=? code c) && (code c <=? 191))%N.
Definition low6 (c : ascii) : N := (code c - 128)%N.

(** The lead byte [a] starts a sequence of two, three or four bytes in
    shortest form that encodes no surrogate and nothing above U+10FFFF. *)
Definition two (a b : ascii) : bool :=
  ((194 <=? code a) && (code a <=? 223))%N && cont b.

Definition three (a b c : ascii) : bool :=
  ((224 <=? code a) && (code a <=? 239))%N && cont b && cont c
  && (negb (code a =? 224)%N || (160 <=? code b)%N)
  && (negb (code a =? 237)%N || (code b <=? 159)%N).

Definition four (a b c d : ascii) : bool :=
  ((240 <=? code a) && (code a <=? 244))%N && cont b && cont c && cont d
  && (negb (code a =? 240)%N || (144 <=? code b)%N)
  && (negb (code a =? 244)%N || (code b <=? 143)%N).

(** The code points of a text, read off its UTF-8 bytes; [None] stands
    for a byte that starts no well-formed sequence. *)
Fixpoint code_points (s : list ascii) : list (option N) :=
  match s with
  | [] => []
  | a :: rest =>
      if (code a <? 128)%N then Some (code a) :: code_points rest
      else
        match rest with
        | b :: rest2 =>
            if two a b then
              Some ((code a - 192) * 64 + low6 b)%N :: code_points rest2
            else
              match rest2 with
              | c :: rest3 =>
                  if three a b c then
                    Some ((code a - 224) * 4096 + low6 b * 64 + low6 c)%N
                      :: code_points rest3
                  else
                    match rest3 with
                    | d :: rest4 =>
                        if four a b c d then
                          Some ((code a - 240) * 262144 + low6 b * 4096
                                + low6 c * 64 + low6 d)%N
                            :: code_points rest4
                        else None :: code_points rest
                    | [] => None :: code_points rest
                    end
              | [] => None :: code_points rest
              end
        | [] => None :: code_points rest
        end
  end.

(** The bytes of [s] are well-formed UTF-8: [s] is a text, the UTF-8 form
    of a string of the runtime that has no unpaired surrogate. *)
Definition well_formed (s : string) : bool :=
  forallb (fun cp => match cp with Some _ => true | None => false end)
    (code_points (chars s)).

(** The UTF-16 code units of a code point: one, or a surrogate pair above
    U+FFFF; a byte outside every sequence reads as U+FFFD. *)
Definition units (cp : option N) : list N :=
  match cp with
  | Some cp =>
      if (cp <? 65536)%N then [cp]
      else [55296 + (cp - 65536) / 1024; 56320 + (cp - 65536) mod 1024]%N
  | None => [65533%N]
  end.

(** The string of the runtime that the text [s] is, as the sequence of
    its UTF-16 code units: what [length] and [substring] count. *)
Definition utf16 (s : string) : list N := flat_map units (code_points (chars s)).

End Text.

Module Json.
Import Text.

Definition is_ws (c : ascii) : bool :=
  match code c with
  | 32%N | 9%N | 10%N | 13%N => true
  | _ => false
  end.

Fixpoint skip_ws (s : list ascii) : list ascii :=
  match s with
  | c :: rest => if is_ws c then skip_ws rest else s
  | [] => []
  end.

Definition digit (c : ascii) : option Z :=
  if ((48 <=? code c) && (code c <=? 57))%N then Some (Z.of_N (code c) - 48) else None.

Definition hex_digit (c : ascii) : option N :=
  let n := code c in
  if ((48 <=? n) && (n <=? 57))%N then Some (n - 48)%N
  else if ((97 <=? n) && (n <=? 102))%N then Some (n - 87)%N
  else if ((65 <=? n) && (n <=? 70))%N then Some (n - 55)%N
  else None.

(** The UTF-8 bytes of a code point; strings are kept as their UTF-8 text. *)
Definition utf8 (cp : N) : list ascii :=
  if (cp <? 128)%N then [ascii_of_N cp]
  else if (cp <? 2048)%N then
    [ascii_of_N (192 + cp / 64); ascii_of_N (128 + cp mod 64)]
  else if (cp <? 65536)%N then
    [ascii_of_N (224 + cp / 4096); ascii_of_N (128 + (cp / 64) mod 64);
     ascii_of_N (128 + cp mod 64)]
  else
    [ascii_of_N (240 + cp / 262144); ascii_of_N (128 + (cp / 4096) mod 64);
     ascii_of_N (128 + (cp / 64) mod 64); ascii_of_N (128 + cp mod 64)].

Definition is_high_surrogate (u : N) : bool := ((55296 <=? u) && (u <=? 56319))%N.
Definition is_low_surrogate (u : N) : bool := ((56320 <=? u) && (u <=? 57343))%N.

(** Append a UTF-16 code unit from a [\uXXXX] escape to the reversed
    output [acc]; [pending] is a high surrogate waiting for its partner. *)
Definition flush (pending : option N) (acc : list ascii) : list ascii :=
  match pending with
  | Some hi => rev (utf8 hi) ++ acc
  | None => acc
  end.

(** The body of a string literal, after the opening quote. *)
Fixpoint string_body (s : list ascii) (pending : option N) (acc : list ascii)
    : option (string * list ascii) :=
  match s with
  | [] => None
  | c :: rest =>
      match code c with
      | 34%N => Some (text (rev (flush pending acc)), rest)
      | 92%N =>
          match rest with
          | e :: rest1 =>
              match code e with
              | 34%N => string_body rest1 None (dquote :: flush pending acc)
              | 92%N => string_body rest1 None (e :: flush pending acc)
              | 47%N => string_body rest1 None (e :: flush pending acc)
              | 98%N => string_body rest1 None (ascii_of_N 8 :: flush pending acc)
              | 102%N => string_body rest1 None (ascii_of_N 12 :: flush pending acc)
              | 110%N => string_body rest1 None (ascii_of_N 10 :: flush pending acc)
              | 114%N => string_body rest1 None (ascii_of_N 13 :: flush pending acc)
              | 116%N => string_body rest1 None (ascii_of_N 9 :: flush pending acc)
              | 117%N =>
                  match rest1 with
                  | h1 :: h2 :: h3 :: h4 :: rest2 =>
                      match hex_digit h1, hex_digit h2, hex_digit h3, hex_digit h4 with
                      | Some a, Some b, Some c', Some d =>
                          let u := (a * 4096 + b * 256 + c' * 16 + d)%N in
                          match pending with
                          | Some hi =>
                              if is_low_surrogate u then
                                string_body rest2 None
                                  (rev (utf8 (65536 + (hi - 55296) * 1024 + (u - 56320))%N)
                                     ++ acc)
                              else if is_high_surrogate u then
                                string_body rest2 (Some u) (flush pending acc)
                              else string_body rest2 None (rev (utf8 u) ++ flush pending acc)
                          | None =>
                              if is_high_surrogate u then string_body rest2 (Some u) acc
                              else string_body rest2 None (rev (utf8 u) ++ acc)
                          end
                      | _, _, _, _ => None
                      end
                  | _ => None
                  end
              | _ => None
              end
          | [] => None
          end
      | n => if (n <? 32)%N then None else string_body rest None (c :: flush pending acc)
      end
  end.

(** A run of digits: its value continuing from [acc], how many there were,
    and the rest of the input. *)
Fixpoint digits (s : list ascii) (acc : Z) (count : Z) : Z * Z * list ascii :=
  match s with
  | c :: rest =>
      match digit c with
      | Some d => digits rest (acc * 10 + d) (count + 1)
      | None => (acc, count, s)
      end
  | [] => (acc, count, [])
  end.

(** A number: an optional minus sign, an integer part without a leading
    zero (unless it is the single digit 0), an optional fraction (a dot
    and at least one digit) and an optional exponent (e or E, an optional
    sign, at least one digit). *)
Definition number (s : list ascii) : option (jsval * list ascii) :=
  let '(negative, s1) :=
    match s with
    | c :: rest => if (code c =? 45)%N then (true, rest) else (false, s)
    | [] => (false, s)
    end in
  let '(int_part, int_count, s2) := digits s1 0 0 in
  let leading_zero :=
    match s1 with
    | c :: _ => (code c =? 48)%N
    | [] => false
    end in
  if (int_count =? 0) || (leading_zero && (1 <? int_count)) then None
  else
    let frac :=
      match s2 with
      | c :: rest =>
          if (code c =? 46)%N then
            let '(m, fcount, s3) := digits rest int_part 0 in
            if fcount =? 0 then None else Some (m, fcount, s3)
          else Some (int_part, 0, s2)
      | [] => Some (int_part, 0, s2)
      end in
    match frac with
    | None => None
    | Some (mantissa, fcount, s3) =>
        let signed := if negative then - mantissa else mantissa in
        match s3 with
        | c :: rest =>
            if ((code c =? 101) || (code c =? 69))%N then
              let '(eneg, s4) :=
                match rest with
                | sg :: rest' =>
                    if (code sg =? 45)%N then (true, rest')
                    else if (code sg =? 43)%N then (false, rest')
                    else (false, rest)
                | [] => (false, rest)
                end in
              let '(ex, ecount, s5) := digits s4 0 0 in
              if ecount =? 0 then None
              else Some (JNum signed ((if eneg then - ex else ex) - fcount), s5)
            else Some (JNum signed (- fcount), s3)
        | [] => Some (JNum signed (- fcount), s3)
        end
    end.

(** [strip p s]: [s] without its prefix [p]. *)
Fixpoint strip (p s : list ascii) : option (list ascii) :=
  match p, s with
  | [], _ => Some s
  | a :: p', b :: s' => if Ascii.eqb a b then strip p' s' else None
  | _ :: _, [] => None
  end.

(** A JSON value (ECMA-404), with the members of an object and the
    elements of an array.  [fuel] bounds the nesting and the number of
    members; [parse] passes more than any input can use. *)
Fixpoint value (fuel : nat) (s : list ascii) : option (jsval * list ascii) :=
  match fuel with
  | O => None
  | Datatypes.S fuel' =>
      match skip_ws s with
      | [] => None
      | c :: rest =>
          match code c with
          | 123%N =>
              match skip_ws rest with
              | c' :: rest' =>
                  if (code c' =? 125)%N then Some (JObj [], rest')
                  else members fuel' rest []
              | [] => None
              end
          | 91%N =>
              match skip_ws rest with
              | c' :: rest' =>
                  if (code c' =? 93)%N then Some (JArr [], rest')
                  else elements fuel' rest []
              | [] => None
              end
          | 34%N =>
              match string_body rest None [] with
              | Some (str, rest') => Some (JStr str, rest')
              | None => None
              end
          | 116%N =>
              match strip (chars "true") (c :: rest) with
              | Some rest' => Some (JBool true, rest')
              | None => None
              end
          | 102%N =>
              match strip (chars "false") (c :: rest) with
              | Some rest' => Some (JBool false, rest')
              | None => None
              end
          | 110%N =>
              match strip (chars "null") (c :: rest) with
              | Some rest' => Some (JNull, rest')
              | None => None
              end
          | _ => number (c :: rest)
          end
      end
  end
with members (fuel : nat) (s : list ascii) (acc : list (string * jsval))
    : option (jsval * list ascii) :=
  match fuel with
  | O => None
  | Datatypes.S fuel' =>
      match skip_ws s with
      | q :: rest =>
          if (code q =? 34)%N then
            match string_body rest None [] with
            | Some (key, rest1) =>
                match skip_ws rest1 with
                | c :: rest2 =>
                    if (code c =? 58)%N then
                      match value fuel' rest2 with
                      | Some (v, rest3) =>
                          match skip_ws rest3 with
                          | d :: rest4 =>
                              if (code d =? 44)%N then
                                members fuel' rest4 (acc ++ [(key, v)])
                              else if (code d =? 125)%N then
                                Some (JObj (acc ++ [(key, v)]), rest4)
                              else None
                          | [] => None
                          end
                      | None => None
                      end
                    else None
                | [] => None
                end
            | None => None
            end
          else None
      | [] => None
      end
  end
with elements (fuel : nat) (s : list ascii) (acc : list jsval)
    : option (jsval * list ascii) :=
  match fuel with
  | O => None
  | Datatypes.S fuel' =>
      match value fuel' s with
      | Some (v, rest) =>
          match skip_ws rest with
          | d :: rest' =>
              if (code d =? 44)%N then elements fuel' rest' (acc ++ [v])
              else if (code d =? 93)%N then Some (JArr (acc ++ [v]), rest')
              else None
          | [] => None
          end
      | None => None
      end
  end.

(** [JSON.parse(s)]; [None] is a thrown [SyntaxError]. *)
Definition parse (s : string) : option jsval :=
  match value (2 * String.length s + 2) (chars s) with
  | Some (v, rest) =>
      match skip_ws rest with
      | [] => Some v
      | _ :: _ => None
      end
  | None => None
  end.

End Json.

(* ===================================================================== *)
(** * The storage layer: tables, statements, transactions *)
(* ===================================================================== *)

Module Store.

Inductive Status : Type := running | completed | failed.

Global Instance Status_eq_dec : EqDecision Status.
Proof. solve_decision. Defined.

Definition is_terminal (s : Status) : bool :=
  match s with running => false | completed | failed => true end.

(** [ExecutionRecord['trigger']] *)
Inductive Trigger : Type := webhook | manual | schedule | chat.

Definition trigger_name (t : Trigger) : string :=
  match t with
  | webhook => "webhook" | manual => "manual"
  | schedule => "schedule" | chat => "chat"
  end.

(** A row of table [executions]. *)
Record Execution : Type := {
  ex_id : string;
  ex_skillId : string;
  ex_status : Status;
  ex_trigger : string;
  ex_input : jsval;
  ex_output : option string;
  ex_trace : option jsval;
  ex_error : option string;
  ex_startedAt : Z;
  ex_completedAt : option Z;
  ex_durationMs : option Z;
  ex_tokenCount : option Z;
}.

(** A row of table [skills] (the columns the pipeline touches).  The run
    counter is an unbounded integer here; the column is a 32-bit INTEGER. *)
Record Skill : Type := {
  sk_id : string;
  sk_name : string;
  sk_description : option string;
  sk_steps : jsval;
  sk_isActive : bool;
  sk_runCount : Z;
  sk_lastRunAt : option Z;
  sk_createdAt : Z;
}.

Record DB : Type := {
  executions : gmap string Execution;
  skills : gmap string Skill;
  config : gmap string string;
}.

(** A committed write, as it appears in the statement log. *)
Inductive Event : Type :=
| EvExecutionCreate (id skillId : string)
| EvExecutionUpdate (id : string) (status : Status) (completedAt : option Z)
| EvSkillRun (id : string) (lastRunAt : Z)
| EvConfigUpsert (key : string)
| EvCapability (name : string) (arg : string).

(** An error thrown by the storage client: always an [Error] object. *)
Record Fault : Type := {
  fault_name : string;
  fault_message : string;
  fault_code : option string;
}.

Definition fault_val (f : Fault) : jsval :=
  JObj ([("name", JStr (fault_name f)); ("message", JStr (fault_message f))]
        ++ match fault_code f with
           | Some c => [("code", JStr c)]
           | None => []
           end).

(** Everything a request can read or change.
    - [clock] is what [new Date()] and [Date.now()] read; every storage
      round trip and capability call advances it by one.
    - [client_error]: [getPrismaClient()] throws it ([DATABASE_URL] unset).
    - [faults]: for each coming storage round trip, the fault it fails
      with, if any; an exhausted schedule means no more faults.
    - [gen_id]/[next_id]: the ids the database generates for new rows.
    - [collate]: the order [orderBy: { name: 'asc' }] sorts by.
    - [log]: the committed writes and capability calls, newest first.
    - [snapshots]: every committed database state, newest first; these
      are the states another connection can observe. *)
Record World : Type := {
  db : DB;
  clock : Z;
  client_error : option Fault;
  faults : list (option Fault);
  next_id : nat;
  gen_id : nat -> string;
  collate : string -> string -> bool;
  log : list Event;
  snapshots : list DB;
}.

Definition with_db (d : DB) (w : World) : World :=
  {| db := d; clock := clock w; client_error := client_error w;
     faults := faults w; next_id := next_id w; gen_id := gen_id w;
     collate := collate w; log := log w; snapshots := snapshots w |}.

Definition with_log (l : list Event) (w : World) : World :=
  {| db := db w; clock := clock w; client_error := client_error w;
     faults := faults w; next_id := next_id w; gen_id := gen_id w;
     collate := collate w; log := l; snapshots := snapshots w |}.

Definition with_snapshots (l : list DB) (w : World) : World :=
  {| db := db w; clock := clock w; client_error := client_error w;
     faults := faults w; next_id := next_id w; gen_id := gen_id w;
     collate := collate w; log := log w; snapshots := l |}.

Definition with_next_id (n : nat) (w : World) : World :=
  {| db := db w; clock := clock w; client_error := client_error w;
     faults := faults w; next_id := n; gen_id := gen_id w;
     collate := collate w; log := log w; snapshots := snapshots w |}.

(** One step of the clock, consuming the head of the fault schedule. *)
Definition tick (w : World) : World :=
  {| db := db w; clock := clock w + 1; client_error := client_error w;
     faults := tail (faults w); next_id := next_id w; gen_id := gen_id w;
     collate := collate w; log := log w; snapshots := snapshots w |}.

(** Time passing without a storage round trip. *)
Definition elapse (w : World) : World :=
  {| db := db w; clock := clock w + 1; client_error := client_error w;
     faults := faults w; next_id := next_id w; gen_id := gen_id w;
     collate := collate w; log := log w; snapshots := snapshots w |}.

(** Asynchronous code: a computation over the world that returns or throws. *)
Definition M (A : Type) : Type := World -> outcome A * World.

Definition ret {A} (a : A) : M A := fun w => (Ret a, w).
Definition throw {A} (e : jsval) : M A := fun w => (Throw e, w).
Definition bind {A B} (m : M A) (k : A -> M B) : M B :=
  fun w =>
    match m w with
    | (Ret a, w') => k a w'
    | (Throw e, w') => (Throw e, w')
    end.

(** [try { body } catch (error) { handler }]: what [body] did to the world
    before it threw stays done. *)
Definition try_catch {A} (body : M A) (handler : jsval -> M A) : M A :=
  fun w =>
    match body w with
    | (Ret a, w') => (Ret a, w')
    | (Throw e, w') => handler e w'
    end.

Notation "'let*' x ':=' m 'in' k" := (bind m (fun x => k))
  (at level 10, x name, m at level 200, k at level 200).
Notation "m ';;' k" := (bind m (fun _ => k))
  (at level 100, k at level 200, right associativity).

(** [new Date()] / [Date.now()] *)
Definition now : M Z := fun w => (Ret (clock w), w).

Definition emit (ev : Event) : M unit :=
  fun w => (Ret tt, with_log (ev :: log w) w).

(** [getPrismaClient()] *)
Definition getPrismaClient : M unit :=
  fun w =>
    match client_error w with
    | Some f => (Throw (fault_val f), w)
    | None => (Ret tt, w)
    end.

(** A round trip to the database server: it takes time and may fail. *)
Definition round_trip : M unit :=
  fun w =>
    match faults w with
    | Some f :: _ => (Throw (fault_val f), tick w)
    | _ => (Ret tt, tick w)
    end.

(** Auto-commit and [$transaction]: the statements of [body] take effect
    together.  On success the new state becomes observable; on failure the
    tables and the log are as before. *)
Definition atomically {A} (body : M A) : M A :=
  fun w =>
    match body w with
    | (Ret a, w') => (Ret a, with_snapshots (db w' :: snapshots w') w')
    | (Throw e, w') => (Throw e, with_log (log w) (with_db (db w) w'))
    end.

(** A call of an outside capability whose answer is [r]: it is logged and
    takes time. *)
Definition capability {A} (name arg : string) (r : Fault + A) : M A :=
  fun w =>
    let w' := elapse (with_log (EvCapability name arg :: log w) w) in
    match r with
    | inl f => (Throw (fault_val f), w')
    | inr a => (Ret a, w')
    end.

(** Synchronous code that returns or throws, run inside asynchronous code. *)
Definition lift {A} (o : outcome A) : M A := fun w => (o, w).

Definition modify_db (f : DB -> DB) : M unit :=
  fun w => (Ret tt, with_db (f (db w)) w).

Definition read_db : M DB := fun w => (Ret (db w), w).

Definition known_error (code message : string) : jsval :=
  fault_val {| fault_name := "PrismaClientKnownRequestError";
               fault_message := message; fault_code := Some code |}.

Definition validation_error (message : string) : jsval :=
  fault_val {| fault_name := "PrismaClientValidationError";
               fault_message := message; fault_code := None |}.

(** [prisma.execution.create({ data })].  A missing [startedAt] takes the
    column default [CURRENT_TIMESTAMP]. *)
Definition execution_create (skillId : string) (status : Status)
    (trigger : string) (input : jsval) (startedAt : option Z) : M Execution :=
  round_trip ;;
  let* d := read_db in
  let* t := now in
  fun w =>
    let id := gen_id w (next_id w) in
    let row := {| ex_id := id; ex_skillId := skillId; ex_status := status;
                  ex_trigger := trigger; ex_input := input;
                  ex_output := None; ex_trace := None; ex_error := None;
                  ex_startedAt := default t startedAt; ex_completedAt := None;
                  ex_durationMs := None; ex_tokenCount := None |} in
    match skills d !! skillId, executions d !! id with
    | None, _ =>
        (Throw (known_error Retry.FOREIGN_KEY_CONSTRAINT
                  "Foreign key constraint failed on the field: executions_skill_id_fkey"), w)
    | Some _, Some _ =>
        (Throw (known_error Retry.UNIQUE_CONSTRAINT
                  "Unique constraint failed on the fields: (id)"), w)
    | Some _, None =>
        (Ret row,
         with_log (EvExecutionCreate id skillId :: log w)
           (with_next_id (Datatypes.S (next_id w))
              (with_db {| executions := <[id := row]> (executions d);
                          skills := skills d; config := config d |} w)))
    end.

(** The [data] of [prisma.execution.update]: [None] is a key whose value is
    [undefined], which leaves the column as it is. *)
Record ExecutionUpdate : Type := {
  u_status : option Status;
  u_output : option string;
  u_trace : option jsval;
  u_error : option string;
  u_durationMs : jsval;
  u_tokenCount : option Z;
  u_completedAt : option Z;
}.

(** An [Int?] column takes an integer number, [null] (stored as NULL) or
    [undefined] (column unchanged); anything else is rejected by the
    client before it talks to the server. *)
Inductive IntArg : Type := IntKeep | IntSet (v : option Z) | IntInvalid.

Definition int_arg (v : jsval) : IntArg :=
  match v with
  | JUndefined => IntKeep
  | JNull => IntSet None
  | JNum m e =>
      if 0 <=? e then IntSet (Some (m * 10 ^ e))
      else if m mod 10 ^ (- e) =? 0 then IntSet (Some (m / 10 ^ (- e)))
      else IntInvalid
  | _ => IntInvalid
  end.

Definition apply_update (u : ExecutionUpdate) (duration : option Z)
    (row : Execution) : Execution :=
  {| ex_id := ex_id row; ex_skillId := ex_skillId row;
     ex_status := default (ex_status row) (u_status u);
     ex_trigger := ex_trigger row; ex_input := ex_input row;
     ex_output := match u_output u with Some o => Some o | None => ex_output row end;
     ex_trace := match u_trace u with Some t => Some t | None => ex_trace row end;
     ex_error := match u_error u with Some e => Some e | None => ex_error row end;
     ex_startedAt := ex_startedAt row;
     ex_completedAt :=
       match u_completedAt u with Some t => Some t | None => ex_completedAt row end;
     ex_durationMs := duration;
     ex_tokenCount :=
       match u_tokenCount u with Some n => Some n | None => ex_tokenCount row end |}.

(** [prisma.execution.update({ where: { id }, data })] *)
Definition execution_update (id : string) (u : ExecutionUpdate) : M Execution :=
  match int_arg (u_durationMs u) with
  | IntInvalid =>
      throw (validation_error "Argument durationMs: Invalid value provided. Expected Int")
  | arg =>
      round_trip ;;
      let* d := read_db in
      match executions d !! id with
      | None =>
          throw (known_error Retry.RECORD_NOT_FOUND "Record to update not found.")
      | Some row =>
          let duration :=
            match arg with IntSet v => v | _ => ex_durationMs row end in
          let row' := apply_update u duration row in
          modify_db (fun d => {| executions := <[id := row']> (executions d);
                                 skills := skills d; config := config d |}) ;;
          emit (EvExecutionUpdate id (ex_status row') (u_completedAt u)) ;;
          ret row'
      end
  end.

(** [prisma.execution.findUnique({ where: { id } })] *)
Definition execution_findUnique (id : string) : M (option Execution) :=
  round_trip ;;
  let* d := read_db in
  ret (executions d !! id).

(** [prisma.skill.update({ where: { id },
      data: { runCount: { increment: 1 }, lastRunAt } })] *)
Definition skill_update_run (id : string) (lastRunAt : Z) : M Skill :=
  round_trip ;;
  let* d := read_db in
  match skills d !! id with
  | None => throw (known_error Retry.RECORD_NOT_FOUND "Record to update not found.")
  | Some row =>
      let row' := {| sk_id := sk_id row; sk_name := sk_name row;
                     sk_description := sk_description row; sk_steps := sk_steps row;
                     sk_isActive := sk_isActive row;
                     sk_runCount := sk_runCount row + 1;
                     sk_lastRunAt := Some lastRunAt;
                     sk_createdAt := sk_createdAt row |} in
      modify_db (fun d => {| executions := executions d;
                             skills := <[id := row']> (skills d);
                             config := config d |}) ;;
      emit (EvSkillRun id lastRunAt) ;;
      ret row'
  end.

(** [prisma.skill.findMany({ where: { isActive: true },
      orderBy: { name: 'asc' } })] *)
Definition skill_findMany_active : M (list Skill) :=
  round_trip ;;
  let* d := read_db in
  fun w =>
    let rows := filter (fun s => sk_isActive s = true) (map snd (map_to_list (skills d))) in
    (Ret (merge_sort (fun a b => Is_true (collate w (sk_name a) (sk_name b))) rows), w).

(** [prisma.skill.findUnique({ where: { id } })] *)
Definition skill_findUnique (id : string) : M (option Skill) :=
  round_trip ;;
  let* d := read_db in
  ret (skills d !! id).

(** [prisma.config.findUnique({ where: { key } })]; the row is its [value]. *)
Definition config_findUnique (key : string) : M (option string) :=
  round_trip ;;
  let* d := read_db in
  ret (config d !! key).

(** [prisma.config.upsert({ where: { key }, update: { value },
      create: { key, value } })] *)
Definition config_upsert (key value : string) : M unit :=
  round_trip ;;
  modify_db (fun d => {| executions := executions d; skills := skills d;
                         config := <[key := value]> (config d) |}) ;;
  emit (EvConfigUpsert key).

End Store.

(* ===================================================================== *)
(** * src/database.ts and the helpers of src/db/utils.ts *)
(* ===================================================================== *)

Module Database.
Import Store.

(** The [status] a caller of [updateExecution] can pass. *)
Inductive TerminalStatus : Type := Completed | Failed.

Definition status_of (t : TerminalStatus) : Status :=
  match t with Completed => completed | Failed => failed end.

(** The [result] argument of [updateExecution]. *)
Record ExecutionResult : Type := {
  r_status : TerminalStatus;
  r_output : option string;
  r_trace : option jsval;
  r_error : option string;
  r_durationMs : jsval;
  r_tokenCount : option Z;
}.

(** [createExecution]: one [execution.create], nothing else; a failure is
    logged and thrown again. *)
Definition createExecution (skillId requestId : string) (trigger : Trigger)
    (input : option jsval) : M string :=
  try_catch
    (getPrismaClient ;;
     let* startedAt := now in
     let* execution :=
       atomically
         (execution_create skillId running (trigger_name trigger)
            (or_else (default JUndefined input) (JObj [])) (Some startedAt)) in
     ret (ex_id execution))
    (fun error => throw error).

(** [updateExecution]: three separate statements (update the execution,
    read back its [skillId], bump the skill); any failure is logged and
    swallowed. *)
Definition updateExecution (executionId : string) (result : ExecutionResult) : M unit :=
  try_catch
    (getPrismaClient ;;
     let* completedAt := now in
     atomically
       (execution_update executionId
          {| u_status := Some (status_of (r_status result));
             u_output := r_output result;
             u_trace := r_trace result;
             u_error := r_error result;
             u_durationMs := r_durationMs result;
             u_tokenCount := r_tokenCount result;
             u_completedAt := Some completedAt |}) ;;
     let* execution := atomically (execution_findUnique executionId) in
     match execution with
     | Some ex =>
         if negb (String.eqb (ex_skillId ex) EmptyString) then
           let* lastRunAt := now in
           atomically (skill_update_run (ex_skillId ex) lastRunAt) ;;
           ret tt
         else ret tt
     | None => ret tt
     end)
    (fun error => ret tt).

(** [upsertResult]: only logs, unless [metadata.executionId] is set, in
    which case it marks that execution completed. *)
Definition upsertResult (requestId text : string) (metadata : jsval) : M unit :=
  match prop metadata "executionId" with
  | JStr executionId =>
      if negb (String.eqb executionId EmptyString) then
        updateExecution executionId
          {| r_status := Completed;
             r_output := Some text;
             r_trace := None;
             r_error := None;
             r_durationMs := prop metadata "durationMs";
             r_tokenCount := None |}
      else ret tt
  | _ => ret tt
  end.

(** [Pick<Workflow, 'id' | 'name' | 'description'>] *)
Record WorkflowSummary : Type := {
  ws_id : string;
  ws_name : string;
  ws_description : string;
}.

(** [Workflow] *)
Record Workflow : Type := {
  wf_id : string;
  wf_name : string;
  wf_description : string;
  wf_steps : jsval;
  wf_created_at : Z;
}.

(** [getAllWorkflows]: the active skills by name; the empty list when the
    query fails. *)
Definition getAllWorkflows : M (list WorkflowSummary) :=
  try_catch
    (getPrismaClient ;;
     let* skills := atomically skill_findMany_active in
     ret (map (fun skill =>
                 {| ws_id := sk_id skill; ws_name := sk_name skill;
                    ws_description := default EmptyString (sk_description skill) |})
              skills))
    (fun error => ret []).

(** [getWorkflowById]: [null] when the skill is missing or the query fails. *)
Definition getWorkflowById (id : string) : M (option Workflow) :=
  try_catch
    (getPrismaClient ;;
     let* skill := atomically (skill_findUnique id) in
     match skill with
     | None => ret None
     | Some skill =>
         ret (Some {| wf_id := sk_id skill; wf_name := sk_name skill;
                      wf_description := default EmptyString (sk_description skill);
                      wf_steps := or_else (sk_steps skill) (JArr []);
                      wf_created_at := sk_createdAt skill |})
     end)
    (fun error => ret None).

(** [transaction] of src/db/client.ts *)
Definition transaction {A} (operations : M A) : M A :=
  getPrismaClient ;; atomically operations.

(** [createSkillExecution] of src/db/utils.ts: create the execution and bump
    the skill inside one [$transaction]. *)
Definition createSkillExecution (skillId trigger : string) (input : jsval) : M Execution :=
  getPrismaClient ;;
  atomically
    (let* execution :=
       execution_create skillId running trigger (or_else input JNull) None in
     let* lastRunAt := now in
     skill_update_run skillId lastRunAt ;;
     ret execution).

(** [completeSkillExecution] of src/db/utils.ts: one [execution.update]. *)
Definition completeSkillExecution (executionId : string) (result : ExecutionResult) : M Execution :=
  getPrismaClient ;;
  let* completedAt := now in
  atomically
    (execution_update executionId
       {| u_status := Some (status_of (r_status result));
          u_output := r_output result;
          u_trace := r_trace result;
          u_error := r_error result;
          u_durationMs := r_durationMs result;
          u_tokenCount := r_tokenCount result;
          u_completedAt := Some completedAt |}).

End Database.

(* ===================================================================== *)
(** * Buffer's base64 codec *)
(* ===================================================================== *)

Module Base64.
Import Text.

Definition alphabet : string :=
  "ABCDEFGHIJKLMNOPQRSTUVWXYZabcdefghijklmnopqrstuvwxyz0123456789+/".

Definition pad : ascii := ascii_of_N 61.

(** The character of a 6-bit group. *)
Definition enc6 (n : N) : ascii :=
  default pad (String.get (N.to_nat n) alphabet).

(** The 6-bit group of a character, as the decoder reads it: the
    characters of the alphabet, and [-] and [_] of the URL-safe one. *)
Definition dec6 (c : ascii) : option N :=
  let n := code c in
  if ((65 <=? n) && (n <=? 90))%N then Some (n - 65)%N
  else if ((97 <=? n) && (n <=? 122))%N then Some (n - 71)%N
  else if ((48 <=? n) && (n <=? 57))%N then Some (n + 4)%N
  else if ((n =? 43) || (n =? 45))%N then Some 62%N
  else if ((n =? 47) || (n =? 95))%N then Some 63%N
  else None.

(** [buffer.toString('base64')] *)
Fixpoint encode_chars (s : list ascii) : list ascii :=
  match s with
  | [] => []
  | [a] =>
      let a := code a in
      [enc6 (a / 4); enc6 ((a mod 4) * 16); pad; pad]
  | [a; b] =>
      let a := code a in
      let b := code b in
      [enc6 (a / 4); enc6 ((a mod 4) * 16 + b / 16); enc6 ((b mod 16) * 4); pad]
  | a :: b :: c :: rest =>
      let a := code a in
      let b := code b in
      let c := code c in
      enc6 (a / 4) :: enc6 ((a mod 4) * 16 + b / 16)
        :: enc6 ((b mod 16) * 4 + c / 64) :: enc6 (c mod 64)
        :: encode_chars rest
  end%N.

Definition encode (s : string) : string := text (encode_chars (chars s)).

(** The 6-bit groups the decoder takes from [s]: a character it does
    not know is skipped, and the padding character ends the input. *)
Fixpoint groups (s : list ascii) : list N :=
  match s with
  | [] => []
  | c :: rest =>
      if Ascii.eqb c pad then []
      else
        match dec6 c with
        | Some n => n :: groups rest
        | None => groups rest
        end
  end.

(** Four groups give three bytes; of the groups left over at the end,
    two give one byte, three give two, and a single one gives none. *)
Fixpoint bytes (l : list N) : list ascii :=
  match l with
  | s1 :: s2 :: rest2 =>
      let b1 := ascii_of_N (s1 * 4 + s2 / 16) in
      match rest2 with
      | s3 :: rest3 =>
          let b2 := ascii_of_N ((s2 mod 16) * 16 + s3 / 4) in
          match rest3 with
          | s4 :: rest4 =>
              b1 :: b2 :: ascii_of_N ((s3 mod 4) * 64 + s4) :: bytes rest4
          | [] => [b1; b2]
          end
      | [] => [b1]
      end
  | _ => []
  end%N.

(** [Buffer.from(s, 'base64')] *)
Definition decode_chars (s : list ascii) : list ascii := bytes (groups s).

Definition decode (s : string) : string := text (decode_chars (chars s)).

End Base64.

(* ===================================================================== *)
(** * The capabilities a request runs against *)
(* ===================================================================== *)

Module Capabilities.
Import Store Database.

(** Node's [crypto] for aes-256-gcm, as a capability: a hash for the key
    derivation, authenticated encryption, and decryption that fails
    ([None]: the decipher throws) on a bad key, IV, tag or ciphertext. *)
Record Cipher : Type := {
  sha256 : string -> string;
  gcm_encrypt : string -> string -> string -> string * string;
  gcm_decrypt : string -> string -> string -> string -> option string;
}.

(** Decryption undoes encryption under the same key and IV, for the
    keys the hash gives and the IVs of 16 bytes that the code draws. *)
Definition cipher_correct (c : Cipher) : Prop :=
  forall secret iv plaintext,
    String.length iv = 16%nat ->
    gcm_decrypt c (sha256 c secret) iv
      (snd (gcm_encrypt c (sha256 c secret) iv plaintext))
      (fst (gcm_encrypt c (sha256 c secret) iv plaintext)) = Some plaintext.

(** A block of [response.content]. *)
Inductive ContentBlock : Type :=
| TextBlock (text : string)
| OtherBlock (type : string).

(** [AgentResponse] *)
Record AgentResponse : Type := {
  ar_text : string;
  ar_workingDirectory : string;
  ar_trace : list jsval;
}.

Record UploadedFile : Type := {
  uf_name : string;
  uf_url : string;
}.

(** The process environment and the outside capabilities, each given by
    the answer it returns ([inl]: the error it throws).
    - [toLowerCase], [JSON_parse]: the runtime's string functions.
    - [messages_create]: [anthropic.messages.create], by prompt.
    - [loadSystemPrompt], [loadUserPromptPrefix]: src/prompts.ts.
    - [executeWorkflowOrchestrator workflow prompt requestId systemPrompt]:
      src/workflow-orchestrator.ts.
    - [executeAgent prompt requestId systemPrompt userPromptPrefix]:
      src/agent.ts.
    - [detectFiles], [uploadAllFiles]: src/files.ts. *)
Record Env : Type := {
  cipher : Cipher;
  VM_ENCRYPTION_SECRET : option string;
  ANTHROPIC_API_KEY : option string;
  toLowerCase : string -> string;
  JSON_parse : string -> option jsval;
  messages_create : string -> Fault + list ContentBlock;
  loadSystemPrompt : Fault + string;
  loadUserPromptPrefix : Fault + string;
  executeWorkflowOrchestrator :
    Workflow -> string -> string -> string -> Fault + AgentResponse;
  executeAgent : string -> string -> string -> option string -> Fault + AgentResponse;
  detectFiles : string -> Fault + list string;
  uploadAllFiles : list string -> string -> Fault + list UploadedFile;
}.

End Capabilities.

(* ===================================================================== *)
(** * src/config.ts: the secret store *)
(* ===================================================================== *)

Module Config.
Import Text Store Capabilities.

Definition IV_LENGTH : N := 16.
Definition AUTH_TAG_LENGTH : N := 16.

Definition marker : string := "encrypted:".

Definition api_key_name : string := "anthropic_api_key".

Section WithEnv.
Variable env : Env.

(** [getEncryptionKey] *)
Definition getEncryptionKey : outcome string :=
  match VM_ENCRYPTION_SECRET env with
  | Some secret =>
      if String.eqb secret EmptyString
      then Throw (mkError "Error" "VM_ENCRYPTION_SECRET is not configured")
      else Ret (sha256 (cipher env) secret)
  | None => Throw (mkError "Error" "VM_ENCRYPTION_SECRET is not configured")
  end.

(** [encrypt]; [iv] is the result of [crypto.randomBytes(IV_LENGTH)],
    [plaintext] a text, given to the cipher by its UTF-8 bytes. *)
Definition encrypt (iv plaintext : string) : outcome string :=
  match getEncryptionKey with
  | Throw e => Throw e
  | Ret key =>
      let sealed := gcm_encrypt (cipher env) key iv plaintext in
      Ret (marker ++ Base64.encode iv ++ ":" ++ Base64.encode (snd sealed)
             ++ ":" ++ Base64.encode (fst sealed))
  end.

(** [decrypt] *)
Definition decrypt (encryptedValue : string) : outcome string :=
  if negb (startsWith marker encryptedValue) then Ret encryptedValue
  else
    match split colon encryptedValue with
    | [_; iv64; tag64; encrypted] =>
        match getEncryptionKey with
        | Throw e => Throw e
        | Ret key =>
            match gcm_decrypt (cipher env) key (Base64.decode iv64)
                    (Base64.decode tag64) (Base64.decode encrypted) with
            | Some decrypted => Ret decrypted
            | None =>
                Throw (mkError "Error"
                         "Unsupported state or unable to authenticate data")
            end
        end
    | _ => Throw (mkError "Error" "Invalid encrypted value format")
    end.

(** [maskApiKey].  [length] and [substring] count UTF-16 code units, and
    a cut can fall between the two units of a character above U+FFFF,
    which leaves no text: the mask is given by its code units. *)
Definition maskApiKey (key : string) : list N :=
  let units := utf16 key in
  if (length units <? 12)%nat then utf16 "****"
  else (take 7 units ++ utf16 "..." ++ drop (length units - 4) units)%list.

(** [getAnthropicApiKey]: [None] is [null]. *)
Definition getAnthropicApiKey : M (option string) :=
  try_catch
    (getPrismaClient ;;
     let* config := atomically (config_findUnique api_key_name) in
     match config with
     | None => ret None
     | Some value =>
         if String.eqb value EmptyString then ret None
         else
           let* plaintext := lift (decrypt value) in
           ret (Some plaintext)
     end)
    (fun error => ret None).

(** The HTTP answer of [saveConfig]. *)
Record Reply : Type := {
  reply_status : Z;
  reply_text : string;
}.

(** [saveConfig], for the [anthropic_api_key] of the request body; [iv] is
    the IV that [encrypt] draws. *)
Definition saveConfig (anthropic_api_key : jsval) (iv : string) : M Reply :=
  try_catch
    (if negb (truthy anthropic_api_key) then
       ret {| reply_status := 400; reply_text := "anthropic_api_key is required" |}
     else
       match anthropic_api_key with
       | JStr key =>
           if negb (startsWith "sk-ant-" key) then
             ret {| reply_status := 400;
                    reply_text := "Invalid API key format. Must start with sk-ant-" |}
           else if (length (utf16 key) <? 20)%nat then
             ret {| reply_status := 400;
                    reply_text := "API key appears to be too short" |}
           else
             getPrismaClient ;;
             let* encryptedKey := lift (encrypt iv key) in
             atomically (config_upsert api_key_name encryptedKey) ;;
             ret {| reply_status := 200; reply_text := "API key saved successfully" |}
       | _ =>
           throw (mkError "TypeError" "anthropic_api_key.startsWith is not a function")
       end)
    (fun error =>
       ret {| reply_status := 500; reply_text := "Failed to save config" |}).

End WithEnv.

End Config.

(* ===================================================================== *)
(** * src/workflow-classifier.ts *)
(* ===================================================================== *)

Module Classifier.
Import Text Store Database Capabilities.

(** [ClassificationResult]; [confidence] and [reasoning] hold whatever the
    parsed response carried. *)
Record ClassificationResult : Type := {
  workflowId : option string;
  workflowData : option Workflow;
  confidence : jsval;
  reasoning : jsval;
}.

(** The result written [{none}] in the specification. *)
Definition no_match : ClassificationResult :=
  {| workflowId := None; workflowData := None;
     confidence := JStr "none"; reasoning := JUndefined |}.

(** What [parseClassificationResponse] returns. *)
Record Parsed : Type := {
  p_match : jsval;
  p_workflowName : jsval;
  p_confidence : jsval;
  p_reasoning : jsval;
}.

Definition parsed_none : Parsed :=
  {| p_match := JBool false; p_workflowName := JNull;
     p_confidence := JStr "none"; p_reasoning := JUndefined |}.

Definition nl : string := String (ascii_of_N 10) EmptyString.
Definition q : string := String dquote EmptyString.

(** [lines.join('\n')] *)
Definition join_lines (lines : list string) : string := String.concat nl lines.

(** The template literal [classificationPrompt]. *)
Definition classificationPrompt (workflows : list WorkflowSummary)
    (userPrompt : string) : string :=
  let workflowList :=
    join_lines (map (fun w => "- " ++ ws_name w ++ ": " ++ ws_description w) workflows) in
  join_lines
    [ "You are a workflow classifier.";
      EmptyString;
      "Given the user's request, determine if it matches one of the available pre-built workflows.";
      EmptyString;
      "AVAILABLE WORKFLOWS:";
      workflowList;
      EmptyString;
      "USER REQUEST:";
      q ++ userPrompt ++ q;
      EmptyString;
      "INSTRUCTIONS:";
      "1. Analyze the user's request";
      "2. Determine if it clearly matches one of the available workflows";
      "3. Respond with JSON ONLY in this exact format:";
      EmptyString;
      "{";
      "  " ++ q ++ "match" ++ q ++ ": true/false,";
      "  " ++ q ++ "workflowName" ++ q ++ ": " ++ q ++ "exact_workflow_name" ++ q ++ " or null,";
      "  " ++ q ++ "confidence" ++ q ++ ": " ++ q ++ "high/medium/low/none" ++ q ++ ",";
      "  " ++ q ++ "reasoning" ++ q ++ ": " ++ q ++ "brief explanation" ++ q;
      "}";
      EmptyString;
      "RULES:";
      "- Only match if you're confident the workflow fits the request";
      "- Use exact workflow names from the list above";
      "- If uncertain or request is custom/ad-hoc, return match: false";
      "- Confidence " ++ q ++ "high" ++ q ++ " = clearly matches, "
        ++ q ++ "medium" ++ q ++ " = likely matches, "
        ++ q ++ "low" ++ q ++ " = might match, "
        ++ q ++ "none" ++ q ++ " = no match" ].

Section WithEnv.
Variable env : Env.

(** [parseClassificationResponse] *)
Definition parseClassificationResponse (response : string) : Parsed :=
  match match_braces response with
  | None => parsed_none
  | Some jsonMatch =>
      match JSON_parse env jsonMatch with
      | Some parsed =>
          {| p_match := nullish (prop parsed "match") (JBool false);
             p_workflowName := nullish (prop parsed "workflowName") JNull;
             p_confidence := nullish (prop parsed "confidence") (JStr "none");
             p_reasoning := prop parsed "reasoning" |}
      | None => parsed_none
      end
  end.

(** [getAnthropicClient]: the API key from the database, else from the
    environment; throws when there is none. *)
Definition getAnthropicClient : M string :=
  let* dbApiKey := Config.getAnthropicApiKey env in
  let apiKey :=
    match dbApiKey with
    | Some k => if String.eqb k EmptyString then ANTHROPIC_API_KEY env else Some k
    | None => ANTHROPIC_API_KEY env
    end in
  match apiKey with
  | Some k =>
      if String.eqb k EmptyString then
        throw (mkError "Error" "No Anthropic API key configured. Set it via /api/config or ANTHROPIC_API_KEY env var.")
      else ret k
  | None =>
      throw (mkError "Error" "No Anthropic API key configured. Set it via /api/config or ANTHROPIC_API_KEY env var.")
  end.

(** The part of [classifyWorkflow] that acts on the parsed response:
    no match claimed, or the claimed name looked up in the catalog and the
    full workflow fetched. *)
Definition resolve (workflows : list WorkflowSummary) (parsed : Parsed)
    : M ClassificationResult :=
  if negb (truthy (p_match parsed)) || negb (truthy (p_workflowName parsed)) then
    ret {| workflowId := None; workflowData := None;
           confidence := or_else (p_confidence parsed) (JStr "none");
           reasoning := p_reasoning parsed |}
  else
    match p_workflowName parsed with
    | JStr workflowName =>
        match find (fun w => String.eqb (toLowerCase env (ws_name w))
                               (toLowerCase env workflowName)) workflows with
        | None =>
            ret {| workflowId := None; workflowData := None;
                   confidence := JStr "none";
                   reasoning := JStr "Suggested workflow not found in database" |}
        | Some matchedWorkflow =>
            let* workflowData := getWorkflowById (ws_id matchedWorkflow) in
            match workflowData with
            | None => ret no_match
            | Some data =>
                ret {| workflowId := Some (wf_id data);
                       workflowData := Some data;
                       confidence := or_else (p_confidence parsed) (JStr "medium");
                       reasoning := p_reasoning parsed |}
            end
        end
    | _ =>
        (* the callback of [find] runs on the first entry, if there is one *)
        match workflows with
        | [] =>
            ret {| workflowId := None; workflowData := None;
                   confidence := JStr "none";
                   reasoning := JStr "Suggested workflow not found in database" |}
        | _ :: _ =>
            throw (mkError "TypeError"
                     "parsed.workflowName.toLowerCase is not a function")
        end
    end.

(** The body of the [try] block of [classifyWorkflow]. *)
Definition classify_body (userPrompt : string) : M ClassificationResult :=
  let* workflows := getAllWorkflows in
  match workflows with
  | [] => ret no_match
  | _ :: _ =>
      let* anthropic := getAnthropicClient in
      let* content :=
        capability "anthropic.messages.create" (classificationPrompt workflows userPrompt)
          (messages_create env (classificationPrompt workflows userPrompt)) in
      match content with
      | [] =>
          throw (mkError "TypeError" "Cannot read properties of undefined (reading 'type')")
      | OtherBlock _ :: _ =>
          throw (mkError "Error" "Unexpected response type from Claude")
      | TextBlock response :: _ =>
          resolve workflows (parseClassificationResponse response)
      end
  end.

(** [classifyWorkflow] *)
Definition classifyWorkflow (userPrompt : string) : M ClassificationResult :=
  try_catch (classify_body userPrompt) (fun error => ret no_match).

End WithEnv.

End Classifier.

(* ===================================================================== *)
(** * src/webhook.ts *)
(* ===================================================================== *)

Module Webhook.
Import Text Store Database Capabilities Classifier.

(** The validated request, as [webhookHandler] passes it on. *)
Record Request : Type := {
  prompt : string;
  requestId : string;
  requestSystemPrompt : option string;
  searchWorkflow : bool;
  metadata : option (list (string * jsval));
  startTime : Z;
}.

(** [WebhookResponse] *)
Record WebhookResponse : Type := {
  response : string;
  files : list UploadedFile;
  res_requestId : string;
  trace : list jsval;
  res_workflowId : option string;
  res_workflow : option Workflow;
}.

(** [formatFilesForResponse] *)
Definition formatFilesForResponse (files : list UploadedFile) : string :=
  match files with
  | [] => EmptyString
  | _ :: _ =>
      nl ++ nl ++ "--- Files Generated ---" ++ nl ++
      join_lines
        (imap (fun index file =>
                 pretty (N.of_nat index + 1)%N ++ ". " ++ uf_name file ++ nl
                   ++ "   URL: " ++ uf_url file)
              files)
  end.

(** Modelled from the spec: the [AgentError] class of src/utils/errors.ts
    is not among the sources; an orchestration failure is "surfaced to
    caller" as an AgentError carrying the given message. *)
Definition AgentError (message : string) : jsval := mkError "AgentError" message.

(** [error.message?.includes('timeout')] *)
Definition mentions_timeout (error : jsval) : bool :=
  match message_of error with
  | JStr m => includes "timeout" m
  | _ => false
  end.

(** [error.message] of a caught [Error], as a column value. *)
Definition message_text (error : jsval) : option string :=
  match message_of error with
  | JStr m => Some m
  | _ => None
  end.

(** [classification.workflowId && classification.workflowData] *)
Definition matched (c : ClassificationResult) : option (string * Workflow) :=
  match workflowId c, workflowData c with
  | Some id, Some data =>
      if String.eqb id EmptyString then None else Some (id, data)
  | _, _ => None
  end.

(** [{ ...metadata, executionId }] *)
Definition with_executionId (metadata : option (list (string * jsval)))
    (executionId : option string) : jsval :=
  JObj (default [] metadata ++
        [("executionId", match executionId with Some id => JStr id | None => JNull end)]).

(** [if (executionId)] *)
Definition has_id (executionId : option string) : option string :=
  match executionId with
  | Some id => if String.eqb id EmptyString then None else Some id
  | None => None
  end.

(** The variables [executionId] and [workingDirectory] of
    [processWebhook]: declared outside the [try], assigned inside it, read
    by the [catch]. *)
Record Cell : Type := {
  cell_executionId : option string;
  cell_workingDirectory : option string;
}.

(** One statement of the outer [try] block: when it throws, control goes
    to the [catch] with the variables as they are in [cell]. *)
Definition guarded {A R} (cell : Cell) (m : M A)
    (k : A -> M (Cell * outcome R)) : M (Cell * outcome R) :=
  fun w =>
    match m w with
    | (Ret a, w') => k a w'
    | (Throw e, w') => (Ret (cell, Throw e), w')
    end.

Section WithEnv.
Variable env : Env.

(** "Load prompts" *)
Definition load_prompts (req : Request) : M (string * string) :=
  let* systemPrompt :=
    match requestSystemPrompt req with
    | Some p =>
        if String.eqb p EmptyString
        then capability "loadSystemPrompt" EmptyString (loadSystemPrompt env)
        else ret p
    | None => capability "loadSystemPrompt" EmptyString (loadSystemPrompt env)
    end in
  let* userPromptPrefix :=
    capability "loadUserPromptPrefix" EmptyString (loadUserPromptPrefix env) in
  ret (systemPrompt, userPromptPrefix).

(** "Classify workflow (if enabled)" *)
Definition classify_step (req : Request) : M ClassificationResult :=
  if searchWorkflow req then
    try_catch (classifyWorkflow env (prompt req)) (fun error => ret no_match)
  else ret no_match.

(** "Create execution record if skill was matched"; a failure is logged
    and the run goes on without a record. *)
Definition create_step (req : Request) (classification : ClassificationResult)
    : M (option string) :=
  match matched classification with
  | Some (skillId, _) =>
      try_catch
        (let* id :=
           createExecution skillId (requestId req) webhook
             (Some (JObj [("prompt", JStr (prompt req));
                          ("metadata",
                           match metadata req with
                           | Some m => JObj m
                           | None => JUndefined
                           end);
                          ("requestId", JStr (requestId req))])) in
         ret (Some id))
        (fun error => ret None)
  | None => ret None
  end.

(** "Execute agent (or workflow orchestrator)"; any failure becomes an
    [AgentError]. *)
Definition execute_step (req : Request) (classification : ClassificationResult)
    (systemPrompt userPromptPrefix : string) : M AgentResponse :=
  try_catch
    (match matched classification with
     | Some (_, workflow) =>
         capability "executeWorkflowOrchestrator" (wf_id workflow)
           (executeWorkflowOrchestrator env workflow (prompt req) (requestId req)
              systemPrompt)
     | None =>
         capability "executeAgent" (requestId req)
           (executeAgent env (prompt req) (requestId req) systemPrompt
              (if String.eqb userPromptPrefix EmptyString then None
               else Some userPromptPrefix))
     end)
    (fun error =>
       if mentions_timeout error then throw (AgentError "Agent execution timeout")
       else throw (AgentError "Agent execution failed")).

(** "Process files"; non-fatal. *)
Definition files_step (req : Request) (workingDirectory : option string)
    : M (list UploadedFile) :=
  try_catch
    (match workingDirectory with
     | Some dir =>
         let* detectedFiles := capability "detectFiles" dir (detectFiles env dir) in
         match detectedFiles with
         | [] => ret []
         | _ :: _ =>
             capability "uploadAllFiles" (requestId req)
               (uploadAllFiles env detectedFiles (requestId req))
         end
     | None => ret []
     end)
    (fun error => ret []).

(** "Store result in database and update execution": [upsertResult] with
    the execution id in its metadata, then [updateExecution]. *)
Definition store_step (req : Request) (executionId : option string)
    (agentResponse : string) (conversationTrace : list jsval) : M unit :=
  try_catch
    (upsertResult (requestId req) agentResponse
       (with_executionId (metadata req) executionId) ;;
     match has_id executionId with
     | Some id =>
         let* t := now in
         updateExecution id
           {| r_status := Completed;
              r_output := Some agentResponse;
              r_trace := Some (JArr conversationTrace);
              r_error := None;
              r_durationMs := JNum (t - startTime req) 0;
              r_tokenCount := None |}
     | None => ret tt
     end)
    (fun error => ret tt).

(** "Cleanup working directory": started, not awaited. *)
Definition cleanup_step (workingDirectory : option string) : M unit :=
  match workingDirectory with
  | Some dir => emit (EvCapability "cleanupWorkingDirectory" dir)
  | None => ret tt
  end.

(** The outer [try] block of [processWebhook] from the start of
    orchestration on. *)
Definition orchestrate_and_finish (req : Request) (prompts : string * string)
    (classification : ClassificationResult) (executionId : option string)
    : M (Cell * outcome WebhookResponse) :=
  let cell1 := {| cell_executionId := executionId;
                  cell_workingDirectory := None |} in
  guarded cell1 (execute_step req classification (fst prompts) (snd prompts))
    (fun agentResult =>
  let workingDirectory :=
    if String.eqb (ar_workingDirectory agentResult) EmptyString then None
    else Some (ar_workingDirectory agentResult) in
  let cell2 := {| cell_executionId := executionId;
                  cell_workingDirectory := workingDirectory |} in
  guarded cell2 (files_step req workingDirectory) (fun uploadedFiles =>
  let agentResponse := ar_text agentResult ++ formatFilesForResponse uploadedFiles in
  guarded cell2 (store_step req executionId agentResponse (ar_trace agentResult))
    (fun _ =>
  guarded cell2 (cleanup_step workingDirectory) (fun _ =>
  ret (cell2,
       Ret {| response := agentResponse;
              files := uploadedFiles;
              res_requestId := requestId req;
              trace := ar_trace agentResult;
              res_workflowId := fst <$> matched classification;
              res_workflow := snd <$> matched classification |}))))).

(** The outer [try] block of [processWebhook]. *)
Definition webhook_try (req : Request) : M (Cell * outcome WebhookResponse) :=
  let cell0 := {| cell_executionId := None; cell_workingDirectory := None |} in
  guarded cell0 (load_prompts req) (fun prompts =>
  guarded cell0 (classify_step req) (fun classification =>
  guarded cell0 (create_step req classification) (fun executionId =>
  orchestrate_and_finish req prompts classification executionId))).

(** The [catch] of [processWebhook]: mark the execution failed, clean up,
    throw the error again. *)
Definition webhook_catch (req : Request) (cell : Cell) (error : jsval) : M unit :=
  match has_id (cell_executionId cell) with
  | Some id =>
      let* t := now in
      updateExecution id
        {| r_status := Failed;
           r_output := None;
           r_trace := None;
           r_error := message_text error;
           r_durationMs := JNum (t - startTime req) 0;
           r_tokenCount := None |}
  | None => ret tt
  end ;;
  cleanup_step (cell_workingDirectory cell).

(** [processWebhook] *)
Definition processWebhook (req : Request) : M WebhookResponse :=
  let* attempt := webhook_try req in
  match attempt with
  | (_, Ret r) => ret r
  | (cell, Throw error) => webhook_catch req cell error ;; throw error
  end.

(** The point at which orchestration starts: the prompts are loaded, the
    request is classified and the execution record has been attempted.
    [None] when the request fails before that point. *)
Definition before_orchestration (req : Request) (w : World)
    : option ((string * string) * ClassificationResult * option string * World) :=
  match load_prompts req w with
  | (Ret prompts, w1) =>
      match classify_step req w1 with
      | (Ret classification, w2) =>
          match create_step req classification w2 with
          | (Ret executionId, w3) => Some (prompts, classification, executionId, w3)
          | (Throw _, _) => None
          end
      | (Throw _, _) => None
      end
  | (Throw _, _) => None
  end.

End WithEnv.

End Webhook.

(* ===================================================================== *)
(** * Vocabulary of the properties *)
(* ===================================================================== *)

Module Spec.
Import Text Store Database Capabilities Classifier Webhook.

(** The next access to the storage layer fails: the client cannot be
    built, or the coming round trip is scheduled to fail. *)
Definition storage_down (w : World) : bool :=
  match client_error w, faults w with
  | Some _, _ => true
  | None, Some _ :: _ => true
  | None, _ => false
  end.

(** The storage layer works from now on. *)
Definition healthy (w : World) : Prop :=
  client_error w = None /\ faults w = [].

(** A computation that leaves the tables alone. *)
Definition keeps_tables {A} (m : M A) : Prop :=
  forall w, db (snd (m w)) = db w.

(** A computation that leaves tables, storage client and fault schedule
    alone (the outside capabilities do). *)
Definition outside_storage {A} (m : M A) : Prop :=
  forall w, db (snd (m w)) = db w /\ client_error (snd (m w)) = client_error w
            /\ faults (snd (m w)) = faults w.

(** Completed-at is set exactly on the rows with a terminal status. *)
Definition settled (ex : Execution) : Prop :=
  is_terminal (ex_status ex) = true <-> is_Some (ex_completedAt ex).

Definition all_settled (d : DB) : Prop :=
  forall id ex, executions d !! id = Some ex -> settled ex.

(** A computation that keeps every row settled. *)
Definition keeps_settled {A} (m : M A) : Prop :=
  forall w, all_settled (db w) -> all_settled (db (snd (m w))).

(** The log entries written when an execution is brought to a terminal
    status: the update of the row and the bump of its skill. *)
Definition is_completion (ev : Event) : bool :=
  match ev with
  | EvExecutionUpdate _ _ _ | EvSkillRun _ _ => true
  | _ => false
  end.

(** A computation that only adds to the log, and nothing that completes
    an execution. *)
Definition completes_nothing {A} (m : M A) : Prop :=
  forall w, exists l,
    log (snd (m w)) = (l ++ log w)%list /\
    forallb (fun ev => negb (is_completion ev)) l = true.

(** The skill counter as the claim pairs it with a new execution row: in
    the observed state [seen], every execution that is new with respect to
    [before] comes with its skill's run counter one above its value in
    [before]. *)
Definition paired (before seen : DB) : Prop :=
  forall id ex,
    executions before !! id = None ->
    executions seen !! id = Some ex ->
    exists sk0 sk1,
      skills before !! ex_skillId ex = Some sk0 /\
      skills seen !! ex_skillId ex = Some sk1 /\
      sk_runCount sk1 = sk_runCount sk0 + 1.

(** Every state an observer can see during the request is [paired]. *)
Definition atomic_start (env : Env) (req : Request) (w : World) : Prop :=
  forall seen, seen ∈ snapshots (snd (processWebhook env req w)) -> paired (db w) seen.

(** The committed writes of [completed_at] for execution [id] in a log. *)
Definition completedAt_writes (id : string) (l : list Event) : list Z :=
  omap (fun ev =>
          match ev with
          | EvExecutionUpdate id' _ (Some t) =>
              if String.eqb id id' then Some t else None
          | _ => None
          end) l.

(** The statuses written to execution [id], newest first. *)
Definition status_writes (id : string) (l : list Event) : list Status :=
  omap (fun ev =>
          match ev with
          | EvExecutionUpdate id' st _ =>
              if String.eqb id id' then Some st else None
          | _ => None
          end) l.

(** The committed bumps of the run counter of skill [id], each with the
    [last_run_at] it wrote, newest first. *)
Definition skill_runs (id : string) (l : list Event) : list Z :=
  omap (fun ev =>
          match ev with
          | EvSkillRun id' t => if String.eqb id id' then Some t else None
          | _ => None
          end) l.

(** In the words of the specification: the first balanced JSON object of
    a text, that is, the first opening brace whose matching closing brace
    exists, up to that closing brace. *)
Fixpoint balanced_prefix (depth : nat) (s : list ascii) : option (list ascii) :=
  match s with
  | [] => None
  | c :: rest =>
      if Ascii.eqb c lbrace then
        (fun p => c :: p) <$> balanced_prefix (Datatypes.S depth) rest
      else if Ascii.eqb c rbrace then
        match depth with
        | O => None
        | Datatypes.S O => Some [c]
        | Datatypes.S d => (fun p => c :: p) <$> balanced_prefix d rest
        end
      else (fun p => c :: p) <$> balanced_prefix depth rest
  end.

Fixpoint first_balanced_chars (s : list ascii) : option (list ascii) :=
  match s with
  | [] => None
  | c :: rest =>
      if Ascii.eqb c lbrace then
        match balanced_prefix 0 s with
        | Some obj => Some obj
        | None => first_balanced_chars rest
        end
      else first_balanced_chars rest
  end.

Definition first_balanced_object (s : string) : option string :=
  text <$> first_balanced_chars (chars s).

(** The claim about values stored without the marker: the getter returns
    whatever is stored under the key, unchanged. *)
Definition plaintext_tolerated (env : Env) (w : World) : Prop :=
  forall value,
    config (db w) !! Config.api_key_name = Some value ->
    startsWith Config.marker value = false ->
    fst (Config.getAnthropicApiKey env w) = Ret (Some value).

(** The claim about extraction: what the classifier hands to the JSON
    parser is the first balanced object of the response. *)
Definition extracts_first_object (response : string) : Prop :=
  forall obj, first_balanced_object response = Some obj ->
              match_braces response = Some obj.

(** The storage layer works and can take a new execution of [skillId]:
    the skill is there, and the id the database generates next is new
    and not empty. *)
Definition can_create (skillId : string) (w : World) : Prop :=
  healthy w /\ is_Some (skills (db w) !! skillId)
  /\ executions (db w) !! gen_id w (next_id w) = None
  /\ gen_id w (next_id w) <> EmptyString.

(** The claim about the timeout guard: an operation that settles within
    [t] milliseconds determines the result. *)
Definition returns_within {T} (first_wins_tie : bool)
    (queryFn : unit -> Timeout.Started T) (t : Z) : Prop :=
  forall s r,
    Timeout.settles (queryFn tt) = Some (s, r) ->
    Z.of_N s < t ->
    Timeout.returned (Timeout.withTimeout first_wins_tie queryFn (Some t)) = Some (s, r).

(** The claim about a name that resolves to no entry of the catalog: the
    result is {none} and carries a reasoning note. *)
Definition none_with_note (c : ClassificationResult) : Prop :=
  workflowId c = None /\ workflowData c = None /\ confidence c = JStr "none"
  /\ exists note, reasoning c = JStr note.

End Spec.

(* ===================================================================== *)
(** * A concrete scenario, to run the model on *)
(* ===================================================================== *)

Module Demo.
Import Text Store Database Capabilities Classifier Webhook.

(** A stand-in for aes-256-gcm that satisfies [cipher_correct]: the
    ciphertext is the reversed plaintext and the tag is the key. *)
Definition toy_cipher : Cipher :=
  {| sha256 := fun secret => "sha256(" ++ secret ++ ")";
     gcm_encrypt := fun key iv plaintext => (text (rev (chars plaintext)), key);
     gcm_decrypt := fun key iv tag ciphertext =>
       if String.eqb tag key then Some (text (rev (chars ciphertext))) else None |}.

(** The capability response of the specification's classifier example. *)
Definition daily_report_reply : string :=
  "I think... {" ++ q ++ "match" ++ q ++ ":true," ++ q ++ "workflowName" ++ q ++ ":"
    ++ q ++ "Daily Report" ++ q ++ "," ++ q ++ "confidence" ++ q ++ ":"
    ++ q ++ "high" ++ q ++ "}".

Definition agent_reply : AgentResponse :=
  {| ar_text := "report ready";
     ar_workingDirectory := "/tmp/req-1-1000";
     ar_trace := [JObj [("type", JStr "result"); ("result", JStr "report ready")]] |}.

(** A reply with prose after the JSON object, the prose using braces. *)
Definition chatty_reply : string :=
  daily_report_reply ++ " I chose it because {it fits}.".

Definition crash : Fault :=
  {| fault_name := "Error"; fault_message := "step 2 crashed"; fault_code := None |}.

Definition overloaded : Fault :=
  {| fault_name := "APIError"; fault_message := "529 overloaded"; fault_code := None |}.

(** The environment of the scenario, by the answer of the classifier
    capability and the answer of the orchestrator. *)
Definition make_env (replied : Fault + list ContentBlock)
    (orchestrated : Fault + AgentResponse) : Env :=
  {| cipher := toy_cipher;
     VM_ENCRYPTION_SECRET := Some "vm-secret";
     ANTHROPIC_API_KEY := Some "sk-ant-from-environment";
     toLowerCase := ascii_lower;
     JSON_parse := Json.parse;
     messages_create := fun _ => replied;
     loadSystemPrompt := inr "You are a helpful agent.";
     loadUserPromptPrefix := inr EmptyString;
     executeWorkflowOrchestrator := fun _ _ _ _ => orchestrated;
     executeAgent := fun _ _ _ _ => inr agent_reply;
     detectFiles := fun _ => inr [];
     uploadAllFiles := fun _ _ => inr [] |}.

Definition env : Env := make_env (inr [TextBlock daily_report_reply]) (inr agent_reply).

(** The same environment with a failing orchestrator. *)
Definition env_failing : Env := make_env (inr [TextBlock daily_report_reply]) (inl crash).

(** The same environment with the chatty classifier reply. *)
Definition env_chatty : Env := make_env (inr [TextBlock chatty_reply]) (inr agent_reply).

(** The same environment with the classifier capability failing. *)
Definition env_mute : Env := make_env (inl overloaded) (inr agent_reply).

(** A reply that claims a match and gives a number for the name. *)
Definition numeric_reply : string :=
  "{" ++ q ++ "match" ++ q ++ ":true," ++ q ++ "workflowName" ++ q ++ ":5,"
    ++ q ++ "confidence" ++ q ++ ":" ++ q ++ "high" ++ q ++ "}".

Definition env_numeric : Env := make_env (inr [TextBlock numeric_reply]) (inr agent_reply).

Definition daily_report : Skill :=
  {| sk_id := "skill-1"; sk_name := "daily report";
     sk_description := Some "Compile the daily report";
     sk_steps := JArr [JObj [("id", JNum 1 0)]];
     sk_isActive := true; sk_runCount := 5; sk_lastRunAt := None;
     sk_createdAt := 10 |}.

Definition tables : DB :=
  {| executions := ∅; skills := {[ "skill-1" := daily_report ]}; config := ∅ |}.

Definition world : World :=
  {| db := tables; clock := 1000; client_error := None; faults := [];
     next_id := 0; gen_id := fun n => "exec-" ++ pretty n;
     collate := String.leb; log := []; snapshots := [tables] |}.

Definition request : Request :=
  {| prompt := "Please run the daily report"; requestId := "req-1";
     requestSystemPrompt := None; searchWorkflow := true;
     metadata := None; startTime := 1000 |}.

(** Where the request stands when orchestration starts. *)
Definition started
    : option ((string * string) * ClassificationResult * option string * World) :=
  before_orchestration env request world.

Definition prompts : string * string := ("You are a helpful agent.", EmptyString).

Definition workflow : Workflow :=
  {| wf_id := "skill-1"; wf_name := "daily report";
     wf_description := "Compile the daily report";
     wf_steps := JArr [JObj [("id", JNum 1 0)]];
     wf_created_at := 10 |}.

Definition classification : ClassificationResult :=
  {| workflowId := Some "skill-1"; workflowData := Some workflow;
     confidence := JStr "high"; reasoning := JUndefined |}.

Definition world_started : World :=
  match started with
  | Some (_, _, _, w) => w
  | None => world
  end.

Definition daily_report_summary : WorkflowSummary :=
  {| ws_id := "skill-1"; ws_name := "daily report";
     ws_description := "Compile the daily report" |}.

(** A catalog whose only skill has another name. *)
Definition weekly_digest : Skill :=
  {| sk_id := "skill-2"; sk_name := "Weekly Digest";
     sk_description := None; sk_steps := JArr [];
     sk_isActive := true; sk_runCount := 0; sk_lastRunAt := None;
     sk_createdAt := 20 |}.

Definition world_other : World :=
  {| db := {| executions := ∅; skills := {[ "skill-2" := weekly_digest ]}; config := ∅ |};
     clock := 1000; client_error := None; faults := [];
     next_id := 0; gen_id := fun n => "exec-" ++ pretty n;
     collate := String.leb; log := []; snapshots := [] |}.

(** A catalog without skills. *)
Definition world_empty : World :=
  {| db := {| executions := ∅; skills := ∅; config := ∅ |};
     clock := 1000; client_error := None; faults := [];
     next_id := 0; gen_id := fun n => "exec-" ++ pretty n;
     collate := String.leb; log := []; snapshots := [] |}.

(** A [config] table from before values were encrypted, holding a key. *)
Definition world_legacy : World :=
  {| db := {| executions := ∅; skills := ∅;
              config := {[ "anthropic_api_key" := "plainvalue" ]} |};
     clock := 1000; client_error := None; faults := [];
     next_id := 0; gen_id := fun n => "exec-" ++ pretty n;
     collate := String.leb; log := []; snapshots := [] |}.

(** The same table with an empty value under the key. *)
Definition world_blank : World :=
  {| db := {| executions := ∅; skills := ∅;
              config := {[ "anthropic_api_key" := EmptyString ]} |};
     clock := 1000; client_error := None; faults := [];
     next_id := 0; gen_id := fun n => "exec-" ++ pretty n;
     collate := String.leb; log := []; snapshots := [] |}.

(** The world with the storage server unreachable for the next round trip. *)
Definition world_outage : World :=
  {| db := tables; clock := 1000; client_error := None;
     faults := [Some {| fault_name := "PrismaClientKnownRequestError";
                        fault_message := "Can't reach database server";
                        fault_code := Some "P1001" |}];
     next_id := 0; gen_id := fun n => "exec-" ++ pretty n;
     collate := String.leb; log := []; snapshots := [tables] |}.

End Demo.

(* ===================================================================== *)
(** * src/config/index.ts: the settings read from the environment *)
(* ===================================================================== *)

Module Settings.
Import Text.

Definition comma : ascii := ascii_of_N 44.

(** White space as [trim] and [parseInt] skip it (WhiteSpace and
    LineTerminator of the language), on the UTF-8 text of a string: the
    one-byte code points U+0009 to U+000D and U+0020, the two-byte U+00A0,
    and the three-byte U+1680, U+2000 to U+200A, U+2028, U+2029, U+202F,
    U+205F, U+3000 and U+FEFF. *)
Definition space1 (a : ascii) : bool :=
  ((9 <=? code a) && (code a <=? 13) || (code a =? 32))%N.

Definition space2 (a b : ascii) : bool :=
  ((code a =? 194) && (code b =? 160))%N.

Definition space3 (a b c : ascii) : bool :=
  ((code a =? 225) && (code b =? 154) && (code c =? 128)
   || (code a =? 226) && (code b =? 128)
      && ((128 <=? code c) && (code c <=? 138)
          || (code c =? 168) || (code c =? 169) || (code c =? 175))
   || (code a =? 226) && (code b =? 129) && (code c =? 159)
   || (code a =? 227) && (code b =? 128) && (code c =? 128)
   || (code a =? 239) && (code b =? 187) && (code c =? 191))%N.

(** Drop the white space at the front of [s]; [p1], [p2] and [p3]
    recognise a white-space code point of one, two and three bytes. *)
Fixpoint drop_space (p1 : ascii -> bool) (p2 : ascii -> ascii -> bool)
    (p3 : ascii -> ascii -> ascii -> bool) (s : list ascii) : list ascii :=
  match s with
  | [] => []
  | a :: r1 =>
      if p1 a then drop_space p1 p2 p3 r1
      else
        match r1 with
        | [] => s
        | b :: r2 =>
            if p2 a b then drop_space p1 p2 p3 r2
            else
              match r2 with
              | [] => s
              | c :: r3 => if p3 a b c then drop_space p1 p2 p3 r3 else s
              end
        end
  end.

Definition trimStart (s : list ascii) : list ascii :=
  drop_space space1 space2 space3 s.

(** The same from the end: the text reversed, with the bytes of a code
    point read back to front. *)
Definition trimEnd (s : list ascii) : list ascii :=
  rev (drop_space space1 (fun b a => space2 a b) (fun c b a => space3 a b c) (rev s)).

(** [s.trim()] *)
Definition trim (s : string) : string := text (trimEnd (trimStart (chars s))).

(** [parseInt(s, 10)]: white space, an optional sign, then the longest
    run of decimal digits; [None] is NaN (no digit).  The value is kept
    exact; a number of the runtime agrees with it up to 2^53. *)
Definition parseInt (s : string) : option Z :=
  let s1 := trimStart (chars s) in
  let '(negative, s2) :=
    match s1 with
    | c :: rest =>
        if (code c =? 45)%N then (true, rest)
        else if (code c =? 43)%N then (false, rest)
        else (false, s1)
    | [] => (false, s1)
    end in
  let '(value, count, _) := Json.digits s2 0 0 in
  if count =? 0 then None else Some (if negative then - value else value).

(** [parseIntEnv]; an unset variable is [None]. *)
Definition parseIntEnv (envVar : option string) (defaultValue : Z) : Z :=
  match envVar with
  | None => defaultValue
  | Some s =>
      if String.eqb s EmptyString then defaultValue
      else
        match parseInt s with
        | None => defaultValue
        | Some parsed => parsed
        end
  end.

(** [parseStringArrayEnv] *)
Definition parseStringArrayEnv (envVar : option string) : list string :=
  match envVar with
  | None => []
  | Some s =>
      if String.eqb s EmptyString then []
      else
        filter (fun piece => negb (String.eqb piece EmptyString) = true)
          (map trim (split comma s))
  end.

(** [process.env.X || fallback] *)
Definition or_string (envVar : option string) (fallback : string) : string :=
  match envVar with
  | Some s => if String.eqb s EmptyString then fallback else s
  | None => fallback
  end.

(** [!value] for a variable of the environment. *)
Definition unset (envVar : option string) : bool :=
  match envVar with
  | Some s => String.eqb s EmptyString
  | None => true
  end.

Record ServerConfig : Type := {
  port : Z;
  nodeEnv : string;
  corsOrigin : string;
}.

Record RequestConfig : Type := {
  request_timeoutMs : Z;
  bodyLimit : string;
}.

Record AgentConfig : Type := {
  apiKey : option string;
  model : string;
  agent_timeoutMs : Z;
  disallowedTools : list string;
}.

Record WorkflowConfig : Type := {
  agentModel : string;
  classifierModel : string;
}.

Record SupabaseConfig : Type := {
  url : option string;
  serviceKey : option string;
  storageBucket : string;
}.

Record FilesConfig : Type := {
  maxSizeMb : Z;
  maxSizeBytes : Z;
}.

Record SecurityConfig : Type := {
  rateLimitMax : Z;
  rateLimitWindowMs : Z;
  requestIdPattern : string;
  requestIdMaxLength : Z;
}.

Record McpConfig : Type := {
  connections : jsval;
}.

(** The [config] object. *)
Record AppConfig : Type := {
  server : ServerConfig;
  request : RequestConfig;
  agent : AgentConfig;
  workflow : WorkflowConfig;
  supabase : SupabaseConfig;
  files : FilesConfig;
  security : SecurityConfig;
  mcp : McpConfig;
}.

(** [ValidationResult] *)
Record ValidationResult : Type := {
  valid : bool;
  errors : list string;
  warnings : list string;
}.

(** [Object.keys(v).length === 0]; [Object.keys] throws on [null] and
    [undefined]. *)
Definition no_keys (v : jsval) : outcome bool :=
  match v with
  | JUndefined | JNull =>
      Throw (mkError "TypeError" "Cannot convert undefined or null to object")
  | JObj fields => Ret (match fields with [] => true | _ => false end)
  | JArr items => Ret (match items with [] => true | _ => false end)
  | JStr s => Ret (String.eqb s EmptyString)
  | JBool _ | JNum _ _ => Ret true
  end.

Section Runtime.

(** [JSON.parse] and the conversion of a number to text in a template
    literal. *)
Variable JSON_parse : string -> option jsval.
Variable numberToString : Z -> string.

(** [parseJsonEnv] *)
Definition parseJsonEnv (envVar : option string) (defaultValue : jsval) : jsval :=
  match envVar with
  | None => defaultValue
  | Some s =>
      if String.eqb s EmptyString then defaultValue
      else
        match JSON_parse s with
        | Some v => v
        | None => defaultValue
        end
  end.

(** The [config] object, from [process.env]. *)
Definition config (env : gmap string string) : AppConfig :=
  {| server :=
       {| port := parseIntEnv (env !! "PORT") 3001;
          nodeEnv := or_string (env !! "NODE_ENV") "development";
          corsOrigin := or_string (env !! "CORS_ORIGIN") "*" |};
     request :=
       {| request_timeoutMs := parseIntEnv (env !! "REQUEST_TIMEOUT_MS") 360000;
          bodyLimit := "10mb" |};
     agent :=
       {| apiKey := env !! "ANTHROPIC_API_KEY";
          model := or_string (env !! "AGENT_MODEL") "claude-sonnet-4-20250514";
          agent_timeoutMs := parseIntEnv (env !! "AGENT_TIMEOUT_MS") 300000;
          disallowedTools := parseStringArrayEnv (env !! "DISALLOWED_TOOLS") |};
     workflow :=
       {| agentModel :=
            or_string (env !! "WORKFLOW_AGENT_MODEL") "claude-haiku-4-5-20251001";
          classifierModel :=
            or_string (env !! "CLASSIFIER_MODEL") "claude-haiku-4-5-20251001" |};
     supabase :=
       {| url := env !! "SUPABASE_URL";
          serviceKey := env !! "SUPABASE_SERVICE_KEY";
          storageBucket := or_string (env !! "SUPABASE_STORAGE_BUCKET") "agent-files" |};
     files :=
       {| maxSizeMb := parseIntEnv (env !! "MAX_FILE_SIZE_MB") 50;
          maxSizeBytes := parseIntEnv (env !! "MAX_FILE_SIZE_MB") 50 * 1024 * 1024 |};
     security :=
       {| rateLimitMax := parseIntEnv (env !! "RATE_LIMIT_MAX") 60;
          rateLimitWindowMs := parseIntEnv (env !! "RATE_LIMIT_WINDOW_MS") 60000;
          requestIdPattern := "^[a-zA-Z0-9_-]+$";
          requestIdMaxLength := 100 |};
     mcp :=
       {| connections := parseJsonEnv (env !! "MCP_CONNECTIONS") (JObj []) |} |}.

(** [validateConfig], on the [config] object it reads. *)
Definition validateConfig (config : AppConfig) : outcome ValidationResult :=
  match no_keys (connections (mcp config)) with
  | Throw e => Throw e
  | Ret no_tools =>
      let errors :=
        ((if (port (server config) <? 1) || (65535 <? port (server config))
         then ["PORT must be between 1 and 65535 (got "
                 +:+ numberToString (port (server config)) +:+ ")"]
         else [])
        ++ (if rateLimitMax (security config) <? 1
            then ["RATE_LIMIT_MAX must be at least 1 (got "
                    +:+ numberToString (rateLimitMax (security config)) +:+ ")"]
            else []))%list in
      let warnings :=
        ((if unset (apiKey (agent config))
         then ["ANTHROPIC_API_KEY env var is not set - will be loaded from database at runtime"]
         else [])
        ++ (if unset (url (supabase config))
            then ["SUPABASE_URL is not set - database operations will be disabled"]
            else [])
        ++ (if unset (serviceKey (supabase config))
            then ["SUPABASE_SERVICE_KEY is not set - database operations will be disabled"]
            else [])
        ++ (if no_tools
            then ["MCP_CONNECTIONS is not set - agent will have no tools available"]
            else [])
        ++ (if request_timeoutMs (request config) <? 1000
            then ["REQUEST_TIMEOUT_MS is very low ("
                    +:+ numberToString (request_timeoutMs (request config))
                    +:+ "ms) - requests may timeout too quickly"]
            else [])
        ++ (if agent_timeoutMs (agent config) <? 1000
            then ["AGENT_TIMEOUT_MS is very low ("
                    +:+ numberToString (agent_timeoutMs (agent config))
                    +:+ "ms) - agent execution may timeout too quickly"]
            else [])
        ++ (if 100 <? maxSizeMb (files config)
            then ["MAX_FILE_SIZE_MB is very high ("
                    +:+ numberToString (maxSizeMb (files config))
                    +:+ "MB) - may cause memory issues"]
            else [])
        ++ (if rateLimitWindowMs (security config) <? 1000
            then ["RATE_LIMIT_WINDOW_MS is very low ("
                    +:+ numberToString (rateLimitWindowMs (security config)) +:+ "ms)"]
            else []))%list in
      Ret {| valid := match errors with [] => true | _ => false end;
             errors := errors;
             warnings := warnings |}
  end.

End Runtime.

End Settings.

(* ===================================================================== *)
(** * Health checks: src/db/client.ts, src/db/utils.ts, src/index.ts *)
(* ===================================================================== *)

Module Health.
Import Store Database.

(** [client.$queryRaw`SELECT 1`] *)
Definition queryRaw_select_1 : M unit := round_trip.

(** [client.config.findFirst({ take: 1 })] *)
Definition config_findFirst : M (option (string * string)) :=
  round_trip ;;
  let* d := read_db in
  ret (head (map_to_list (config d))).

(** [client.skill.findFirst({ take: 1 })] *)
Definition skill_findFirst : M (option Skill) :=
  round_trip ;;
  let* d := read_db in
  ret (snd <$> head (map_to_list (skills d))).

(** [healthCheck] of src/db/client.ts *)
Definition healthCheck : M bool :=
  try_catch
    (getPrismaClient ;;
     atomically queryRaw_select_1 ;;
     ret true)
    (fun error => ret false).

(** [checkDatabaseHealth] of src/database.ts *)
Definition checkDatabaseHealth : M bool := healthCheck.

(** The result of [detailedHealthCheck]; the three entries of [checks]
    are always set. *)
Record DetailedHealth : Type := {
  dh_healthy : bool;
  dh_connectivity : bool;
  dh_readAccess : bool;
  dh_skillsAccess : bool;
  dh_latencyMs : option Z;
}.

(** [detailedHealthCheck] of src/db/utils.ts: the client is taken outside
    the [try] blocks, the three checks each have their own. *)
Definition detailedHealthCheck : M DetailedHealth :=
  getPrismaClient ;;
  let* latencyMs :=
    try_catch
      (let* start := now in
       atomically queryRaw_select_1 ;;
       let* finish := now in
       ret (Some (finish - start)))
      (fun error => ret None) in
  let* readAccess :=
    try_catch (atomically config_findFirst ;; ret true) (fun error => ret false) in
  let* skillsAccess :=
    try_catch (atomically skill_findFirst ;; ret true) (fun error => ret false) in
  let connectivity := match latencyMs with Some _ => true | None => false end in
  ret {| dh_healthy := forallb (fun check => Bool.eqb check true)
                         [connectivity; readAccess; skillsAccess];
         dh_connectivity := connectivity;
         dh_readAccess := readAccess;
         dh_skillsAccess := skillsAccess;
         dh_latencyMs := latencyMs |}.

(** What [metrics.getHealth()] of src/utils/monitoring.ts returns, as the
    route reads it. *)
Record MetricsHealth : Type := {
  mh_status : string;
  mh_uptime : Z;
  mh_timestamp : string;
  mh_metrics : jsval;
}.

(** The answer of [GET /health]. *)
Record HealthReply : Type := {
  hr_statusCode : Z;
  hr_status : string;
  hr_uptime : string;
  hr_timestamp : string;
  hr_database : string;
  hr_metrics : jsval;
}.

(** The handler of [GET /health] in src/index.ts; [health] is what
    [metrics.getHealth()] returned. *)
Definition health_route (getUptimeString : Z -> string) (health : MetricsHealth)
    : M HealthReply :=
  let* dbHealthy := checkDatabaseHealth in
  let overallHealthy := dbHealthy && negb (String.eqb (mh_status health) "unhealthy") in
  ret {| hr_statusCode := if dbHealthy then 200 else 503;
         hr_status := if overallHealthy then "healthy" else "unhealthy";
         hr_uptime := getUptimeString (mh_uptime health);
         hr_timestamp := mh_timestamp health;
         hr_database := if dbHealthy then "connected" else "disconnected";
         hr_metrics := mh_metrics health |}.

End Health.

(* ===================================================================== *)
(** * src/database.ts: reading executions back *)
(* ===================================================================== *)

Module Queries.
Import Store Database.

(** The order of [orderBy: { startedAt: 'desc' }]. *)
Definition newest_first (a b : Execution) : Prop :=
  Is_true (ex_startedAt b <=? ex_startedAt a).

Global Instance newest_first_dec : RelDecision newest_first.
Proof. intros a b. unfold newest_first. apply _. Defined.

(** [prisma.execution.findMany({ where, orderBy: { startedAt: 'desc' },
      take })], for a non-negative [take]. *)
Definition execution_findMany (where_ : Execution -> bool) (take_ : N)
    : M (list Execution) :=
  round_trip ;;
  let* d := read_db in
  let rows := filter (fun e => where_ e = true) (map snd (map_to_list (executions d))) in
  ret (take (N.to_nat take_) (merge_sort newest_first rows)).

(** The filter [input: { path: ['requestId'], equals: requestId }]. *)
Definition input_requestId_is (requestId : string) (e : Execution) : bool :=
  match prop (ex_input e) "requestId" with
  | JStr s => String.eqb s requestId
  | _ => false
  end.

(** [value || undefined] for a nullable text column. *)
Definition text_or_undefined (v : option string) : option string :=
  match v with
  | Some s => if String.eqb s EmptyString then None else Some s
  | None => None
  end.

(** [value || undefined] for a nullable integer column. *)
Definition int_or_undefined (v : option Z) : option Z :=
  match v with
  | Some n => if n =? 0 then None else Some n
  | None => None
  end.

(** The [metadata] of the object [getResult] returns. *)
Record ResultMetadata : Type := {
  rm_executionId : string;
  rm_skillId : string;
  rm_status : Status;
  rm_durationMs : option Z;
}.

(** The object [getResult] returns; [files] is always empty. *)
Record StoredResult : Type := {
  sr_text : string;
  sr_requestId : string;
  sr_files : list jsval;
  sr_metadata : ResultMetadata;
}.

(** [getResult] *)
Definition getResult (requestId : string) : M (option StoredResult) :=
  try_catch
    (getPrismaClient ;;
     let* executions :=
       atomically (execution_findMany (input_requestId_is requestId) 1) in
     match executions with
     | [] => ret None
     | execution :: _ =>
         ret (Some {| sr_text := default EmptyString (ex_output execution);
                      sr_requestId := requestId;
                      sr_files := [];
                      sr_metadata :=
                        {| rm_executionId := ex_id execution;
                           rm_skillId := ex_skillId execution;
                           rm_status := ex_status execution;
                           rm_durationMs := ex_durationMs execution |} |})
     end)
    (fun error => ret None).

(** [ExecutionRecord], as [getExecutionById] and [getExecutionsForSkill]
    fill it; [None] is [undefined]. *)
Record ExecutionRecord : Type := {
  er_skillId : string;
  er_requestId : jsval;
  er_status : Status;
  er_trigger : string;
  er_input : jsval;
  er_output : option string;
  er_trace : jsval;
  er_error : option string;
  er_durationMs : option Z;
  er_tokenCount : option Z;
}.

(** The mapping of a row to an [ExecutionRecord], the same in both
    functions. *)
Definition to_record (e : Execution) : ExecutionRecord :=
  {| er_skillId := ex_skillId e;
     er_requestId := or_else (prop (ex_input e) "requestId") (JStr (ex_id e));
     er_status := ex_status e;
     er_trigger := ex_trigger e;
     er_input := ex_input e;
     er_output := text_or_undefined (ex_output e);
     er_trace := default JNull (ex_trace e);
     er_error := text_or_undefined (ex_error e);
     er_durationMs := int_or_undefined (ex_durationMs e);
     er_tokenCount := int_or_undefined (ex_tokenCount e) |}.

(** [getExecutionById] *)
Definition getExecutionById (id : string) : M (option ExecutionRecord) :=
  try_catch
    (getPrismaClient ;;
     let* execution := atomically (execution_findUnique id) in
     match execution with
     | None => ret None
     | Some e => ret (Some (to_record e))
     end)
    (fun error => ret None).

(** [getExecutionsForSkill]; [limit] defaults to 10. *)
Definition getExecutionsForSkill (skillId : string) (limit : option N)
    : M (list ExecutionRecord) :=
  try_catch
    (getPrismaClient ;;
     let* executions :=
       atomically
         (execution_findMany (fun e => String.eqb (ex_skillId e) skillId)
            (default 10%N limit)) in
     ret (map to_record executions))
    (fun error => ret []).

End Queries.

(* ===================================================================== *)
(** * src/agent.ts: the one-off agent *)
(* ===================================================================== *)

Module Agent.
Import Text Store Database Capabilities Classifier.

(** What iterating the query of the agent SDK does: the messages it
    yields, the error it ends with (if any), and the millisecond, counted
    from the start, at which the iteration ends ([None]: it never does). *)
Record Stream : Type := {
  st_messages : list jsval;
  st_failure : option Fault;
  st_ends : option N;
}.

(** The options [executeAgent] passes to [query]. *)
Record QueryOptions : Type := {
  q_prompt : string;
  q_model : string;
  q_systemPrompt : string;
  q_cwd : string;
  q_permissionMode : string;
  q_disallowedTools : option (list string);
}.

(** The setting of one-off runs ([config.agent]) and what [executeAgent]
    calls outside this repository's sources: [fs.mkdir], [query] of the
    agent SDK, and [getDefaultSystemPrompt] and [extractResponseText] of
    src/shared/agent-utils.ts. *)
Record AgentEnv : Type := {
  agent_model : string;
  agent_timeoutMs : Z;
  agent_disallowedTools : list string;
  mkdir : string -> Fault + unit;
  query : QueryOptions -> Stream;
  getDefaultSystemPrompt : string;
  extractResponseText : jsval -> Fault + string;
}.

(** [ExecuteAgentOptions]; the MCP connections are passed through to the
    SDK and not inspected. *)
Record ExecuteAgentOptions : Type := {
  o_prompt : string;
  o_requestId : string;
  o_systemPrompt : option string;
  o_userPromptPrefix : option string;
}.

(** [message.type === 'result'] *)
Definition is_result (message : jsval) : bool :=
  match prop message "type" with
  | JStr t => String.eqb t "result"
  | _ => false
  end.

(** [finalResult] after the loop: the last message of type [result], or
    [null]. *)
Definition finalResult (messages : list jsval) : jsval :=
  fold_left (fun final message => if is_result message then message else final)
    messages JNull.

Definition timeout_error : jsval := mkError "Error" "Agent execution timeout".

Definition no_key_error : jsval :=
  mkError "Error"
    "Anthropic API key not configured. Please set up your API key in the configuration.".

Section WithEnv.
Variable env : Env.
Variable agent : AgentEnv.

(** When the timer and the iteration end within the same millisecond the
    event loop decides; [stream_wins_tie] is its choice. *)
Variable stream_wins_tie : bool.

(** The [Promise.race] of the iteration against the timer. *)
Definition raced (stream : Stream) : outcome jsval :=
  let executionPromise : Timeout.promise jsval :=
    match st_ends stream with
    | Some t =>
        Some (t, match st_failure stream with
                 | Some f => Throw (fault_val f)
                 | None => Ret (finalResult (st_messages stream))
                 end)
    | None => None
    end in
  match Timeout.race stream_wins_tie executionPromise
          (Timeout.rejectAfter (agent_timeoutMs agent) timeout_error) with
  | Some (_, settled) => settled
  | None => Throw timeout_error
  end.

(** The body of the [try] block of [executeAgent].  The assignment to
    [process.env.ANTHROPIC_API_KEY] is entered in the log. *)
Definition agent_body (options : ExecuteAgentOptions) (workingDirectory : string)
    : M AgentResponse :=
  let* apiKey := Config.getAnthropicApiKey env in
  match apiKey with
  | None => throw no_key_error
  | Some key =>
      if String.eqb key EmptyString then throw no_key_error
      else
        emit (EvCapability "process.env.ANTHROPIC_API_KEY" key) ;;
        capability "fs.mkdir" workingDirectory (mkdir agent workingDirectory) ;;
        let finalSystemPrompt :=
          Settings.or_string (o_systemPrompt options) (getDefaultSystemPrompt agent) in
        let finalUserPrompt :=
          match o_userPromptPrefix options with
          | Some prefix =>
              if String.eqb prefix EmptyString then o_prompt options
              else prefix ++ nl ++ nl ++ o_prompt options
          | None => o_prompt options
          end in
        let stream :=
          query agent
            {| q_prompt := finalUserPrompt;
               q_model := agent_model agent;
               q_systemPrompt := finalSystemPrompt;
               q_cwd := workingDirectory;
               q_permissionMode := "bypassPermissions";
               q_disallowedTools :=
                 match agent_disallowedTools agent with
                 | [] => None
                 | tools => Some tools
                 end |} in
        let* result := capability "query" finalUserPrompt
                         (inr stream : Fault + Stream) ;; lift (raced stream) in
        let* responseText :=
          capability "extractResponseText" EmptyString
            (extractResponseText agent result) in
        ret {| ar_text := responseText;
               ar_workingDirectory := workingDirectory;
               ar_trace := st_messages stream |}
  end.

(** [executeAgent]: whatever fails inside is thrown again as a new
    [Error] whose message starts with "Agent execution failed".  A thrown
    value that is not an [Error] is one without a message. *)
Definition executeAgent (options : ExecuteAgentOptions) : M AgentResponse :=
  let* timestamp := now in
  let workingDirectory :=
    "/tmp/" ++ o_requestId options ++ "-" ++ pretty timestamp in
  try_catch (agent_body options workingDirectory)
    (fun error =>
       match message_of error with
       | JStr message => throw (mkError "Error" ("Agent execution failed: " ++ message))
       | _ => throw (mkError "Error" "Agent execution failed")
       end).

End WithEnv.

End Agent.

(* ===================================================================== *)
(** * src/webhook.ts: the request handler *)
(* ===================================================================== *)

Module Handler.
Import Text Store Database Capabilities Classifier Webhook.

(** [validation.data]: the body as the schema of src/validation.ts
    accepted it. *)
Record Body : Type := {
  b_prompt : string;
  b_requestId : option string;
  b_systemPrompt : option string;
  b_async : bool;
  b_searchWorkflow : bool;
  b_metadata : option (list (string * jsval));
}.

(** What the handler sends: [res.status(202).json({ status: 'processing',
    requestId })] or [res.json(response)]. *)
Inductive Sent : Type :=
| Accepted (requestId : string)
| Answered (response : WebhookResponse).

Section WithEnv.
Variable env : Env.

(** [new ValidationError(message, cause)] of src/utils/errors.ts. *)
Variable ValidationError : string -> jsval.

(** [processWebhookAsync] *)
Definition processWebhookAsync (req : Request) : M unit :=
  try_catch (processWebhook env req ;; ret tt) (fun error => throw error).

(** [webhookHandler]; [validation] is the result of
    [webhookRequestSchema.safeParse(req.body)], [None] when it did not
    succeed.  In asynchronous mode the answer is sent first and the
    pipeline runs detached with its failure caught; the world returned is
    the one the detached run leaves. *)
Definition webhookHandler (validation : option Body) : M Sent :=
  let* started := now in
  try_catch
    (match validation with
     | None => throw (ValidationError "Invalid request body")
     | Some data =>
         let* t := now in
         let id :=
           Settings.or_string (b_requestId data) ("req-" ++ pretty t) in
         let req := {| prompt := b_prompt data;
                       requestId := id;
                       requestSystemPrompt := b_systemPrompt data;
                       searchWorkflow := b_searchWorkflow data;
                       metadata := b_metadata data;
                       startTime := started |} in
         if b_async data then
           try_catch (processWebhookAsync req) (fun error => ret tt) ;;
           ret (Accepted id)
         else
           let* response := processWebhook env req in
           ret (Answered response)
     end)
    (fun error => throw error).

End WithEnv.

End Handler.

(* ===================================================================== *)
(** * Further vocabulary of the properties *)
(* ===================================================================== *)

Module Props.
Import Text Store Database Capabilities.

(** A computation that leaves the tables alone and adds to the log only
    calls of the capabilities that [allowed] names. *)
Definition calls_only (allowed : string -> bool) {A} (m : M A) : Prop :=
  forall w,
    db (snd (m w)) = db w /\
    exists l,
      log (snd (m w)) = (l ++ log w)%list /\
      Forall (fun ev => match ev with
                        | EvCapability name _ => allowed name = true
                        | _ => False
                        end) l.

(** The capabilities of a one-off run. *)
Definition one_off_capability (name : string) : bool :=
  bool_decide (name ∈ ["loadSystemPrompt"; "loadUserPromptPrefix"; "executeAgent";
                       "detectFiles"; "uploadAllFiles"; "cleanupWorkingDirectory"]).

End Props.

(* ===================================================================== *)
(** * Properties *)
(* ===================================================================== *)

(** ** Retry policy *)

Section RetryFacts.
Context {S T : Type}.
Variable operation : S -> outcome T * S.

Lemma retry_loop_total fuel cfg attempt delay lastError calls slept st :
  (Z.to_nat (Retry.maxAttempts cfg - attempt + 1) < fuel)%nat ->
  is_Some (Retry.retry_loop operation fuel cfg attempt delay lastError calls slept st).
Proof.
  revert attempt delay lastError calls slept st.
  induction fuel as [|fuel IH]; intros attempt delay lastError calls slept st Hfuel.
  - lia.
  - simpl. destruct (attempt <=? Retry.maxAttempts cfg) eqn:Hle; [|eauto].
    apply Z.leb_le in Hle.
    destruct (operation st) as [[v|error] st']; [eauto|].
    destruct (negb (Retry.shouldRetry error) || (attempt =? Retry.maxAttempts cfg));
      [eauto|].
    apply IH. lia.
Qed.

(** [withRetry] always settles: the iteration bound of the model is never hit. *)
Lemma withRetry_total config st :
  is_Some (Retry.withRetry operation config st).
Proof. unfold Retry.withRetry. apply retry_loop_total. lia. Qed.

(** What a run of the loop looks like: either the loop is not entered,
    or every invocation but the last threw a retryable error and the run
    ends as the last invocation did. *)
Lemma retry_loop_trace fuel : forall cfg attempt delay lastError calls slept st r,
  Retry.retry_loop operation fuel cfg attempt delay lastError calls slept st = Some r ->
  (Retry.invocations r = calls /\ Retry.result r = Throw lastError /\ Retry.final r = st)
  \/ exists k e st',
       Retry.invocations r = (calls + k + 1)%nat /\
       Retry.transient_failures operation k st lastError = Some (e, st') /\
       operation st' = (Retry.result r, Retry.final r).
Proof.
  induction fuel as [|fuel IH]; intros cfg attempt delay lastError calls slept st r;
    [discriminate|].
  cbn [Retry.retry_loop].
  destruct (attempt <=? Retry.maxAttempts cfg); [|intros [= <-]; by left].
  destruct (operation st) as [[v|error] st1] eqn:Hop.
  - intros [= <-]. right. exists 0%nat, lastError, st. cbn. rewrite Hop.
    repeat split. lia.
  - destruct (Retry.shouldRetry error) eqn:Hretry; cbn [negb orb].
    + destruct (attempt =? Retry.maxAttempts cfg).
      * intros [= <-]. right. exists 0%nat, lastError, st. cbn. rewrite Hop.
        repeat split. lia.
      * intros Hloop. right.
        destruct (IH _ _ _ _ _ _ _ _ Hloop) as [(Hinv & Hres & Hfin)|(k & e & st' & Hinv & Hk & Hlast)].
        -- exists 0%nat, lastError, st. cbn. rewrite Hop, Hres, Hfin.
           repeat split. lia.
        -- exists (Datatypes.S k), e, st'. cbn. rewrite Hop, Hretry.
           repeat split; [lia|assumption..].
    + intros [= <-]. right. exists 0%nat, lastError, st. cbn. rewrite Hop.
      repeat split. lia.
Qed.

(** [n] retryable failures in a row, the last one on the final attempt:
    the loop gives up with that last error after [n] further calls. *)
Lemma retry_loop_exhausted n : forall fuel cfg attempt delay lastError calls slept st e st',
  (1 <= n)%nat ->
  attempt + Z.of_nat n - 1 = Retry.maxAttempts cfg ->
  Retry.transient_failures operation n st lastError = Some (e, st') ->
  exists r,
    Retry.retry_loop operation (n + fuel) cfg attempt delay lastError calls slept st = Some r
    /\ Retry.result r = Throw e
    /\ Retry.invocations r = (calls + n)%nat
    /\ Retry.final r = st'.
Proof.
  induction n as [|n IH]; intros fuel cfg attempt delay lastError calls slept st e st' Hn Hmax Hfail.
  - lia.
  - change (Retry.retry_loop operation (Datatypes.S n + fuel) cfg attempt delay
              lastError calls slept st)
      with (Retry.retry_loop operation (Datatypes.S (n + fuel)) cfg attempt delay
              lastError calls slept st).
    cbn [Retry.retry_loop Retry.transient_failures] in Hfail |- *.
    destruct (operation st) as [[v|error] st1]; [discriminate|].
    destruct (Retry.shouldRetry error) eqn:Hretry; [|discriminate].
    replace (attempt <=? Retry.maxAttempts cfg) with true
      by (symmetry; apply Z.leb_le; lia).
    cbn [negb orb].
    destruct (Nat.eq_dec n 0%nat) as [->|Hpos].
    + cbn [Retry.transient_failures] in Hfail. injection Hfail as <- <-.
      replace (attempt =? Retry.maxAttempts cfg) with true
        by (symmetry; apply Z.eqb_eq; lia).
      eexists. split; [reflexivity|]. cbn. repeat split; lia.
    + replace (attempt =? Retry.maxAttempts cfg) with false
        by (symmetry; apply Z.eqb_neq; lia).
      destruct (IH fuel cfg (attempt + 1) (delay * Retry.backoffMultiplier cfg)
                  error (Datatypes.S calls) (slept ++ [Timer.delay delay])%list st1 e st')
        as (r & Hr & Hres & Hinv & Hfin); [lia|lia|exact Hfail|].
      exists r. repeat split; [exact Hr|exact Hres|lia|exact Hfin].
Qed.

End RetryFacts.

(** The discriminator of a retryable error is its [code] field alone. *)
Lemma shouldRetry_iff_code error :
  Retry.shouldRetry error = true <->
  exists fields, error = JObj fields /\
    (get_field "code" fields = Some (JStr Retry.CONNECTION_ERROR) \/
     get_field "code" fields = Some (JStr Retry.CONNECTION_TIMEOUT)).
Proof.
  unfold Retry.shouldRetry, Retry.isPrismaError, Retry.code_is, prop. split.
  - destruct error as [| | | | |items|fields]; simpl; try discriminate.
    intros H. exists fields. split; [reflexivity|].
    destruct (get_field "code" fields) as [[| | | |s| |]|]; simpl in H; try discriminate.
    apply orb_true_iff in H as [H|H]; apply String.eqb_eq in H; subst; auto.
  - intros (fields & -> & [H|H]); rewrite H; reflexivity.
Qed.

(** C4. [withRetry] settles for every operation and configuration, and:
    (i) an error is retryable exactly when it is an object whose [code]
    field is the string P1001 (connection error) or P1008 (connection
    timeout), whatever its message says; (ii) every invocation but the last
    threw a retryable error, and the run ends exactly as its last
    invocation did, returning its value or throwing its error unchanged
    (the operation is not invoked at all when maxAttempts < 1); (iii) with
    at least one
    attempt allowed, a first error that is not retryable propagates after
    exactly one invocation; (iv) with maxAttempts = 3, two retryable
    failures followed by a success give the success value after exactly 3
    invocations; (v) when every one of the maxAttempts >= 1 attempts fails
    with a retryable error, the last error is thrown unchanged after
    maxAttempts invocations. *)
Theorem withRetry_policy :
  (forall error,
      Retry.shouldRetry error = true <->
      exists fields, error = JObj fields /\
        (get_field "code" fields = Some (JStr "P1001") \/
         get_field "code" fields = Some (JStr "P1008")))
  /\ (forall S T (operation : S -> outcome T * S) config st,
      exists r, Retry.withRetry operation config st = Some r /\
        ((Retry.invocations r = 0%nat /\ Retry.final r = st)
         \/ exists k e st',
              Retry.invocations r = (k + 1)%nat /\
              Retry.transient_failures operation k st JUndefined = Some (e, st') /\
              operation st' = (Retry.result r, Retry.final r)))
  /\ (forall S T (operation : S -> outcome T * S) config st e st',
      1 <= Retry.maxAttempts (Retry.merge_config config) ->
      operation st = (Throw e, st') ->
      Retry.shouldRetry e = false ->
      exists r, Retry.withRetry operation config st = Some r /\
        Retry.result r = Throw e /\ Retry.invocations r = 1%nat /\
        Retry.final r = st' /\ Retry.sleeps r = [])
  /\ (forall S T (operation : S -> outcome T * S) config s0 e1 s1 e2 s2 v s3,
      Retry.maxAttempts (Retry.merge_config config) = 3 ->
      operation s0 = (Throw e1, s1) -> Retry.shouldRetry e1 = true ->
      operation s1 = (Throw e2, s2) -> Retry.shouldRetry e2 = true ->
      operation s2 = (Ret v, s3) ->
      exists r, Retry.withRetry operation config s0 = Some r /\
        Retry.result r = Ret v /\ Retry.invocations r = 3%nat /\
        Retry.final r = s3)
  /\ (forall S T (operation : S -> outcome T * S) config st n e st',
      (1 <= n)%nat ->
      Retry.maxAttempts (Retry.merge_config config) = Z.of_nat n ->
      Retry.transient_failures operation n st JUndefined = Some (e, st') ->
      exists r, Retry.withRetry operation config st = Some r /\
        Retry.result r = Throw e /\ Retry.invocations r = n /\
        Retry.final r = st').
Proof.
  split; [exact shouldRetry_iff_code|].
  split.
  { intros S T operation config st.
    destruct (withRetry_total operation config st) as [r Hr].
    exists r. split; [exact Hr|].
    destruct (retry_loop_trace operation _ _ _ _ _ _ _ _ _ Hr)
      as [(Hinv & _ & Hfin)|(k & e & st' & Hinv & Hk & Hlast)]; [by left|].
    right. by exists k, e, st'. }
  split.
  { intros S T operation config st e st' Hmax Hop Hnr.
    unfold Retry.withRetry. cbn zeta.
    set (cfg := Retry.merge_config config) in *.
    cbn [Retry.retry_loop].
    replace (1 <=? Retry.maxAttempts cfg) with true
      by (symmetry; apply Z.leb_le; lia).
    rewrite Hop, Hnr. cbn [negb orb].
    eexists. split; [reflexivity|]. cbn. auto. }
  split.
  { intros S T operation config s0 e1 s1 e2 s2 v s3 Hmax H1 Hr1 H2 Hr2 H3.
    unfold Retry.withRetry. cbn zeta.
    set (cfg := Retry.merge_config config) in *.
    rewrite Hmax. change (Z.to_nat 3) with 3%nat.
    cbn [Retry.retry_loop]. rewrite Hmax.
    rewrite H1, Hr1. cbn. rewrite H2, Hr2. cbn. rewrite H3.
    eexists. split; [reflexivity|]. cbn. auto. }
  intros S T operation config st n e st' Hn Hmax Hfail.
  unfold Retry.withRetry. rewrite Hmax, Nat2Z.id.
  replace (Datatypes.S n) with (n + 1)%nat by lia.
  destruct (retry_loop_exhausted operation n 1%nat (Retry.merge_config config) 1
              (Retry.delayMs (Retry.merge_config config)) JUndefined 0%nat [] st e st')
    as (r & Hr & Hres & Hinv & Hfin); [lia|lia|exact Hfail|].
  exists r. repeat split; [exact Hr|exact Hres|lia|exact Hfin].
Qed.

(** Three scripted operations, as in the unit tests of [withRetry]. *)
Lemma withRetry_policy_witness :
  let conn := JObj [("code", JStr "P1001")] in
  let tmo := JObj [("code", JStr "P1008"); ("message", JStr "timed out")] in
  let plain := mkError "Error" "P1001: connection refused" in
  let three := {| Retry.p_maxAttempts := Some 3; Retry.p_delayMs := Some 10;
                  Retry.p_backoffMultiplier := None |} in
  let two := {| Retry.p_maxAttempts := Some 2; Retry.p_delayMs := Some 10;
                Retry.p_backoffMultiplier := None |} in
  (exists r,
      Retry.withRetry (Retry.scripted (Ret "late")) three
        [Throw conn; Throw tmo; Ret "success"] = Some r /\
      Retry.result r = Ret "success" /\ Retry.invocations r = 3%nat /\ Retry.final r = [])
  /\ (exists r,
      Retry.withRetry (Retry.scripted (Ret "late")) Retry.no_overrides
        [Throw plain; Ret "success"] = Some r /\
      Retry.result r = Throw plain /\ Retry.invocations r = 1%nat /\
      Retry.final r = [Ret "success"] /\ Retry.sleeps r = [])
  /\ (exists r,
      Retry.withRetry (Retry.scripted (Ret "late")) two
        [Throw conn; Throw tmo; Ret "success"] = Some r /\
      Retry.result r = Throw tmo /\ Retry.invocations r = 2%nat /\
      Retry.final r = [Ret "success"]).
Proof.
  intros conn tmo plain three two.
  destruct withRetry_policy as (_ & _ & Hplain & Hthree & Hexhaust).
  split; [|split].
  - apply (Hthree _ _ (Retry.scripted (Ret "late")) three
             [Throw conn; Throw tmo; Ret "success"] conn [Throw tmo; Ret "success"]
             tmo [Ret "success"] "success" []); reflexivity.
  - apply (Hplain _ _ (Retry.scripted (Ret "late")) Retry.no_overrides
             [Throw plain; Ret "success"] plain [Ret "success"]);
      [vm_compute; discriminate|reflexivity|reflexivity].
  - apply (Hexhaust _ _ (Retry.scripted (Ret "late")) two
             [Throw conn; Throw tmo; Ret "success"] 2%nat tmo [Ret "success"]);
      [lia|reflexivity|reflexivity].
Defined.

(** ** Timeout guard *)


Lemma race_first_earlier {T} tie (d t : N) (r : outcome T) (q : outcome T) :
  (d < t)%N ->
  Timeout.race tie (Some (d, r)) (Some (t, q)) = Some (d, r).
Proof.
  intros Hlt. unfold Timeout.race.
  destruct (N.ltb_spec d t) as [_|Hge]; [reflexivity|lia].
Qed.

Lemma race_second_earlier {T} tie (d t : N) (r : outcome T) (q : outcome T) :
  (t < d)%N ->
  Timeout.race tie (Some (d, r)) (Some (t, q)) = Some (t, q).
Proof.
  intros Hlt. unfold Timeout.race.
  destruct (N.ltb_spec d t) as [Hlt'|_]; [lia|].
  destruct (N.ltb_spec t d) as [_|Hge]; [reflexivity|lia].
Qed.

Lemma happened_by_elem horizon effs (te : N) (x : string) :
  (te, x) ∈ effs -> (te <= horizon)%N -> x ∈ Timeout.happened_by horizon effs.
Proof.
  intros Hin Hle. unfold Timeout.happened_by.
  apply list_elem_of_In, in_map_iff. exists (te, x). split; [reflexivity|].
  apply list_elem_of_In, list_elem_of_filter. split; [|exact Hin].
  simpl. apply N.leb_le, Hle.
Qed.

Lemma delay_in_range t :
  1 <= t <= Timer.TIMEOUT_MAX -> Timer.delay t = Z.to_N t.
Proof.
  intros Ht. unfold Timer.delay.
  destruct (Z.leb_spec 1 t), (Z.leb_spec t Timer.TIMEOUT_MAX); try lia. reflexivity.
Qed.

Lemma delay_out_of_range t :
  t < 1 \/ Timer.TIMEOUT_MAX < t -> Timer.delay t = 1%N.
Proof.
  intros Ht. unfold Timer.delay.
  destruct (Z.leb_spec 1 t), (Z.leb_spec t Timer.TIMEOUT_MAX); try lia; reflexivity.
Qed.





(** ** The storage layer *)

Import Store Database Capabilities Classifier Webhook Spec.


(** ** Computations that leave the tables alone *)

Section KeepsTables.
Context {A B : Type}.

Lemma keeps_ret (a : A) : keeps_tables (ret a).
Proof. by intros w. Qed.

Lemma keeps_throw e : keeps_tables (@throw A e).
Proof. by intros w. Qed.

Lemma keeps_lift (o : outcome A) : keeps_tables (lift o).
Proof. by intros w. Qed.

Lemma keeps_bind (m : M A) (k : A -> M B) :
  keeps_tables m -> (forall a, keeps_tables (k a)) -> keeps_tables (bind m k).
Proof.
  intros Hm Hk w. unfold bind. specialize (Hm w).
  destruct (m w) as [[a|e] w1]; simpl in *; [|done].
  by rewrite Hk.
Qed.

Lemma keeps_try_catch (m : M A) (h : jsval -> M A) :
  keeps_tables m -> (forall e, keeps_tables (h e)) -> keeps_tables (try_catch m h).
Proof.
  intros Hm Hh w. unfold try_catch. specialize (Hm w).
  destruct (m w) as [[a|e] w1]; simpl in *; [done|].
  by rewrite Hh.
Qed.

Lemma keeps_atomically (m : M A) : keeps_tables m -> keeps_tables (atomically m).
Proof.
  intros Hm w. unfold atomically. specialize (Hm w).
  by destruct (m w) as [[a|e] w1].
Qed.

Lemma keeps_capability name arg (r : Fault + A) : keeps_tables (capability name arg r).
Proof. intros w. unfold capability. by destruct r. Qed.

End KeepsTables.

Lemma keeps_now : keeps_tables now.
Proof. by intros w. Qed.

Lemma keeps_read_db : keeps_tables read_db.
Proof. by intros w. Qed.

Lemma keeps_emit ev : keeps_tables (emit ev).
Proof. by intros w. Qed.

Lemma keeps_getPrismaClient : keeps_tables getPrismaClient.
Proof. intros w. unfold getPrismaClient. by destruct (client_error w). Qed.

Lemma keeps_round_trip : keeps_tables round_trip.
Proof. intros w. unfold round_trip. by destruct (faults w) as [|[f|] rest]. Qed.

Create HintDb keeps discriminated.
#[local] Hint Resolve keeps_ret keeps_throw keeps_lift keeps_capability keeps_now
  keeps_read_db keeps_emit keeps_getPrismaClient keeps_round_trip : keeps.

Ltac keeps :=
  repeat first
    [ solve [auto with keeps]
    | apply keeps_bind; [|intros ?]
    | apply keeps_try_catch; [|intros ?]
    | apply keeps_atomically
    | progress cbv zeta
    | match goal with
      | |- keeps_tables (match ?x with _ => _ end) => destruct x
      | |- keeps_tables (if ?b then _ else _) => destruct b
      end ].

Lemma keeps_skill_findMany_active : keeps_tables skill_findMany_active.
Proof.
  unfold skill_findMany_active. keeps.
Qed.

Lemma keeps_skill_findUnique id : keeps_tables (skill_findUnique id).
Proof. unfold skill_findUnique. keeps. Qed.

Lemma keeps_config_findUnique key : keeps_tables (config_findUnique key).
Proof. unfold config_findUnique. keeps. Qed.

#[local] Hint Resolve keeps_skill_findMany_active keeps_skill_findUnique
  keeps_config_findUnique : keeps.

Lemma keeps_getAllWorkflows : keeps_tables getAllWorkflows.
Proof. unfold getAllWorkflows. keeps. Qed.

Lemma keeps_getWorkflowById id : keeps_tables (getWorkflowById id).
Proof. unfold getWorkflowById. keeps. Qed.

Lemma keeps_getAnthropicApiKey env : keeps_tables (Config.getAnthropicApiKey env).
Proof. unfold Config.getAnthropicApiKey. keeps. Qed.

#[local] Hint Resolve keeps_getAllWorkflows keeps_getWorkflowById
  keeps_getAnthropicApiKey : keeps.

Lemma keeps_getAnthropicClient env : keeps_tables (getAnthropicClient env).
Proof. unfold getAnthropicClient. keeps. Qed.

#[local] Hint Resolve keeps_getAnthropicClient : keeps.

Lemma keeps_resolve env workflows parsed : keeps_tables (resolve env workflows parsed).
Proof. unfold resolve. keeps. Qed.

#[local] Hint Resolve keeps_resolve : keeps.

Lemma keeps_classifyWorkflow env userPrompt : keeps_tables (classifyWorkflow env userPrompt).
Proof. unfold classifyWorkflow, classify_body. keeps. Qed.

#[local] Hint Resolve keeps_classifyWorkflow : keeps.

Lemma keeps_classify_step env req : keeps_tables (classify_step env req).
Proof. unfold classify_step. keeps. Qed.

Lemma keeps_load_prompts env req : keeps_tables (load_prompts env req).
Proof. unfold load_prompts. keeps. Qed.

(** ** Starting an execution *)

Lemma createExecution_ret skillId requestId trigger input w id w' :
  createExecution skillId requestId trigger input w = (Ret id, w') ->
  exists row,
    executions (db w) !! id = None /\
    is_Some (skills (db w) !! skillId) /\
    db w' = {| executions := <[id := row]> (executions (db w));
               skills := skills (db w); config := config (db w) |} /\
    ex_id row = id /\ ex_skillId row = skillId /\ ex_status row = running /\
    ex_startedAt row = clock w /\ ex_completedAt row = None /\
    snapshots w' = db w' :: snapshots w /\
    log w' = EvExecutionCreate id skillId :: log w.
Proof.
  unfold createExecution, try_catch, bind, getPrismaClient, now, atomically,
    execution_create, bind, round_trip, read_db, now, ret, throw.
  destruct (client_error w) as [f|]; [discriminate|].
  destruct (faults w) as [|[f|] rest]; try discriminate; cbn.
  all: destruct (skills (db w) !! skillId) as [sk|] eqn:Hsk; try discriminate.
  all: destruct (executions (db w) !! gen_id w (next_id w)) as [old|] eqn:Hold;
    try discriminate.
  all: intros [= <- <-]; eexists; cbn; rewrite ?Hsk; repeat split; eauto.
Qed.

Lemma create_step_ret req classification w id w' :
  create_step req classification w = (Ret (Some id), w') ->
  exists skillId workflow row,
    matched classification = Some (skillId, workflow) /\
    executions (db w) !! id = None /\
    is_Some (skills (db w) !! skillId) /\
    db w' = {| executions := <[id := row]> (executions (db w));
               skills := skills (db w); config := config (db w) |} /\
    ex_id row = id /\ ex_skillId row = skillId /\ ex_status row = running /\
    ex_startedAt row = clock w /\ ex_completedAt row = None /\
    snapshots w' = db w' :: snapshots w /\
    log w' = EvExecutionCreate id skillId :: log w.
Proof.
  unfold create_step.
  destruct (matched classification) as [[skillId workflow]|]; [|discriminate].
  unfold try_catch, bind.
  destruct (createExecution _ _ _ _ w) as [[id'|e] w1] eqn:Hcreate; [|discriminate].
  intros [= <- <-].
  destruct (createExecution_ret _ _ _ _ _ _ _ Hcreate) as (row & H).
  exists skillId, workflow, row. tauto.
Qed.

Lemma before_orchestration_continues env req w prompts classification executionId w3 :
  before_orchestration env req w = Some (prompts, classification, executionId, w3) ->
  webhook_try env req w =
    orchestrate_and_finish env req prompts classification executionId w3.
Proof.
  unfold before_orchestration, webhook_try, guarded.
  destruct (load_prompts env req w) as [[prompts'|e] w1]; [|discriminate].
  destruct (classify_step env req w1) as [[classification'|e] w2]; [|discriminate].
  destruct (create_step req classification' w2) as [[executionId'|e] w3'];
    [|discriminate].
  by intros [= <- <- <- <-].
Qed.



Lemma int_arg_cases v :
  int_arg v <> IntInvalid -> int_arg v = IntKeep \/ exists n, int_arg v = IntSet n.
Proof. destruct (int_arg v); [auto|eauto|done]. Qed.

Lemma updateExecution_healthy id result w ex sk :
  healthy w ->
  executions (db w) !! id = Some ex ->
  ex_skillId ex <> EmptyString ->
  skills (db w) !! ex_skillId ex = Some sk ->
  int_arg (r_durationMs result) <> IntInvalid ->
  exists w' ex' sk',
    updateExecution id result w = (Ret tt, w') /\
    healthy w' /\
    executions (db w') !! id = Some ex' /\
    skills (db w') !! ex_skillId ex = Some sk' /\
    ex_skillId ex' = ex_skillId ex /\
    ex_status ex' = status_of (r_status result) /\
    ex_completedAt ex' = Some (clock w) /\
    sk_runCount sk' = sk_runCount sk + 1 /\
    sk_lastRunAt sk' = Some (clock w + 2) /\
    clock w' = clock w + 3 /\
    log w' = EvSkillRun (ex_skillId ex) (clock w + 2)
               :: EvExecutionUpdate id (status_of (r_status result)) (Some (clock w))
               :: log w.
Proof.
  intros [Hclient Hfaults] Hex Hsid Hsk Hint.
  destruct w as [d c ce fs nid gid col lg sn]. simpl in *. subst ce fs.
  unfold updateExecution, try_catch, bind, getPrismaClient, now, atomically,
    execution_update. cbn [client_error clock u_durationMs].
  destruct (int_arg_cases _ Hint) as [Harg|[n Harg]]; rewrite Harg.
  all: unfold bind, round_trip, read_db, modify_db, emit, ret, execution_findUnique,
         skill_update_run, bind, round_trip, read_db, modify_db, emit, ret.
  all: cbn; rewrite Hex; cbn; rewrite lookup_insert_eq; cbn.
  all: apply String.eqb_neq in Hsid; rewrite Hsid; cbn.
  all: rewrite Hsk; cbn.
  all: do 3 eexists; split; [reflexivity|]; cbn.
  all: rewrite !lookup_insert_eq.
  all: repeat split; try reflexivity; cbn.
  all: rewrite <- ?Z.add_assoc; reflexivity.
Qed.

(** The same call, as other connections see it: the update of the row
    is committed on its own, with the skills table as it was, and the
    bump of the skill is committed after it. *)
Lemma updateExecution_statements id result w ex sk :
  healthy w ->
  executions (db w) !! id = Some ex ->
  ex_skillId ex <> EmptyString ->
  skills (db w) !! ex_skillId ex = Some sk ->
  int_arg (r_durationMs result) <> IntInvalid ->
  exists w' seen ex' sk',
    updateExecution id result w = (Ret tt, w') /\
    snapshots w' = db w' :: seen :: seen :: snapshots w /\
    executions seen !! id = Some ex' /\
    ex_status ex' = status_of (r_status result) /\
    ex_completedAt ex' = Some (clock w) /\
    skills seen = skills (db w) /\
    skills (db w') !! ex_skillId ex = Some sk' /\
    sk_runCount sk' = sk_runCount sk + 1 /\
    sk_lastRunAt sk' = Some (clock w + 2).
Proof.
  intros [Hclient Hfaults] Hex Hsid Hsk Hint.
  destruct w as [d c ce fs nid gid col lg sn]. simpl in *. subst ce fs.
  unfold updateExecution, try_catch, bind, getPrismaClient, now, atomically,
    execution_update. cbn [client_error clock u_durationMs].
  destruct (int_arg_cases _ Hint) as [Harg|[n Harg]]; rewrite Harg.
  all: unfold bind, round_trip, read_db, modify_db, emit, ret, execution_findUnique,
         skill_update_run, bind, round_trip, read_db, modify_db, emit, ret.
  all: cbn; rewrite Hex; cbn; rewrite lookup_insert_eq; cbn.
  all: apply String.eqb_neq in Hsid; rewrite Hsid; cbn.
  all: rewrite Hsk; cbn.
  all: do 4 eexists; split; [reflexivity|]; cbn.
  all: split; [reflexivity|]; cbn.
  all: rewrite !lookup_insert_eq.
  all: repeat split; try reflexivity; cbn.
  all: rewrite <- ?Z.add_assoc; reflexivity.
Qed.

(** With a working storage layer that holds the matched skill, the
    record is created. *)
Lemma create_step_creates req classification skillId workflow w :
  matched classification = Some (skillId, workflow) ->
  can_create skillId w ->
  exists w',
    create_step req classification w = (Ret (Some (gen_id w (next_id w))), w') /\
    healthy w'.
Proof.
  intros Hm ([Hclient Hfaults] & [sk Hsk] & Hfresh & _).
  unfold create_step. rewrite Hm.
  destruct w as [d c ce fs nid gid col lg sn]. simpl in *. subst ce fs.
  unfold try_catch, bind, createExecution, try_catch, bind, getPrismaClient, now,
    atomically, execution_create, bind, round_trip, read_db, now, ret.
  cbn. rewrite Hsk, Hfresh. cbn.
  eexists. split; [reflexivity|]. split; reflexivity.
Qed.

(** The "store result" step of a successful run that has an execution
    record: [upsertResult] and then [updateExecution] both mark the
    execution completed and both bump the skill. *)
Lemma store_step_healthy req id agentResponse conversationTrace w ex sk :
  healthy w ->
  id <> EmptyString ->
  executions (db w) !! id = Some ex ->
  ex_skillId ex <> EmptyString ->
  skills (db w) !! ex_skillId ex = Some sk ->
  int_arg (prop (with_executionId (metadata req) (Some id)) "durationMs") <> IntInvalid ->
  exists w' ex' sk',
    store_step req (Some id) agentResponse conversationTrace w = (Ret tt, w') /\
    healthy w' /\
    executions (db w') !! id = Some ex' /\
    skills (db w') !! ex_skillId ex = Some sk' /\
    ex_status ex' = completed /\
    ex_completedAt ex' = Some (clock w + 3) /\
    sk_runCount sk' = sk_runCount sk + 2 /\
    log w' = EvSkillRun (ex_skillId ex) (clock w + 5)
               :: EvExecutionUpdate id completed (Some (clock w + 3))
               :: EvSkillRun (ex_skillId ex) (clock w + 2)
               :: EvExecutionUpdate id completed (Some (clock w))
               :: log w.
Proof.
  intros Hw Hid Hex Hsid Hsk Hint.
  unfold store_step, try_catch, bind, upsertResult.
  assert (Hprop : prop (with_executionId (metadata req) (Some id)) "executionId" = JStr id).
  { unfold with_executionId, prop.
    induction (default [] (metadata req)) as [|[k v] l IH]; [reflexivity|].
    simpl in *. destruct (get_field "executionId" (l ++ [("executionId", JStr id)]));
      [exact IH|discriminate]. }
  rewrite Hprop. apply String.eqb_neq in Hid. rewrite Hid. cbn [negb].
  destruct (updateExecution_healthy id
              {| r_status := Completed; r_output := Some agentResponse; r_trace := None;
                 r_error := None;
                 r_durationMs := prop (with_executionId (metadata req) (Some id)) "durationMs";
                 r_tokenCount := None |} w ex sk Hw Hex Hsid Hsk Hint)
    as (w1 & ex1 & sk1 & Hrun1 & Hw1 & Hex1 & Hsk1 & Hsid1 & Hst1 & Hc1 & Hcount1 & _ & Hclock1 & Hlog1).
  rewrite Hrun1. unfold has_id. rewrite Hid. unfold now.
  rewrite <- Hsid1 in Hsk1, Hsid.
  destruct (updateExecution_healthy id
              {| r_status := Completed; r_output := Some agentResponse;
                 r_trace := Some (JArr conversationTrace); r_error := None;
                 r_durationMs := JNum (clock w1 - startTime req) 0;
                 r_tokenCount := None |} w1 ex1 sk1 Hw1 Hex1 Hsid Hsk1)
    as (w2 & ex2 & sk2 & Hrun2 & Hw2 & Hex2 & Hsk2 & Hsid2 & Hst2 & Hc2 & Hcount2 & _ & Hclock2 & Hlog2).
  { cbn. discriminate. }
  rewrite Hrun2. exists w2, ex2, sk2.
  rewrite Hsid1 in *. rewrite Hclock1 in *.
  repeat split; try tauto; try assumption.
  - apply Hw2.
  - apply Hw2.
  - lia.
  - rewrite Hlog2, Hlog1. cbn. do 2 f_equal. lia.
Qed.

(** ** Computations that complete no execution *)

Section CompletesNothing.
Context {A B : Type}.

Lemma quiet_completes_nothing (m : M A) :
  (forall w, log (snd (m w)) = log w) -> completes_nothing m.
Proof. intros H w. exists []. by rewrite H. Qed.

Lemma cn_bind (m : M A) (k : A -> M B) :
  completes_nothing m -> (forall a, completes_nothing (k a)) ->
  completes_nothing (bind m k).
Proof.
  intros Hm Hk w. unfold bind. destruct (Hm w) as (l1 & Hl1 & Hf1).
  destruct (m w) as [[a|e] w1]; simpl in *; [|eauto].
  destruct (Hk a w1) as (l2 & Hl2 & Hf2).
  exists (l2 ++ l1)%list. rewrite Hl2, Hl1, forallb_app, Hf1, Hf2.
  by rewrite app_assoc.
Qed.

Lemma cn_try_catch (m : M A) (h : jsval -> M A) :
  completes_nothing m -> (forall e, completes_nothing (h e)) ->
  completes_nothing (try_catch m h).
Proof.
  intros Hm Hh w. unfold try_catch. destruct (Hm w) as (l1 & Hl1 & Hf1).
  destruct (m w) as [[a|e] w1]; simpl in *; [eauto|].
  destruct (Hh e w1) as (l2 & Hl2 & Hf2).
  exists (l2 ++ l1)%list. rewrite Hl2, Hl1, forallb_app, Hf1, Hf2.
  by rewrite app_assoc.
Qed.

Lemma cn_atomically (m : M A) : completes_nothing m -> completes_nothing (atomically m).
Proof.
  intros Hm w. unfold atomically. destruct (Hm w) as (l1 & Hl1 & Hf1).
  destruct (m w) as [[a|e] w1]; simpl in *; [eauto|]. by exists [].
Qed.

Lemma cn_capability name arg (r : Fault + A) : completes_nothing (capability name arg r).
Proof.
  intros w. exists [EvCapability name arg]. unfold capability. by destruct r.
Qed.

End CompletesNothing.

Lemma cn_ret {A} (a : A) : completes_nothing (ret a).
Proof. by apply quiet_completes_nothing. Qed.

Lemma cn_throw {A} e : completes_nothing (@throw A e).
Proof. by apply quiet_completes_nothing. Qed.

Lemma cn_lift {A} (o : outcome A) : completes_nothing (lift o).
Proof. by apply quiet_completes_nothing. Qed.

Lemma cn_now : completes_nothing now.
Proof. by apply quiet_completes_nothing. Qed.

Lemma cn_read_db : completes_nothing read_db.
Proof. by apply quiet_completes_nothing. Qed.

Lemma cn_getPrismaClient : completes_nothing getPrismaClient.
Proof.
  apply quiet_completes_nothing. intros w. unfold getPrismaClient.
  by destruct (client_error w).
Qed.

Lemma cn_round_trip : completes_nothing round_trip.
Proof.
  apply quiet_completes_nothing. intros w. unfold round_trip.
  by destruct (faults w) as [|[f|] rest].
Qed.

Lemma cn_emit_capability name arg : completes_nothing (emit (EvCapability name arg)).
Proof. intros w. by exists [EvCapability name arg]. Qed.

Lemma cn_execution_create skillId status trigger input startedAt :
  completes_nothing (execution_create skillId status trigger input startedAt).
Proof.
  intros w. unfold execution_create, bind, round_trip, read_db, now.
  destruct (faults w) as [|[f|] rest]; cbn.
  2: by exists [].
  all: destruct (skills (db w) !! skillId); [|by exists []].
  all: destruct (executions (db w) !! gen_id w (next_id w)); [by exists []|].
  all: by exists [EvExecutionCreate (gen_id w (next_id w)) skillId].
Qed.

Create HintDb quiet discriminated.
#[local] Hint Resolve cn_ret cn_throw cn_lift cn_capability cn_now cn_read_db
  cn_getPrismaClient cn_round_trip cn_emit_capability cn_execution_create : quiet.

Ltac quiet :=
  repeat first
    [ solve [auto with quiet]
    | apply cn_bind; [|intros ?]
    | apply cn_try_catch; [|intros ?]
    | apply cn_atomically
    | progress cbv zeta
    | match goal with
      | |- completes_nothing (match ?x with _ => _ end) => destruct x
      | |- completes_nothing (if ?b then _ else _) => destruct b
      end ].

Lemma cn_getAllWorkflows : completes_nothing getAllWorkflows.
Proof. unfold getAllWorkflows, skill_findMany_active. quiet. Qed.

Lemma cn_getWorkflowById id : completes_nothing (getWorkflowById id).
Proof. unfold getWorkflowById, skill_findUnique. quiet. Qed.

Lemma cn_getAnthropicApiKey env : completes_nothing (Config.getAnthropicApiKey env).
Proof. unfold Config.getAnthropicApiKey, config_findUnique. quiet. Qed.

#[local] Hint Resolve cn_getAllWorkflows cn_getWorkflowById cn_getAnthropicApiKey : quiet.

Lemma cn_getAnthropicClient env : completes_nothing (getAnthropicClient env).
Proof. unfold getAnthropicClient. quiet. Qed.

#[local] Hint Resolve cn_getAnthropicClient : quiet.

Lemma cn_classifyWorkflow env userPrompt :
  completes_nothing (classifyWorkflow env userPrompt).
Proof. unfold classifyWorkflow, classify_body, resolve. quiet. Qed.

#[local] Hint Resolve cn_classifyWorkflow : quiet.

Lemma cn_classify_step env req : completes_nothing (classify_step env req).
Proof. unfold classify_step. quiet. Qed.

Lemma cn_load_prompts env req : completes_nothing (load_prompts env req).
Proof. unfold load_prompts. quiet. Qed.

Lemma cn_create_step req classification :
  completes_nothing (create_step req classification).
Proof. unfold create_step, createExecution. quiet. Qed.

Lemma cn_execute_step env req classification systemPrompt userPromptPrefix :
  completes_nothing (execute_step env req classification systemPrompt userPromptPrefix).
Proof. unfold execute_step. quiet. Qed.

Lemma cn_files_step env req workingDirectory :
  completes_nothing (files_step env req workingDirectory).
Proof. unfold files_step. quiet. Qed.

Lemma cn_cleanup_step workingDirectory : completes_nothing (cleanup_step workingDirectory).
Proof. unfold cleanup_step. quiet. Qed.

(** Completions written to a log that only gained other entries. *)
Lemma completedAt_writes_grown id l l0 :
  forallb (fun ev => negb (is_completion ev)) l = true ->
  completedAt_writes id (l ++ l0) = completedAt_writes id l0.
Proof.
  unfold completedAt_writes. induction l as [|ev l IH]; [done|].
  cbn [forallb]. intros [Hev Hl]%andb_true_iff. cbn.
  rewrite (IH Hl). by destruct ev.
Qed.

Lemma status_writes_grown id l l0 :
  forallb (fun ev => negb (is_completion ev)) l = true ->
  status_writes id (l ++ l0) = status_writes id l0.
Proof.
  unfold status_writes. induction l as [|ev l IH]; [done|].
  cbn [forallb]. intros [Hev Hl]%andb_true_iff. cbn.
  rewrite (IH Hl). by destruct ev.
Qed.

Lemma skill_runs_grown id l l0 :
  forallb (fun ev => negb (is_completion ev)) l = true ->
  skill_runs id (l ++ l0) = skill_runs id l0.
Proof.
  unfold skill_runs. induction l as [|ev l IH]; [done|].
  cbn [forallb]. intros [Hev Hl]%andb_true_iff. cbn.
  rewrite (IH Hl). by destruct ev.
Qed.

(** ** The outside capabilities do not touch the storage layer *)

Section OutsideStorage.
Context {A B : Type}.

Lemma os_ret (a : A) : outside_storage (ret a).
Proof. by intros w. Qed.

Lemma os_throw e : outside_storage (@throw A e).
Proof. by intros w. Qed.

Lemma os_capability name arg (r : Fault + A) : outside_storage (capability name arg r).
Proof. intros w. unfold capability. by destruct r. Qed.

Lemma os_bind (m : M A) (k : A -> M B) :
  outside_storage m -> (forall a, outside_storage (k a)) -> outside_storage (bind m k).
Proof.
  intros Hm Hk w. unfold bind. specialize (Hm w).
  destruct (m w) as [[a|e] w1]; simpl in *; [|done].
  destruct (Hk a w1) as (-> & -> & ->). done.
Qed.

Lemma os_try_catch (m : M A) (h : jsval -> M A) :
  outside_storage m -> (forall e, outside_storage (h e)) -> outside_storage (try_catch m h).
Proof.
  intros Hm Hh w. unfold try_catch. specialize (Hm w).
  destruct (m w) as [[a|e] w1]; simpl in *; [done|].
  destruct (Hh e w1) as (-> & -> & ->). done.
Qed.

End OutsideStorage.

Lemma os_emit ev : outside_storage (emit ev).
Proof. by intros w. Qed.

Create HintDb outside discriminated.
#[local] Hint Resolve os_ret os_throw os_capability os_emit : outside.

Ltac outside :=
  repeat first
    [ solve [auto with outside]
    | apply os_bind; [|intros ?]
    | apply os_try_catch; [|intros ?]
    | match goal with
      | |- outside_storage (match ?x with _ => _ end) => destruct x
      | |- outside_storage (if ?b then _ else _) => destruct b
      end ].

Lemma os_execute_step env req classification systemPrompt userPromptPrefix :
  outside_storage (execute_step env req classification systemPrompt userPromptPrefix).
Proof. unfold execute_step. outside. Qed.

Lemma os_files_step env req workingDirectory :
  outside_storage (files_step env req workingDirectory).
Proof. unfold files_step. outside. Qed.

Lemma os_cleanup_step workingDirectory : outside_storage (cleanup_step workingDirectory).
Proof. unfold cleanup_step. outside. Qed.

Lemma outside_healthy {A} (m : M A) w :
  outside_storage m -> healthy w -> healthy (snd (m w)).
Proof. intros Hm [Hc Hf]. destruct (Hm w) as (_ & Hc' & Hf'). split; congruence. Qed.

(** These steps catch whatever goes wrong inside them. *)
Lemma files_step_returns env req workingDirectory w :
  exists uploadedFiles, fst (files_step env req workingDirectory w) = Ret uploadedFiles.
Proof.
  unfold files_step, try_catch.
  match goal with
  | |- context [let (_, _) := ?body w in _] => destruct (body w) as [[a|e] w1]
  | |- context [match ?body w with _ => _ end] => destruct (body w) as [[a|e] w1]
  end; simpl; eauto.
Qed.

Lemma cleanup_step_returns workingDirectory w :
  fst (cleanup_step workingDirectory w) = Ret tt.
Proof. unfold cleanup_step. by destruct workingDirectory. Qed.

Lemma matched_id_nonempty classification skillId workflow :
  matched classification = Some (skillId, workflow) -> skillId <> EmptyString.
Proof.
  unfold matched.
  destruct (workflowId classification) as [id|]; [|discriminate].
  destruct (workflowData classification) as [data|]; [|discriminate].
  destruct (String.eqb_spec id EmptyString); [discriminate|]. by intros [= <- _].
Qed.

(** ** Completed-at and the terminal statuses *)

Lemma all_settled_insert d id row :
  all_settled d -> settled row ->
  forall skills' config',
    all_settled {| executions := <[id := row]> (executions d);
                   skills := skills'; config := config' |}.
Proof.
  intros Hd Hrow skills' config' id' ex. cbn.
  destruct (decide (id = id')) as [<-|Hne].
  - rewrite lookup_insert_eq. by intros [= <-].
  - rewrite lookup_insert_ne by done. apply Hd.
Qed.

Lemma all_settled_skills d skills' config' :
  all_settled d ->
  all_settled {| executions := executions d; skills := skills'; config := config' |}.
Proof. intros Hd id ex. apply Hd. Qed.

Section KeepsSettled.
Context {A B : Type}.

Lemma ks_keeps_tables (m : M A) : keeps_tables m -> keeps_settled m.
Proof. intros Hm w Hw. by rewrite Hm. Qed.

Lemma ks_outside_storage (m : M A) : outside_storage m -> keeps_settled m.
Proof. intros Hm w Hw. by destruct (Hm w) as (-> & _). Qed.

Lemma ks_bind (m : M A) (k : A -> M B) :
  keeps_settled m -> (forall a, keeps_settled (k a)) -> keeps_settled (bind m k).
Proof.
  intros Hm Hk w Hw. unfold bind. specialize (Hm w Hw).
  destruct (m w) as [[a|e] w1]; simpl in *; [|done]. by apply Hk.
Qed.

Lemma ks_try_catch (m : M A) (h : jsval -> M A) :
  keeps_settled m -> (forall e, keeps_settled (h e)) -> keeps_settled (try_catch m h).
Proof.
  intros Hm Hh w Hw. unfold try_catch. specialize (Hm w Hw).
  destruct (m w) as [[a|e] w1]; simpl in *; [done|]. by apply Hh.
Qed.

Lemma ks_guarded cell (m : M A) (k : A -> M (Cell * outcome B)) :
  keeps_settled m -> (forall a, keeps_settled (k a)) -> keeps_settled (guarded cell m k).
Proof.
  intros Hm Hk w Hw. unfold guarded. specialize (Hm w Hw).
  destruct (m w) as [[a|e] w1]; simpl in *; [|done]. by apply Hk.
Qed.

Lemma ks_atomically (m : M A) : keeps_settled m -> keeps_settled (atomically m).
Proof.
  intros Hm w Hw. unfold atomically. specialize (Hm w Hw).
  by destruct (m w) as [[a|e] w1].
Qed.

End KeepsSettled.


(** A fresh row is running and has no completed-at. *)
Lemma ks_execution_create skillId trigger input startedAt :
  keeps_settled (execution_create skillId running trigger input startedAt).
Proof.
  intros w Hw. unfold execution_create, bind, round_trip, read_db, now.
  destruct (faults w) as [|[f|] rest]; cbn [fst snd tick db]; [|exact Hw|].
  all: destruct (skills (db w) !! skillId); [|exact Hw].
  all: destruct (executions (db w) !! _); [exact Hw|].
  all: cbn [snd db with_log with_next_id with_db tick]; apply all_settled_insert;
    [exact Hw|].
  all: unfold settled; cbn; split; [discriminate|by intros [? ?]].
Qed.

Lemma createExecution_settled skillId requestId trigger input :
  keeps_settled (createExecution skillId requestId trigger input).
Proof.
  unfold createExecution.
  apply ks_try_catch; [|intros e; by apply ks_keeps_tables, keeps_throw].
  apply ks_bind; [by apply ks_keeps_tables, keeps_getPrismaClient|intros _].
  apply ks_bind; [by apply ks_keeps_tables, keeps_now|intros startedAt].
  apply ks_bind; [|intros row; by apply ks_keeps_tables, keeps_ret].
  apply ks_atomically, ks_execution_create.
Qed.

(** A row written with a terminal status and a completed-at is settled. *)
Lemma ks_execution_update id u status completedAt :
  u_status u = Some status -> is_terminal status = true ->
  u_completedAt u = Some completedAt ->
  keeps_settled (execution_update id u).
Proof.
  intros Hstatus Hterminal Hcompleted w Hw. unfold execution_update.
  assert (Hrow : forall ex duration, settled (apply_update u duration ex)).
  { intros ex duration. unfold settled. cbn. rewrite Hstatus, Hcompleted. cbn.
    split; [by eexists|done]. }
  destruct (int_arg (u_durationMs u)) as [|n|]; [| |exact Hw].
  all: unfold bind, round_trip, read_db, modify_db, emit, ret, throw.
  all: destruct (faults w) as [|[f|] rest]; cbn [fst snd tick db]; try exact Hw.
  all: destruct (executions (db w) !! id) as [ex|]; [|exact Hw].
  all: cbn; by apply all_settled_insert.
Qed.

Lemma ks_skill_update_run id lastRunAt : keeps_settled (skill_update_run id lastRunAt).
Proof.
  intros w Hw. unfold skill_update_run, bind, round_trip, read_db, modify_db, emit,
    ret, throw.
  destruct (faults w) as [|[f|] rest]; cbn [fst snd tick db]; try exact Hw.
  all: destruct (skills (db w) !! id) as [sk|]; [|exact Hw].
  all: cbn; by apply all_settled_skills.
Qed.

(** Whatever happens inside [updateExecution], a row it writes gets a
    terminal status and a completed-at together. *)
Lemma updateExecution_settled id result : keeps_settled (updateExecution id result).
Proof.
  unfold updateExecution.
  apply ks_try_catch; [|intros e; by apply ks_keeps_tables, keeps_ret].
  apply ks_bind; [by apply ks_keeps_tables, keeps_getPrismaClient|intros _].
  apply ks_bind; [by apply ks_keeps_tables, keeps_now|intros completedAt].
  apply ks_bind.
  { apply ks_atomically.
    apply (ks_execution_update _ _ (status_of (r_status result)) completedAt);
      [reflexivity|by destruct (r_status result)|reflexivity]. }
  intros _. apply ks_bind.
  { apply ks_keeps_tables, keeps_atomically. unfold execution_findUnique. keeps. }
  intros [ex|]; [|by apply ks_keeps_tables, keeps_ret].
  destruct (negb _); [|by apply ks_keeps_tables, keeps_ret].
  apply ks_bind; [by apply ks_keeps_tables, keeps_now|intros lastRunAt].
  apply ks_bind; [|intros _; by apply ks_keeps_tables, keeps_ret].
  apply ks_atomically, ks_skill_update_run.
Qed.

(** The helper of src/db/utils.ts does pair the two writes: when it
    returns, the one state it commits holds the new row and the bumped
    counter; when it throws, nothing is committed. *)
Lemma createSkillExecution_pairs skillId trigger input w :
  match createSkillExecution skillId trigger input w with
  | (Ret row, w') =>
      exists sk,
        skills (db w) !! skillId = Some sk /\
        executions (db w) !! ex_id row = None /\
        executions (db w') !! ex_id row = Some row /\
        ex_status row = running /\
        (sk_runCount <$> skills (db w') !! skillId) = Some (sk_runCount sk + 1) /\
        snapshots w' = db w' :: snapshots w
  | (Throw _, w') => db w' = db w /\ snapshots w' = snapshots w
  end.
Proof.
  destruct w as [d clk cerr fs nid gid col lg sn].
  unfold createSkillExecution, bind, getPrismaClient, atomically, execution_create,
    skill_update_run, bind, round_trip, read_db, now, modify_db, emit, ret, throw.
  cbn [client_error]. destruct cerr as [f|]; [done|].
  destruct fs as [|[f|] [|[f'|] rest]]; cbn; try done.
  all: destruct (skills d !! skillId) as [sk|] eqn:Hsk; cbn; try done.
  all: destruct (executions d !! gid nid) eqn:Hfresh; cbn; try done.
  all: rewrite ?Hsk; cbn; try done.
  all: exists sk; rewrite !lookup_insert_eq; repeat split; done.
Qed.

Lemma ks_store_step req executionId agentResponse conversationTrace :
  keeps_settled (store_step req executionId agentResponse conversationTrace).
Proof.
  unfold store_step, upsertResult.
  apply ks_try_catch; [|intros e; by apply ks_keeps_tables, keeps_ret].
  apply ks_bind.
  - destruct (prop _ "executionId"); try by apply ks_keeps_tables, keeps_ret.
    destruct (negb _); [|by apply ks_keeps_tables, keeps_ret].
    apply updateExecution_settled.
  - intros _. destruct (has_id executionId); [|by apply ks_keeps_tables, keeps_ret].
    apply ks_bind; [by apply ks_keeps_tables, keeps_now|].
    intros t. apply updateExecution_settled.
Qed.

Lemma ks_create_step req classification : keeps_settled (create_step req classification).
Proof.
  unfold create_step.
  destruct (matched classification) as [[skillId workflow]|];
    [|by apply ks_keeps_tables, keeps_ret].
  apply ks_try_catch; [|intros e; by apply ks_keeps_tables, keeps_ret].
  apply ks_bind; [|intros id; by apply ks_keeps_tables, keeps_ret].
  apply createExecution_settled.
Qed.

(** The part of C3 that the code keeps: at every point of every request,
    whatever fails, an execution has a completed-at exactly when its
    status is completed or failed. *)
Lemma processWebhook_settled env req : keeps_settled (processWebhook env req).
Proof.
  unfold processWebhook. apply ks_bind.
  - unfold webhook_try.
    apply ks_guarded; [apply ks_keeps_tables, keeps_load_prompts|intros prompts].
    apply ks_guarded; [apply ks_keeps_tables, keeps_classify_step|intros classification].
    apply ks_guarded; [apply ks_create_step|intros executionId].
    unfold orchestrate_and_finish.
    apply ks_guarded; [apply ks_outside_storage, os_execute_step|intros agentResult].
    apply ks_guarded; [apply ks_outside_storage, os_files_step|intros uploadedFiles].
    apply ks_guarded; [apply ks_store_step|intros _].
    apply ks_guarded; [apply ks_outside_storage, os_cleanup_step|intros _].
    by apply ks_keeps_tables, keeps_ret.
  - intros [cell [r|error]]; [by apply ks_keeps_tables, keeps_ret|].
    apply ks_bind; [|intros _; by apply ks_keeps_tables, keeps_throw].
    unfold webhook_catch. apply ks_bind.
    + destruct (has_id (cell_executionId cell)); [|by apply ks_keeps_tables, keeps_ret].
      apply ks_bind; [by apply ks_keeps_tables, keeps_now|].
      intros t. apply updateExecution_settled.
    + intros _. apply ks_outside_storage, os_cleanup_step.
Qed.

(** ** The pipeline up to the start of orchestration *)

Lemma record_before_orchestration env req w prompts classification id w3 :
  before_orchestration env req w = Some (prompts, classification, Some id, w3) ->
  exists skillId workflow row l,
    matched classification = Some (skillId, workflow) /\
    executions (db w) !! id = None /\
    is_Some (skills (db w) !! skillId) /\
    db w3 = {| executions := <[id := row]> (executions (db w));
               skills := skills (db w); config := config (db w) |} /\
    ex_skillId row = skillId /\ ex_status row = running /\
    ex_completedAt row = None /\
    head (snapshots w3) = Some (db w3) /\
    log w3 = (EvExecutionCreate id skillId :: l ++ log w)%list /\
    forallb (fun ev => negb (is_completion ev)) l = true.
Proof.
  intros Hbefore. unfold before_orchestration in Hbefore.
  pose proof (keeps_load_prompts env req w) as Hload.
  destruct (cn_load_prompts env req w) as (l1 & Hl1 & Hf1).
  destruct (load_prompts env req w) as [[prompts'|e] w1]; [|discriminate].
  pose proof (keeps_classify_step env req w1) as Hclassify.
  destruct (cn_classify_step env req w1) as (l2 & Hl2 & Hf2).
  destruct (classify_step env req w1) as [[classification'|e] w2]; [|discriminate].
  destruct (create_step req classification' w2) as [[executionId'|e] w3'] eqn:Hcreate;
    [|discriminate].
  injection Hbefore as <- <- -> <-.
  destruct (create_step_ret _ _ _ _ _ Hcreate)
    as (skillId & workflow & row & Hm & Hfresh & Hskill & Hdb & _ & Hsk & Hst & _ & Hc
        & Hsnap & Hlog).
  simpl in Hload, Hclassify, Hl1, Hl2. rewrite Hclassify, Hload in *.
  exists skillId, workflow, row, (l2 ++ l1)%list.
  rewrite Hsnap, Hlog, Hl2, Hl1, forallb_app, Hf1, Hf2, app_assoc.
  repeat split; auto.
Qed.

(** ** Runs that have an execution record *)

Section TrackedRun.
Variable env : Env.
Variable req : Request.
Variables (w w3 : World) (prompts : string * string).
Variables (classification : ClassificationResult) (id skillId : string).
Variable workflow : Workflow.

Hypothesis Hbefore :
  before_orchestration env req w = Some (prompts, classification, Some id, w3).
Hypothesis Hmatched : matched classification = Some (skillId, workflow).
Hypothesis Hhealthy : healthy w3.
Hypothesis Hid : id <> EmptyString.

(** Orchestration succeeds: the execution is completed twice and the
    skill is bumped twice. *)
Lemma successful_run agentResult w4 :
  execute_step env req classification (fst prompts) (snd prompts) w3
    = (Ret agentResult, w4) ->
  int_arg (prop (with_executionId (metadata req) (Some id)) "durationMs") <> IntInvalid ->
  exists r wf sk sk' ex' t,
    processWebhook env req w = (Ret r, wf) /\
    res_workflowId r = Some skillId /\
    skills (db w) !! skillId = Some sk /\
    skills (db wf) !! skillId = Some sk' /\
    sk_runCount sk' = sk_runCount sk + 2 /\
    executions (db wf) !! id = Some ex' /\
    ex_status ex' = completed /\
    ex_completedAt ex' = Some (t + 3) /\
    completedAt_writes id (log wf) = t + 3 :: t :: completedAt_writes id (log w) /\
    status_writes id (log wf) = completed :: completed :: status_writes id (log w) /\
    skill_runs skillId (log wf) = t + 5 :: t + 2 :: skill_runs skillId (log w).
Proof.
  intros Hexec Hint.
  destruct (record_before_orchestration _ _ _ _ _ _ _ Hbefore)
    as (skillId' & workflow' & row & l & Hm & Hfresh & [sk Hsk] & Hdb & Hrow & Hst & Hc
        & Hsnap & Hlog & Hl).
  rewrite Hmatched in Hm. injection Hm as <- <-.
  (* execute *)
  pose proof (os_execute_step env req classification (fst prompts) (snd prompts) w3) as Hos4.
  pose proof (outside_healthy _ w3
                (os_execute_step env req classification (fst prompts) (snd prompts))
                Hhealthy) as Hh4.
  destruct (cn_execute_step env req classification (fst prompts) (snd prompts) w3)
    as (l4 & Hl4 & Hf4).
  rewrite Hexec in Hos4, Hh4, Hl4. cbn [snd] in Hos4, Hh4, Hl4.
  destruct Hos4 as (Hdb4 & _).
  (* files *)
  set (workingDirectory :=
         if String.eqb (ar_workingDirectory agentResult) EmptyString then None
         else Some (ar_workingDirectory agentResult)).
  destruct (files_step_returns env req workingDirectory w4) as [uploadedFiles Hfiles].
  pose proof (os_files_step env req workingDirectory w4) as Hos5.
  pose proof (outside_healthy _ w4 (os_files_step env req workingDirectory) Hh4) as Hh5.
  destruct (cn_files_step env req workingDirectory w4) as (l5 & Hl5 & Hf5).
  destruct (files_step env req workingDirectory w4) as [o5 w5] eqn:Hstep5.
  cbn [fst snd] in Hfiles, Hos5, Hh5, Hl5. subst o5.
  destruct Hos5 as (Hdb5 & _).
  (* store *)
  assert (Hex5 : executions (db w5) !! id = Some row).
  { rewrite Hdb5, Hdb4, Hdb. cbn. apply lookup_insert_eq. }
  assert (Hsk5 : skills (db w5) !! ex_skillId row = Some sk).
  { rewrite Hdb5, Hdb4, Hdb, Hrow. exact Hsk. }
  assert (Hsid : ex_skillId row <> EmptyString).
  { rewrite Hrow. by eapply matched_id_nonempty. }
  destruct (store_step_healthy req id
              (ar_text agentResult ++ formatFilesForResponse uploadedFiles)
              (ar_trace agentResult) w5 row sk Hh5 Hid Hex5 Hsid Hsk5 Hint)
    as (w6 & ex6 & sk6 & Hstore & Hh6 & Hex6 & Hsk6 & Hst6 & Hc6 & Hcount6 & Hlog6).
  (* cleanup *)
  pose proof (os_cleanup_step workingDirectory w6) as (Hdb7 & _).
  destruct (cn_cleanup_step workingDirectory w6) as (l7 & Hl7 & Hf7).
  pose proof (cleanup_step_returns workingDirectory w6) as Hclean.
  destruct (cleanup_step workingDirectory w6) as [o7 w7] eqn:Hstep7.
  cbn [fst snd] in Hdb7, Hl7, Hclean. subst o7.
  (* the whole run *)
  exists {| response := ar_text agentResult ++ formatFilesForResponse uploadedFiles;
            files := uploadedFiles; res_requestId := requestId req;
            trace := ar_trace agentResult;
            res_workflowId := fst <$> matched classification;
            res_workflow := snd <$> matched classification |},
    w7, sk, sk6, ex6, (clock w5).
  split.
  { unfold processWebhook, bind.
    rewrite (before_orchestration_continues _ _ _ _ _ _ _ Hbefore).
    unfold orchestrate_and_finish, guarded. rewrite Hexec.
    fold workingDirectory. rewrite Hstep5, Hstore, Hstep7. reflexivity. }
  rewrite Hdb7, Hl7, Hlog6, Hl5, Hl4, Hlog, Hrow in *. rewrite Hmatched.
  repeat split; try done.
  - rewrite completedAt_writes_grown by done.
    repeat (progress (cbn; rewrite ?String.eqb_refl)).
    do 2 f_equal.
    match goal with |- omap _ ?x = _ => change (completedAt_writes id x = completedAt_writes id (log w)) end.
    rewrite !completedAt_writes_grown by done.
    change (completedAt_writes id (l ++ log w) = completedAt_writes id (log w)).
    by rewrite completedAt_writes_grown.
  - rewrite status_writes_grown by done.
    repeat (progress (cbn; rewrite ?String.eqb_refl)).
    do 2 f_equal.
    match goal with |- omap _ ?x = _ => change (status_writes id x = status_writes id (log w)) end.
    rewrite !status_writes_grown by done.
    change (status_writes id (l ++ log w) = status_writes id (log w)).
    by rewrite status_writes_grown.
  - rewrite skill_runs_grown by done.
    repeat (progress (cbn; rewrite ?String.eqb_refl)).
    do 2 f_equal.
    match goal with |- omap _ ?x = _ => change (skill_runs skillId x = skill_runs skillId (log w)) end.
    rewrite !skill_runs_grown by done.
    change (skill_runs skillId (l ++ log w) = skill_runs skillId (log w)).
    by rewrite skill_runs_grown.
Qed.

(** Orchestration fails: the [catch] completes the execution once. *)
Lemma failed_run e w4 :
  execute_step env req classification (fst prompts) (snd prompts) w3
    = (Throw e, w4) ->
  exists wf sk sk' ex' t,
    processWebhook env req w = (Throw e, wf) /\
    skills (db w) !! skillId = Some sk /\
    skills (db wf) !! skillId = Some sk' /\
    sk_runCount sk' = sk_runCount sk + 1 /\
    executions (db wf) !! id = Some ex' /\
    ex_status ex' = failed /\
    ex_completedAt ex' = Some t /\
    completedAt_writes id (log wf) = t :: completedAt_writes id (log w) /\
    status_writes id (log wf) = failed :: status_writes id (log w) /\
    skill_runs skillId (log wf) = t + 2 :: skill_runs skillId (log w).
Proof.
  intros Hexec.
  destruct (record_before_orchestration _ _ _ _ _ _ _ Hbefore)
    as (skillId' & workflow' & row & l & Hm & Hfresh & [sk Hsk] & Hdb & Hrow & Hst & Hc
        & Hsnap & Hlog & Hl).
  rewrite Hmatched in Hm. injection Hm as <- <-.
  pose proof (os_execute_step env req classification (fst prompts) (snd prompts) w3) as Hos4.
  pose proof (outside_healthy _ w3
                (os_execute_step env req classification (fst prompts) (snd prompts))
                Hhealthy) as Hh4.
  destruct (cn_execute_step env req classification (fst prompts) (snd prompts) w3)
    as (l4 & Hl4 & Hf4).
  rewrite Hexec in Hos4, Hh4, Hl4. cbn [snd] in Hos4, Hh4, Hl4.
  destruct Hos4 as (Hdb4 & _).
  assert (Hex4 : executions (db w4) !! id = Some row).
  { rewrite Hdb4, Hdb. cbn. apply lookup_insert_eq. }
  assert (Hsk4 : skills (db w4) !! ex_skillId row = Some sk).
  { rewrite Hdb4, Hdb, Hrow. exact Hsk. }
  assert (Hsid : ex_skillId row <> EmptyString).
  { rewrite Hrow. by eapply matched_id_nonempty. }
  destruct (updateExecution_healthy id
              {| r_status := Failed; r_output := None; r_trace := None;
                 r_error := message_text e;
                 r_durationMs := JNum (clock w4 - startTime req) 0;
                 r_tokenCount := None |} w4 row sk Hh4 Hex4 Hsid Hsk4)
    as (w5 & ex5 & sk5 & Hrun & Hh5 & Hex5 & Hsk5 & _ & Hst5 & Hc5 & Hcount5 & _ & _ & Hlog5).
  { cbn. discriminate. }
  exists w5, sk, sk5, ex5, (clock w4).
  split.
  { unfold processWebhook, bind.
    rewrite (before_orchestration_continues _ _ _ _ _ _ _ Hbefore).
    unfold orchestrate_and_finish, guarded. rewrite Hexec.
    unfold webhook_catch, bind, has_id. cbn [cell_executionId cell_workingDirectory].
    apply String.eqb_neq in Hid. rewrite Hid. unfold now. rewrite Hrun.
    reflexivity. }
  rewrite Hlog5, Hl4, Hlog, Hrow in *.
  repeat split; try done.
  - repeat (progress (cbn; rewrite ?String.eqb_refl)).
    f_equal.
    match goal with |- omap _ ?x = _ => change (completedAt_writes id x = completedAt_writes id (log w)) end.
    rewrite !completedAt_writes_grown by done.
    change (completedAt_writes id (l ++ log w) = completedAt_writes id (log w)).
    by rewrite completedAt_writes_grown.
  - repeat (progress (cbn; rewrite ?String.eqb_refl)).
    f_equal.
    match goal with |- omap _ ?x = _ => change (status_writes id x = status_writes id (log w)) end.
    rewrite !status_writes_grown by done.
    change (status_writes id (l ++ log w) = status_writes id (log w)).
    by rewrite status_writes_grown.
  - repeat (progress (cbn; rewrite ?String.eqb_refl)).
    f_equal.
    match goal with |- omap _ ?x = _ => change (skill_runs skillId x = skill_runs skillId (log w)) end.
    rewrite !skill_runs_grown by done.
    change (skill_runs skillId (l ++ log w) = skill_runs skillId (log w)).
    by rewrite skill_runs_grown.
Qed.

End TrackedRun.

Lemma demo_started :
  Demo.started
  = Some (Demo.prompts, Demo.classification, Some "exec-0", Demo.world_started).
Proof. vm_compute. reflexivity. Qed.

Lemma demo_started_failing :
  before_orchestration Demo.env_failing Demo.request Demo.world
  = Some (Demo.prompts, Demo.classification, Some "exec-0", Demo.world_started).
Proof. vm_compute. reflexivity. Qed.

Lemma demo_healthy : healthy Demo.world_started.
Proof. split; vm_compute; reflexivity. Qed.

Lemma demo_id : "exec-0" <> EmptyString.
Proof. discriminate. Qed.

(** C1 (as amended). When the classifier has matched a skill and the
    storage layer works and holds that skill, [processWebhook] creates
    the execution record before orchestration starts, and the rest of
    the request runs from a state in which: the row is new, belongs to
    that skill, has status running and no completed-at; that state is
    the latest one committed, so other connections see it; and the skills
    table, with every run counter and last-run timestamp, is exactly the
    one from before the request, no write of the skill being in the log.
    The counter and the timestamp are written by [updateExecution]: on a
    working storage layer it first commits the terminal status and the
    completed-at of the row, the skills table still being as it was, and
    then, as a statement of its own, the counter raised by one and the
    new last-run timestamp.  [processWebhook] reaches it when the run
    ends, so that the counter ends above its value before the request. *)
Theorem execution_created_alone
    env req w prompts w1 classification w2 skillId workflow :
  load_prompts env req w = (Ret prompts, w1) ->
  classify_step env req w1 = (Ret classification, w2) ->
  matched classification = Some (skillId, workflow) ->
  can_create skillId w2 ->
  exists id row w3,
    id = gen_id w2 (next_id w2) /\
    before_orchestration env req w = Some (prompts, classification, Some id, w3) /\
    webhook_try env req w =
      orchestrate_and_finish env req prompts classification (Some id) w3 /\
    executions (db w) !! id = None /\
    executions (db w3) !! id = Some row /\
    ex_skillId row = skillId /\ ex_status row = running /\
    ex_completedAt row = None /\
    head (snapshots w3) = Some (db w3) /\
    head (log w3) = Some (EvExecutionCreate id skillId) /\
    skills (db w3) = skills (db w) /\
    skill_runs skillId (log w3) = skill_runs skillId (log w) /\
    (forall result w' ex sk,
        healthy w' ->
        executions (db w') !! id = Some ex ->
        ex_skillId ex = skillId ->
        skills (db w') !! skillId = Some sk ->
        int_arg (r_durationMs result) <> IntInvalid ->
        exists w'' seen ex' sk',
          updateExecution id result w' = (Ret tt, w'') /\
          snapshots w'' = db w'' :: seen :: seen :: snapshots w' /\
          executions seen !! id = Some ex' /\
          ex_status ex' = status_of (r_status result) /\
          ex_completedAt ex' = Some (clock w') /\
          skills seen = skills (db w') /\
          skills (db w'') !! skillId = Some sk' /\
          sk_runCount sk' = sk_runCount sk + 1 /\
          sk_lastRunAt sk' = Some (clock w' + 2)) /\
    (int_arg (prop (with_executionId (metadata req) (Some id)) "durationMs")
       <> IntInvalid ->
     exists sk sk',
       skills (db w) !! skillId = Some sk /\
       skills (db (snd (processWebhook env req w))) !! skillId = Some sk' /\
       sk_runCount sk < sk_runCount sk').
Proof.
  intros Hload Hclassify Hmatched Hcan.
  destruct (create_step_creates req classification skillId workflow w2 Hmatched Hcan)
    as (w3 & Hcreate & Hhealthy).
  set (id := gen_id w2 (next_id w2)) in *.
  assert (Hid : id <> EmptyString) by apply Hcan.
  assert (Hbefore : before_orchestration env req w
                    = Some (prompts, classification, Some id, w3)).
  { unfold before_orchestration. by rewrite Hload, Hclassify, Hcreate. }
  destruct (record_before_orchestration _ _ _ _ _ _ _ Hbefore)
    as (skillId' & workflow' & row & l & Hm & Hfresh & [sk0 Hsk0] & Hdb & Hsk & Hst & Hc
        & Hsnap & Hlog & Hl).
  rewrite Hmatched in Hm. injection Hm as <- <-.
  pose proof (matched_id_nonempty _ _ _ Hmatched) as Hsid.
  exists id, row, w3.
  split; [reflexivity|].
  split; [exact Hbefore|].
  split; [by apply before_orchestration_continues|].
  split; [exact Hfresh|].
  split; [rewrite Hdb; cbn; apply lookup_insert_eq|].
  do 4 (split; [assumption|]).
  split; [by rewrite Hlog|].
  split; [by rewrite Hdb|].
  split.
  { rewrite Hlog.
    change (skill_runs skillId (EvExecutionCreate id skillId :: l ++ log w))
      with (skill_runs skillId (l ++ log w)).
    by apply skill_runs_grown. }
  split.
  - intros result w' ex sk Hw' Hex Hexsk Hskill Hint.
    rewrite <- Hexsk in Hskill, Hsid.
    destruct (updateExecution_statements id result w' ex sk Hw' Hex Hsid Hskill Hint)
      as (w'' & seen & ex' & sk' & H).
    exists w'', seen, ex', sk'. rewrite <- Hexsk. exact H.
  - intros Hint.
    destruct (execute_step env req classification (fst prompts) (snd prompts) w3)
      as [[agentResult|e] w4] eqn:Hexec.
    + destruct (successful_run env req w w3 prompts classification id skillId workflow
                  Hbefore Hmatched Hhealthy Hid agentResult w4 Hexec Hint)
        as (r & wf & sk & sk' & ex' & t & Hrun & _ & Hbeforesk & Haftersk & Hcount & _).
      exists sk, sk'. rewrite Hrun. cbn [snd]. repeat split; [assumption..|lia].
    + destruct (failed_run env req w w3 prompts classification id skillId workflow
                  Hbefore Hmatched Hhealthy Hid e w4 Hexec)
        as (wf & sk & sk' & ex' & t & Hrun & Hbeforesk & Haftersk & Hcount & _).
      exists sk, sk'. rewrite Hrun. cbn [snd]. repeat split; [assumption..|lia].
Qed.

Lemma demo_can_create :
  can_create "skill-1"
    (snd (classify_step Demo.env Demo.request
            (snd (load_prompts Demo.env Demo.request Demo.world)))).
Proof.
  split; [split; vm_compute; reflexivity|].
  split; [vm_compute; by eexists|].
  split; [vm_compute; reflexivity|]. vm_compute. discriminate.
Qed.

(** The request of the scenario: the skill "daily report" is matched, the
    record exec-0 is created while the skill keeps its run counter of 5,
    and at the end of the run the counter is above 5. *)
Lemma execution_created_alone_witness :
  exists id row w3,
    before_orchestration Demo.env Demo.request Demo.world
      = Some (Demo.prompts, Demo.classification, Some id, w3) /\
    executions (db w3) !! id = Some row /\
    ex_status row = running /\
    skills (db w3) = skills (db Demo.world) /\
    exists sk sk',
      skills (db Demo.world) !! "skill-1" = Some sk /\
      skills (db (snd (processWebhook Demo.env Demo.request Demo.world))) !! "skill-1"
        = Some sk' /\
      sk_runCount sk < sk_runCount sk'.
Proof.
  destruct (execution_created_alone Demo.env Demo.request Demo.world Demo.prompts
              (snd (load_prompts Demo.env Demo.request Demo.world))
              Demo.classification
              (snd (classify_step Demo.env Demo.request
                      (snd (load_prompts Demo.env Demo.request Demo.world))))
              "skill-1" Demo.workflow)
    as (id & row & w3 & Hid & Hbefore & _ & _ & Hrow & _ & Hst & _ & _ & _ & Hskills
        & _ & _ & Hrun).
  - vm_compute. reflexivity.
  - vm_compute. reflexivity.
  - reflexivity.
  - exact demo_can_create.
  - exists id, row, w3.
    split; [exact Hbefore|]. split; [exact Hrow|]. split; [exact Hst|].
    split; [exact Hskills|].
    apply Hrun. rewrite Hid. vm_compute. discriminate.
Defined.

(** C1 fails as stated: in the scenario an observer sees a committed state
    that holds the new execution row while the run counter of its skill
    still has the value from before the request. *)
Lemma start_is_not_atomic :
  ~ atomic_start Demo.env Demo.request Demo.world.
Proof.
  intros Hatomic.
  assert (Hseen : db Demo.world_started
                  ∈ snapshots (snd (processWebhook Demo.env Demo.request Demo.world))).
  { apply list_elem_of_lookup. exists 6%nat. vm_compute. reflexivity. }
  destruct (Hatomic _ Hseen "exec-0"
              {| ex_id := "exec-0"; ex_skillId := "skill-1"; ex_status := running;
                 ex_trigger := "webhook";
                 ex_input := JObj [("prompt", JStr "Please run the daily report");
                                   ("metadata", JUndefined);
                                   ("requestId", JStr "req-1")];
                 ex_output := None; ex_trace := None; ex_error := None;
                 ex_startedAt := 1006; ex_completedAt := None;
                 ex_durationMs := None; ex_tokenCount := None |})
    as (sk0 & sk1 & Hsk0 & Hsk1 & Hcount).
  - vm_compute. reflexivity.
  - vm_compute. reflexivity.
  - vm_compute in Hsk0, Hsk1. injection Hsk0 as <-. injection Hsk1 as <-.
    vm_compute in Hcount. discriminate.
Qed.

(** C2 (the code departs from it). In every skill-matched run that has
    its execution record and a working storage layer (and whose request
    metadata carries no [durationMs] that the storage client rejects):
    - when orchestration succeeds, [processWebhook] returns the response
      and the skill's run counter ends 2 above its value before the
      request, bumped once through [upsertResult] and once through the
      direct [updateExecution];
    - when orchestration fails, the error is thrown again and the counter
      ends 1 above its value before the request. *)
Theorem run_count_bumped_twice env req w prompts classification id skillId workflow w3 :
  before_orchestration env req w = Some (prompts, classification, Some id, w3) ->
  matched classification = Some (skillId, workflow) ->
  healthy w3 ->
  id <> EmptyString ->
  (forall agentResult w4,
      execute_step env req classification (fst prompts) (snd prompts) w3
        = (Ret agentResult, w4) ->
      int_arg (prop (with_executionId (metadata req) (Some id)) "durationMs")
        <> IntInvalid ->
      exists r wf sk sk' t,
        processWebhook env req w = (Ret r, wf) /\
        res_workflowId r = Some skillId /\
        skills (db w) !! skillId = Some sk /\
        skills (db wf) !! skillId = Some sk' /\
        sk_runCount sk' = sk_runCount sk + 2 /\
        skill_runs skillId (log wf) = t + 5 :: t + 2 :: skill_runs skillId (log w))
  /\ (forall e w4,
      execute_step env req classification (fst prompts) (snd prompts) w3
        = (Throw e, w4) ->
      exists wf sk sk' t,
        processWebhook env req w = (Throw e, wf) /\
        skills (db w) !! skillId = Some sk /\
        skills (db wf) !! skillId = Some sk' /\
        sk_runCount sk' = sk_runCount sk + 1 /\
        skill_runs skillId (log wf) = t + 2 :: skill_runs skillId (log w)).
Proof.
  intros Hbefore Hmatched Hhealthy Hid. split.
  - intros agentResult w4 Hexec Hint.
    destruct (successful_run env req w w3 prompts classification id skillId workflow
                Hbefore Hmatched Hhealthy Hid agentResult w4 Hexec Hint)
      as (r & wf & sk & sk' & ex' & t & Hrun & Hres & Hsk & Hsk' & Hcount & _ & _ & _ & _ & _
          & Hruns).
    exists r, wf, sk, sk', t. repeat split; assumption.
  - intros e w4 Hexec.
    destruct (failed_run env req w w3 prompts classification id skillId workflow
                Hbefore Hmatched Hhealthy Hid e w4 Hexec)
      as (wf & sk & sk' & ex' & t & Hrun & Hsk & Hsk' & Hcount & _ & _ & _ & _ & _ & Hruns).
    exists wf, sk, sk', t. repeat split; assumption.
Qed.

(** The scenario: the skill has run 5 times before the request; after one
    successful run its counter is 7, after one failed run it is 6. *)
Lemma run_count_bumped_twice_witness :
  (exists sk',
      skills (db (snd (processWebhook Demo.env Demo.request Demo.world))) !! "skill-1"
        = Some sk' /\ sk_runCount sk' = 7)
  /\ (exists sk',
      skills (db (snd (processWebhook Demo.env_failing Demo.request Demo.world))) !! "skill-1"
        = Some sk' /\ sk_runCount sk' = 6).
Proof.
  split.
  - destruct (run_count_bumped_twice Demo.env Demo.request Demo.world Demo.prompts
                Demo.classification "exec-0" "skill-1" Demo.workflow Demo.world_started
                demo_started eq_refl demo_healthy demo_id)
      as [Hsuccess _].
    destruct (Hsuccess Demo.agent_reply
                  (snd (execute_step Demo.env Demo.request Demo.classification
                          (fst Demo.prompts) (snd Demo.prompts) Demo.world_started)))
        as (r & wf & sk & sk' & t & Hrun & _ & Hsk & Hsk' & Hcount & _).
    + vm_compute. reflexivity.
    + vm_compute. discriminate.
    + rewrite Hrun. exists sk'. split; [exact Hsk'|].
        vm_compute in Hsk. injection Hsk as <-. exact Hcount.
  - destruct (run_count_bumped_twice Demo.env_failing Demo.request Demo.world Demo.prompts
                Demo.classification "exec-0" "skill-1" Demo.workflow Demo.world_started
                demo_started_failing eq_refl demo_healthy demo_id)
      as [_ Hfailure].
    destruct (Hfailure (AgentError "Agent execution failed")
                  (snd (execute_step Demo.env_failing Demo.request Demo.classification
                          (fst Demo.prompts) (snd Demo.prompts) Demo.world_started)))
        as (wf & sk & sk' & t & Hrun & Hsk & Hsk' & Hcount & _).
    + vm_compute. reflexivity.
    + rewrite Hrun. exists sk'. split; [exact Hsk'|].
        vm_compute in Hsk. injection Hsk as <-. exact Hcount.
Defined.

(** C3 (the code departs from it). In every skill-matched run that has
    its execution record and a working storage layer (and whose request
    metadata carries no [durationMs] that the storage client rejects) and
    whose orchestration succeeds, the execution ends completed, but its terminal
    status and its completed-at are written twice: first by
    [upsertResult] at time [t], then again by the direct
    [updateExecution] at time [t + 3], which overwrites the first
    completed-at.  (When orchestration fails both are written once.) *)
Theorem completed_at_written_twice env req w prompts classification id skillId workflow w3 :
  before_orchestration env req w = Some (prompts, classification, Some id, w3) ->
  matched classification = Some (skillId, workflow) ->
  healthy w3 ->
  id <> EmptyString ->
  (forall agentResult w4,
      execute_step env req classification (fst prompts) (snd prompts) w3
        = (Ret agentResult, w4) ->
      int_arg (prop (with_executionId (metadata req) (Some id)) "durationMs")
        <> IntInvalid ->
      exists r wf ex' t,
        processWebhook env req w = (Ret r, wf) /\
        executions (db wf) !! id = Some ex' /\
        ex_status ex' = completed /\
        ex_completedAt ex' = Some (t + 3) /\
        completedAt_writes id (log wf) = t + 3 :: t :: completedAt_writes id (log w) /\
        status_writes id (log wf) = completed :: completed :: status_writes id (log w))
  /\ (forall e w4,
      execute_step env req classification (fst prompts) (snd prompts) w3
        = (Throw e, w4) ->
      exists wf ex' t,
        processWebhook env req w = (Throw e, wf) /\
        executions (db wf) !! id = Some ex' /\
        ex_status ex' = failed /\
        ex_completedAt ex' = Some t /\
        completedAt_writes id (log wf) = t :: completedAt_writes id (log w) /\
        status_writes id (log wf) = failed :: status_writes id (log w)).
Proof.
  intros Hbefore Hmatched Hhealthy Hid. split.
  - intros agentResult w4 Hexec Hint.
    destruct (successful_run env req w w3 prompts classification id skillId workflow
                Hbefore Hmatched Hhealthy Hid agentResult w4 Hexec Hint)
      as (r & wf & sk & sk' & ex' & t & Hrun & _ & _ & _ & _ & Hex & Hst & Hc & Hwrites
          & Hstatus & _).
    exists r, wf, ex', t. repeat split; assumption.
  - intros e w4 Hexec.
    destruct (failed_run env req w w3 prompts classification id skillId workflow
                Hbefore Hmatched Hhealthy Hid e w4 Hexec)
      as (wf & sk & sk' & ex' & t & Hrun & _ & _ & _ & Hex & Hst & Hc & Hwrites & Hstatus & _).
    exists wf, ex', t. repeat split; assumption.
Qed.

(** The scenario: the log of the successful run holds two writes of
    completed-at for the one execution, the log of the failed run one. *)
Lemma completed_at_written_twice_witness :
  length (completedAt_writes "exec-0"
            (log (snd (processWebhook Demo.env Demo.request Demo.world)))) = 2%nat
  /\ length (completedAt_writes "exec-0"
               (log (snd (processWebhook Demo.env_failing Demo.request Demo.world)))) = 1%nat.
Proof.
  split.
  - destruct (completed_at_written_twice Demo.env Demo.request Demo.world Demo.prompts
                Demo.classification "exec-0" "skill-1" Demo.workflow Demo.world_started
                demo_started eq_refl demo_healthy demo_id)
      as [Hsuccess _].
    destruct (Hsuccess Demo.agent_reply
                  (snd (execute_step Demo.env Demo.request Demo.classification
                          (fst Demo.prompts) (snd Demo.prompts) Demo.world_started)))
        as (r & wf & ex' & t & Hrun & _ & _ & _ & Hwrites & _).
    + vm_compute. reflexivity.
    + vm_compute. discriminate.
    + rewrite Hrun. cbn [snd]. rewrite Hwrites. reflexivity.
  - destruct (completed_at_written_twice Demo.env_failing Demo.request Demo.world Demo.prompts
                Demo.classification "exec-0" "skill-1" Demo.workflow Demo.world_started
                demo_started_failing eq_refl demo_healthy demo_id)
      as [_ Hfailure].
    destruct (Hfailure (AgentError "Agent execution failed")
                  (snd (execute_step Demo.env_failing Demo.request Demo.classification
                          (fst Demo.prompts) (snd Demo.prompts) Demo.world_started)))
        as (wf & ex' & t & Hrun & _ & _ & _ & Hwrites & _).
    + vm_compute. reflexivity.
    + rewrite Hrun. cbn [snd]. rewrite Hwrites. reflexivity.
Defined.

(** ** The regular expression of the classifier *)

Import Text.
Local Open Scope list_scope.

Lemma from_first_Some c s suffix :
  from_first c s = Some suffix ->
  exists pre rest, s = pre ++ (c :: rest) /\ (c ∉ pre) /\ suffix = c :: rest.
Proof.
  induction s as [|x s IH]; [discriminate|]. simpl.
  destruct (Ascii.eqb_spec x c) as [->|Hne].
  - intros [= <-]. exists [], s. split; [done|]. split; [apply not_elem_of_nil|done].
  - intros (pre & rest & -> & Hpre & ->)%IH.
    exists (x :: pre), rest. split; [done|]. split; [|done].
    apply not_elem_of_cons. split; [congruence|done].
Qed.

Lemma from_first_app c pre rest :
  c ∉ pre -> from_first c (pre ++ (c :: rest)) = Some (c :: rest).
Proof.
  induction pre as [|x pre IH]; simpl.
  - intros _. by rewrite Ascii.eqb_refl.
  - intros [Hne Hpre]%not_elem_of_cons.
    destruct (Ascii.eqb_spec x c) as [->|_]; [done|]. by apply IH.
Qed.

Lemma upto_last_absent c s : c ∉ s -> upto_last c s = None.
Proof.
  induction s as [|x s IH]; [done|]. simpl.
  intros [Hne Hs]%not_elem_of_cons. rewrite (IH Hs).
  destruct (Ascii.eqb_spec x c) as [->|_]; done.
Qed.

Lemma upto_last_Some c s p :
  upto_last c s = Some p ->
  exists mid post, s = mid ++ (c :: post) /\ (c ∉ post) /\ p = mid ++ [c].
Proof.
  revert p. induction s as [|x s IH]; [discriminate|]. simpl. intros p.
  destruct (upto_last c s) as [p'|] eqn:Hrest.
  - intros [= <-]. destruct (IH p' eq_refl) as (mid & post & -> & Hpost & ->).
    by exists (x :: mid), post.
  - destruct (Ascii.eqb_spec x c) as [->|Hne]; [|discriminate].
    intros [= <-]. exists [], s. split; [done|]. split; [|done].
    intros Hin. clear IH. induction s as [|y s IHs]; [by apply not_elem_of_nil in Hin|].
    simpl in Hrest. destruct (upto_last c s) as [q|] eqn:Hq; [discriminate|].
    destruct (Ascii.eqb_spec y c) as [->|Hne]; [discriminate|].
    apply elem_of_cons in Hin as [->|Hin]; [done|]. by apply IHs.
Qed.

Lemma upto_last_app c mid post :
  c ∉ post -> upto_last c (mid ++ (c :: post)) = Some (mid ++ [c]).
Proof.
  intros Hpost. induction mid as [|x mid IH]; simpl.
  - by rewrite (upto_last_absent c post Hpost), Ascii.eqb_refl.
  - by rewrite IH.
Qed.

Lemma chars_text l : chars (text l) = l.
Proof. apply list_ascii_of_string_of_list_ascii. Qed.

Lemma text_chars s : text (chars s) = s.
Proof. apply string_of_list_ascii_of_string. Qed.

(** The match of the regular expression: from the first opening brace to
    the last closing brace after it. *)
Lemma match_braces_spec s m :
  match_braces s = Some m <->
  exists pre mid post,
    chars s = pre ++ (lbrace :: mid ++ (rbrace :: post)) /\
    (lbrace ∉ pre) /\ (rbrace ∉ post) /\
    chars m = lbrace :: (mid ++ [rbrace]).
Proof.
  unfold match_braces. split.
  - destruct (from_first lbrace (chars s)) as [suffix|] eqn:Hfirst; [|discriminate].
    destruct (from_first_Some _ _ _ Hfirst) as (pre & rest & Hs & Hpre & ->).
    destruct (upto_last rbrace (lbrace :: rest)) as [p|] eqn:Hlast; [|discriminate].
    intros [= <-].
    destruct (upto_last_Some _ _ _ Hlast) as (mid & post & Hsplit & Hpost & ->).
    destruct mid as [|y mid]; [discriminate|].
    simpl in Hsplit. injection Hsplit as <- ->.
    exists pre, mid, post. rewrite chars_text. auto.
  - intros (pre & mid & post & Hs & Hpre & Hpost & Hm).
    rewrite Hs, (from_first_app _ _ _ Hpre).
    change (lbrace :: mid ++ (rbrace :: post)) with ((lbrace :: mid) ++ (rbrace :: post)).
    rewrite (upto_last_app _ _ _ Hpost). simpl. f_equal.
    by rewrite <- (text_chars m), Hm.
Qed.

Lemma match_braces_None s :
  match_braces s = None <->
  ~ exists pre mid post, chars s = pre ++ (lbrace :: mid ++ (rbrace :: post)).
Proof.
  split.
  - intros Hnone (pre & mid & post & Hs).
    (* cut at the first opening and the last closing brace *)
    assert (Hex : exists m, match_braces s = Some m); [|destruct Hex; congruence].
    clear Hnone. unfold match_braces.
    assert (Hin : lbrace ∈ chars s).
    { rewrite Hs. apply elem_of_app. right. apply list_elem_of_here. }
    destruct (from_first lbrace (chars s)) as [suffix|] eqn:Hfirst.
    + destruct (from_first_Some _ _ _ Hfirst) as (pre' & rest' & Hs' & Hpre' & ->).
      assert (Hr : rbrace ∈ lbrace :: rest').
      { (* the closing brace lies after the first opening brace *)
        assert (Hlen : (length pre' <= length pre)%nat).
        { destruct (decide (length pre' <= length pre)%nat) as [|Hgt]; [done|].
          exfalso. apply Hpre'.
          assert (Hlook : (pre' ++ (lbrace :: rest')) !! length pre = Some lbrace).
          { rewrite <- Hs', Hs. by rewrite list_lookup_middle. }
          rewrite lookup_app_l in Hlook by lia.
          by eapply list_elem_of_lookup_2. }
        assert (Hdrop : drop (length pre') (chars s) = lbrace :: rest').
        { rewrite Hs'. by rewrite drop_app_length. }
        rewrite <- Hdrop, Hs.
        rewrite drop_app_le by done.
        apply elem_of_app. right.
        apply elem_of_cons. right. apply elem_of_app. right. apply list_elem_of_here. }
      destruct (upto_last rbrace (lbrace :: rest')) as [p|] eqn:Hlast; [by eexists|].
      exfalso. revert Hr Hlast. generalize (lbrace :: rest'). clear.
      intros l. induction l as [|x l IH]; [by intros ?%not_elem_of_nil|].
      simpl. intros [<-|Hin]%elem_of_cons.
      * destruct (upto_last rbrace l); [discriminate|]. by rewrite Ascii.eqb_refl.
      * destruct (upto_last rbrace l); [discriminate|]. by destruct (IH Hin).
    + exfalso. revert Hin Hfirst. generalize (chars s). clear.
      intros l. induction l as [|x l IH]; [by intros ?%not_elem_of_nil|].
      simpl. intros [<-|Hin]%elem_of_cons.
      * by rewrite Ascii.eqb_refl.
      * destruct (Ascii.eqb x lbrace); [discriminate|]. by apply IH.
  - intros Hno. destruct (match_braces s) as [m|] eqn:Hm; [|done].
    destruct Hno. apply match_braces_spec in Hm as (pre & mid & post & Hs & _).
    by exists pre, mid, post.
Qed.

(** ** The classifier *)

Local Open Scope string_scope.

Lemma getAllWorkflows_outage w :
  storage_down w = true ->
  exists w', getAllWorkflows w = (Ret [], w') /\ db w' = db w /\ log w' = log w.
Proof.
  unfold storage_down. intros Hdown.
  unfold getAllWorkflows, try_catch, bind, getPrismaClient.
  destruct (client_error w) as [f|] eqn:Hclient.
  - eexists. split; [reflexivity|]. auto.
  - destruct (faults w) as [|[f|] rest] eqn:Hfaults; try discriminate.
    unfold atomically, skill_findMany_active, bind, round_trip. rewrite Hfaults.
    eexists. split; [reflexivity|]. auto.
Qed.

Lemma getWorkflowById_outage id w :
  storage_down w = true ->
  exists w', getWorkflowById id w = (Ret None, w') /\ db w' = db w /\ log w' = log w.
Proof.
  unfold storage_down. intros Hdown.
  unfold getWorkflowById, try_catch, bind, getPrismaClient.
  destruct (client_error w) as [f|] eqn:Hclient.
  - eexists. split; [reflexivity|]. auto.
  - destruct (faults w) as [|[f|] rest] eqn:Hfaults; try discriminate.
    unfold atomically, skill_findUnique, bind, round_trip. rewrite Hfaults.
    eexists. split; [reflexivity|]. auto.
Qed.

(** A catalog without an active skill reads as the empty list. *)
Lemma getAllWorkflows_none_active w :
  storage_down w = false ->
  (forall id skill, skills (db w) !! id = Some skill -> sk_isActive skill = false) ->
  exists w', getAllWorkflows w = (Ret [], w') /\ db w' = db w /\ log w' = log w.
Proof.
  unfold storage_down. intros Hup Hnone.
  unfold getAllWorkflows, try_catch, bind, getPrismaClient.
  destruct (client_error w) as [f|] eqn:Hclient; [discriminate|].
  unfold atomically, skill_findMany_active, bind, round_trip, read_db.
  assert (Hfilter :
    filter (fun s => sk_isActive s = true) (map snd (map_to_list (skills (db w)))) = []).
  { destruct (filter _ _) as [|s l] eqn:Hf; [done|]. exfalso.
    assert (Hin : s ∈ filter (fun s => sk_isActive s = true)
                        (map snd (map_to_list (skills (db w))))).
    { rewrite Hf. apply list_elem_of_here. }
    apply list_elem_of_filter in Hin as [Hactive Hin].
    apply list_elem_of_fmap in Hin as ([id s'] & -> & Hin).
    apply elem_of_map_to_list in Hin. simpl in Hactive.
    rewrite (Hnone _ _ Hin) in Hactive. discriminate. }
  destruct (faults w) as [|[f|] rest] eqn:Hfaults; try discriminate.
  all: cbn; rewrite Hfilter; eexists; split; [reflexivity|]; auto.
Qed.

Lemma classifyWorkflow_total env userPrompt w :
  exists r w', classifyWorkflow env userPrompt w = (Ret r, w').
Proof.
  unfold classifyWorkflow, try_catch.
  destruct (classify_body env userPrompt w) as [[r|e] w']; eauto.
Qed.

Lemma classifyWorkflow_caught env userPrompt w e w' :
  classify_body env userPrompt w = (Throw e, w') ->
  classifyWorkflow env userPrompt w = (Ret no_match, w').
Proof. intros H. unfold classifyWorkflow, try_catch. by rewrite H. Qed.

Lemma classifyWorkflow_empty_catalog env userPrompt w w' :
  getAllWorkflows w = (Ret [], w') ->
  classifyWorkflow env userPrompt w = (Ret no_match, w').
Proof.
  intros Hget. unfold classifyWorkflow, try_catch, classify_body, bind. by rewrite Hget.
Qed.

Lemma parse_failure_none env response :
  (match_braces response ≫= JSON_parse env) = None ->
  parseClassificationResponse env response = parsed_none.
Proof.
  unfold parseClassificationResponse.
  destruct (match_braces response) as [m|]; simpl; [|done].
  by intros ->.
Qed.

Lemma resolve_parsed_none env workflows w :
  resolve env workflows parsed_none w = (Ret no_match, w).
Proof. reflexivity. Qed.

(** The run of [classifyWorkflow] up to the reply of the capability. *)
Section Replied.
Variable env : Env.
Variable userPrompt : string.
Variables (w w1 w2 : World) (x : WorkflowSummary) (ws : list WorkflowSummary).
Hypothesis Hcatalog : getAllWorkflows w = (Ret (x :: ws), w1).

Lemma classify_no_key e :
  getAnthropicClient env w1 = (Throw e, w2) ->
  classifyWorkflow env userPrompt w = (Ret no_match, w2).
Proof.
  intros Hkey. apply classifyWorkflow_caught with e.
  unfold classify_body, bind. by rewrite Hcatalog, Hkey.
Qed.

Variable key : string.
Hypothesis Hkey : getAnthropicClient env w1 = (Ret key, w2).

Let request := classificationPrompt (x :: ws) userPrompt.

Lemma classify_capability_fails f :
  messages_create env request = inl f ->
  fst (classifyWorkflow env userPrompt w) = Ret no_match.
Proof.
  intros Hllm. unfold classifyWorkflow, try_catch, classify_body, bind.
  rewrite Hcatalog, Hkey. unfold capability. fold request. by rewrite Hllm.
Qed.

Lemma classify_no_text blocks :
  messages_create env request = inr blocks ->
  (forall response rest, blocks <> TextBlock response :: rest) ->
  fst (classifyWorkflow env userPrompt w) = Ret no_match.
Proof.
  intros Hllm Hnot. unfold classifyWorkflow, try_catch, classify_body, bind.
  rewrite Hcatalog, Hkey. unfold capability. fold request. rewrite Hllm.
  destruct blocks as [|[response|ty] rest]; try reflexivity.
  by destruct (Hnot response rest).
Qed.

Variables (response : string) (rest : list ContentBlock).
Hypothesis Hllm : messages_create env request = inr (TextBlock response :: rest).

Let w3 := snd (capability "anthropic.messages.create" request
                 (messages_create env request) w2).

Lemma classify_after_reply :
  classifyWorkflow env userPrompt w =
  try_catch (resolve env (x :: ws) (parseClassificationResponse env response))
    (fun _ => ret no_match) w3.
Proof.
  unfold classifyWorkflow, try_catch, classify_body, bind.
  rewrite Hcatalog, Hkey. subst w3. unfold capability. fold request.
  by rewrite Hllm.
Qed.

Lemma classify_unparsable :
  (match_braces response ≫= JSON_parse env) = None ->
  classifyWorkflow env userPrompt w = (Ret no_match, w3).
Proof.
  intros Hparse. rewrite classify_after_reply.
  by rewrite (parse_failure_none _ _ Hparse).
Qed.

Lemma classify_name_not_text :
  truthy (p_match (parseClassificationResponse env response)) = true ->
  truthy (p_workflowName (parseClassificationResponse env response)) = true ->
  (forall name, p_workflowName (parseClassificationResponse env response) <> JStr name) ->
  classifyWorkflow env userPrompt w = (Ret no_match, w3).
Proof.
  intros Hmatch Hname Hnot. rewrite classify_after_reply.
  unfold try_catch, resolve. rewrite Hmatch, Hname. cbn [negb orb].
  destruct (p_workflowName (parseClassificationResponse env response)) as [| | | |name| |];
    try reflexivity.
  by destruct (Hnot name).
Qed.

Variable name : string.
Hypothesis Hmatch : truthy (p_match (parseClassificationResponse env response)) = true.
Hypothesis Hname : p_workflowName (parseClassificationResponse env response) = JStr name.
Hypothesis Hnonempty : name <> EmptyString.

Let same_name (c : WorkflowSummary) : bool :=
  String.eqb (toLowerCase env (ws_name c)) (toLowerCase env name).

Lemma classify_resolved matchedWorkflow :
  find same_name (x :: ws) = Some matchedWorkflow ->
  classifyWorkflow env userPrompt w =
    match getWorkflowById (ws_id matchedWorkflow) w3 with
    | (Ret (Some data), w4) =>
        (Ret {| workflowId := Some (wf_id data); workflowData := Some data;
                confidence :=
                  or_else (p_confidence (parseClassificationResponse env response))
                    (JStr "medium");
                reasoning := p_reasoning (parseClassificationResponse env response) |},
         w4)
    | (_, w4) => (Ret no_match, w4)
    end.
Proof.
  intros Hfind. rewrite classify_after_reply.
  unfold try_catch, resolve. rewrite Hmatch, Hname. cbn [truthy].
  apply String.eqb_neq in Hnonempty. rewrite Hnonempty. cbn [negb orb].
  fold same_name. rewrite Hfind. unfold bind.
  by destruct (getWorkflowById (ws_id matchedWorkflow) w3) as [[[data|]|e] w4].
Qed.

Lemma classify_unresolved :
  find same_name (x :: ws) = None ->
  classifyWorkflow env userPrompt w =
    (Ret {| workflowId := None; workflowData := None; confidence := JStr "none";
            reasoning := JStr "Suggested workflow not found in database" |}, w3).
Proof.
  intros Hfind. rewrite classify_after_reply.
  unfold try_catch, resolve. rewrite Hmatch, Hname. cbn [truthy].
  apply String.eqb_neq in Hnonempty. rewrite Hnonempty. cbn [negb orb].
  fold same_name. by rewrite Hfind.
Qed.

Lemma classify_fetch_fails matchedWorkflow :
  find same_name (x :: ws) = Some matchedWorkflow ->
  storage_down w3 = true ->
  fst (classifyWorkflow env userPrompt w) = Ret no_match.
Proof.
  intros Hfind Hdown. rewrite (classify_resolved _ Hfind).
  destruct (getWorkflowById_outage (ws_id matchedWorkflow) w3 Hdown) as (w4 & -> & _).
  reflexivity.
Qed.

End Replied.

Lemma find_first {A} (f : A -> bool) pre c post :
  (forall c', c' ∈ pre -> f c' = false) -> f c = true ->
  find f (pre ++ c :: post)%list = Some c.
Proof.
  intros Hpre Hc. induction pre as [|y pre IH]; simpl.
  - by rewrite Hc.
  - rewrite (Hpre y) by apply list_elem_of_here.
    apply IH. intros c' Hin. apply Hpre. by apply list_elem_of_further.
Qed.

Lemma find_absent {A} (f : A -> bool) l :
  (forall c, c ∈ l -> f c = false) -> find f l = None.
Proof.
  intros Hl. induction l as [|y l IH]; [done|]. simpl.
  rewrite (Hl y) by apply list_elem_of_here.
  apply IH. intros c Hin. apply Hl. by apply list_elem_of_further.
Qed.

(** C6 (as amended). What [parseClassificationResponse] hands to the JSON
    parser is the span of the response from its first opening brace to
    its last closing brace: text before the first opening brace and after
    the last closing brace is dropped, there is no such span exactly when
    no closing brace follows an opening one, and the fields of the result
    are read from the parsed span.  When there is no span or the span does
    not parse, the parsed response is the no-match one and
    [classifyWorkflow] returns the {none} result. *)
Theorem parse_takes_outer_braces env response :
  (forall m,
      match_braces response = Some m <->
      exists pre mid post,
        chars response = (pre ++ (lbrace :: mid ++ (rbrace :: post)))%list /\
        (lbrace ∉ pre) /\ (rbrace ∉ post) /\
        chars m = lbrace :: (mid ++ [rbrace])%list)
  /\ (match_braces response = None <->
      ~ exists pre mid post,
          chars response = (pre ++ (lbrace :: mid ++ (rbrace :: post)))%list)
  /\ parseClassificationResponse env response =
       match match_braces response ≫= JSON_parse env with
       | Some parsed =>
           {| p_match := nullish (prop parsed "match") (JBool false);
              p_workflowName := nullish (prop parsed "workflowName") JNull;
              p_confidence := nullish (prop parsed "confidence") (JStr "none");
              p_reasoning := prop parsed "reasoning" |}
       | None => parsed_none
       end
  /\ ((match_braces response ≫= JSON_parse env) = None ->
      parseClassificationResponse env response = parsed_none /\
      forall userPrompt w w1 w2 x ws key rest,
        getAllWorkflows w = (Ret (x :: ws), w1) ->
        getAnthropicClient env w1 = (Ret key, w2) ->
        messages_create env (classificationPrompt (x :: ws) userPrompt)
          = inr (TextBlock response :: rest) ->
        fst (classifyWorkflow env userPrompt w) = Ret no_match).
Proof.
  split; [intros m; apply match_braces_spec|].
  split; [apply match_braces_None|].
  split.
  - unfold parseClassificationResponse.
    destruct (match_braces response) as [m|]; simpl; [|done].
    by destruct (JSON_parse env m).
  - intros Hparse. split; [by apply parse_failure_none|].
    intros userPrompt w w1 w2 x ws key rest Hcatalog Hkey Hllm.
    by rewrite (classify_unparsable env userPrompt w w1 w2 x ws Hcatalog key Hkey
                  response rest Hllm Hparse).
Qed.

Lemma demo_catalog :
  getAllWorkflows Demo.world
  = (Ret [Demo.daily_report_summary], snd (getAllWorkflows Demo.world)).
Proof. vm_compute. reflexivity. Qed.

Lemma demo_key env :
  ANTHROPIC_API_KEY env = Some "sk-ant-from-environment" ->
  getAnthropicClient env (snd (getAllWorkflows Demo.world))
  = (Ret "sk-ant-from-environment",
     snd (getAnthropicClient env (snd (getAllWorkflows Demo.world)))).
Proof.
  intros Henv. unfold getAnthropicClient, bind, Config.getAnthropicApiKey, try_catch, bind.
  rewrite Henv. vm_compute. reflexivity.
Qed.

(** The chatty reply of the scenario: its brace span does not parse, so
    the classification is {none}. *)
Lemma parse_takes_outer_braces_witness :
  parseClassificationResponse Demo.env_chatty Demo.chatty_reply = parsed_none
  /\ fst (classifyWorkflow Demo.env_chatty "Please run the daily report" Demo.world)
     = Ret no_match.
Proof.
  destruct (parse_takes_outer_braces Demo.env_chatty Demo.chatty_reply)
    as (_ & _ & _ & Hnone).
  destruct Hnone as [Hparsed Hclassified]; [vm_compute; reflexivity|].
  split; [exact Hparsed|].
  apply (Hclassified "Please run the daily report" Demo.world
           (snd (getAllWorkflows Demo.world))
           (snd (getAnthropicClient Demo.env_chatty (snd (getAllWorkflows Demo.world))))
           Demo.daily_report_summary [] "sk-ant-from-environment" []).
  - exact demo_catalog.
  - apply demo_key. reflexivity.
  - reflexivity.
Defined.

(** C6 fails as stated: the chatty reply starts with a balanced JSON
    object that parses and names the skill of the catalog, yet the
    classifier does not extract it: the span it takes runs on to the last
    closing brace of the prose, does not parse (text follows the object),
    and the request is classified {none}; with the reply cut after the
    object the same request is classified as the skill. *)
Lemma first_object_not_extracted :
  first_balanced_object Demo.chatty_reply
    = Some (Text.text (drop 11 (Text.chars Demo.daily_report_reply)))
  /\ Json.parse (Text.text (drop 11 (Text.chars Demo.daily_report_reply)))
     = Some (JObj [("match", JBool true); ("workflowName", JStr "Daily Report");
                   ("confidence", JStr "high")])
  /\ match_braces Demo.chatty_reply
     = Some (Text.text (removelast (drop 11 (Text.chars Demo.chatty_reply))))
  /\ Json.value 200 (removelast (drop 11 (Text.chars Demo.chatty_reply)))
     = Some (JObj [("match", JBool true); ("workflowName", JStr "Daily Report");
                   ("confidence", JStr "high")],
             Text.chars " I chose it because {it fits}")
  /\ Json.parse (Text.text (removelast (drop 11 (Text.chars Demo.chatty_reply)))) = None
  /\ ~ extracts_first_object Demo.chatty_reply
  /\ fst (classifyWorkflow Demo.env_chatty "Please run the daily report" Demo.world)
     = Ret no_match
  /\ fst (classifyWorkflow Demo.env "Please run the daily report" Demo.world)
     = Ret Demo.classification.
Proof.
  split; [vm_compute; reflexivity|].
  split; [vm_compute; reflexivity|].
  split; [vm_compute; reflexivity|].
  split; [vm_compute; reflexivity|].
  split; [vm_compute; reflexivity|].
  split.
  - intros Hclaim.
    specialize (Hclaim (Text.text (drop 11 (Text.chars Demo.daily_report_reply)))).
    vm_compute in Hclaim. specialize (Hclaim eq_refl). discriminate.
  - split; vm_compute; reflexivity.
Qed.

(** C7 (as amended). When the reply of the capability claims a match
    (its [match] and its [workflowName] are both truthy):
    - if the name is a string, [classifyWorkflow] looks it up in the
      catalog by comparing lower-cased names for equality and takes the
      first entry that agrees: it then fetches that workflow by id and
      returns it as the match (or {none} when the fetch gives nothing);
      when no entry of the catalog agrees, it returns the {none} result
      with the reasoning "Suggested workflow not found in database";
    - if the name is not a string (a number, [true], an array or an
      object), lower-casing it fails, the failure is caught, and the
      result is the {none} result without a reasoning note.
    In every case it returns; nothing is thrown. *)
Theorem classify_resolves_by_lowercase_name
    env userPrompt w w1 w2 x ws key response rest :
  getAllWorkflows w = (Ret (x :: ws), w1) ->
  getAnthropicClient env w1 = (Ret key, w2) ->
  messages_create env (classificationPrompt (x :: ws) userPrompt)
    = inr (TextBlock response :: rest) ->
  truthy (p_match (parseClassificationResponse env response)) = true ->
  truthy (p_workflowName (parseClassificationResponse env response)) = true ->
  let w3 := snd (capability "anthropic.messages.create"
                   (classificationPrompt (x :: ws) userPrompt)
                   (messages_create env (classificationPrompt (x :: ws) userPrompt)) w2) in
  match p_workflowName (parseClassificationResponse env response) with
  | JStr name =>
      (forall pre c post,
          x :: ws = (pre ++ c :: post)%list ->
          (forall c', c' ∈ pre -> toLowerCase env (ws_name c') <> toLowerCase env name) ->
          toLowerCase env (ws_name c) = toLowerCase env name ->
          classifyWorkflow env userPrompt w =
            match getWorkflowById (ws_id c) w3 with
            | (Ret (Some data), w4) =>
                (Ret {| workflowId := Some (wf_id data); workflowData := Some data;
                        confidence :=
                          or_else (p_confidence (parseClassificationResponse env response))
                            (JStr "medium");
                        reasoning := p_reasoning (parseClassificationResponse env response) |},
                 w4)
            | (_, w4) => (Ret no_match, w4)
            end)
      /\ ((forall c, c ∈ x :: ws -> toLowerCase env (ws_name c) <> toLowerCase env name) ->
          classifyWorkflow env userPrompt w =
            (Ret {| workflowId := None; workflowData := None; confidence := JStr "none";
                    reasoning := JStr "Suggested workflow not found in database" |}, w3))
  | _ => classifyWorkflow env userPrompt w = (Ret no_match, w3)
  end.
Proof.
  intros Hcatalog Hkey Hllm Hmatch Htruthy w3.
  destruct (p_workflowName (parseClassificationResponse env response))
    as [| | | |name| |] eqn:Hname;
    try (apply (classify_name_not_text env userPrompt w w1 w2 x ws Hcatalog key Hkey
                  response rest Hllm Hmatch); [by rewrite Hname|by rewrite Hname]).
  assert (Hnonempty : name <> EmptyString).
  { intros ->. discriminate Htruthy. }
  split.
  - intros pre c post Hsplit Hpre Hc.
    apply (classify_resolved env userPrompt w w1 w2 x ws Hcatalog key Hkey response rest
             Hllm name Hmatch Hname Hnonempty).
    rewrite Hsplit. apply find_first.
    + intros c' Hin. apply String.eqb_neq. by apply Hpre.
    + by apply String.eqb_eq.
  - intros Hnone.
    apply (classify_unresolved env userPrompt w w1 w2 x ws Hcatalog key Hkey response rest
             Hllm name Hmatch Hname Hnonempty).
    apply find_absent. intros c Hin. apply String.eqb_neq. by apply Hnone.
Qed.

Lemma demo_catalog_other :
  getAllWorkflows Demo.world_other
  = (Ret [{| ws_id := "skill-2"; ws_name := "Weekly Digest";
             ws_description := EmptyString |}],
     snd (getAllWorkflows Demo.world_other)).
Proof. vm_compute. reflexivity. Qed.

Lemma demo_reply_name :
  p_workflowName (parseClassificationResponse Demo.env Demo.daily_report_reply)
  = JStr "Daily Report".
Proof. vm_compute. reflexivity. Qed.

Lemma demo_numeric_name :
  p_workflowName (parseClassificationResponse Demo.env_numeric Demo.numeric_reply)
  = JNum 5 0.
Proof. vm_compute. reflexivity. Qed.

(** The example of the specification: the reply names "Daily Report"; with
    the skill "daily report" in the catalog the request is classified as
    that skill, with only "Weekly Digest" in the catalog it is {none} with
    the reasoning note.  And a reply that names the number 5 gives {none}
    without a note. *)
Lemma classify_resolves_by_lowercase_name_witness :
  fst (classifyWorkflow Demo.env "Please run the daily report" Demo.world)
    = Ret {| workflowId := Some "skill-1"; workflowData := Some Demo.workflow;
             confidence := JStr "high"; reasoning := JUndefined |}
  /\ fst (classifyWorkflow Demo.env "Please run the daily report" Demo.world_other)
    = Ret {| workflowId := None; workflowData := None; confidence := JStr "none";
             reasoning := JStr "Suggested workflow not found in database" |}
  /\ fst (classifyWorkflow Demo.env_numeric "Please run the daily report" Demo.world)
    = Ret no_match.
Proof.
  split; [|split].
  - pose proof (classify_resolves_by_lowercase_name Demo.env "Please run the daily report"
                  Demo.world (snd (getAllWorkflows Demo.world))
                  (snd (getAnthropicClient Demo.env (snd (getAllWorkflows Demo.world))))
                  Demo.daily_report_summary [] "sk-ant-from-environment"
                  Demo.daily_report_reply []
                  demo_catalog (demo_key Demo.env eq_refl) eq_refl) as Hthm.
    cbv zeta in Hthm. rewrite demo_reply_name in Hthm.
    destruct Hthm as [Hfound _].
    + vm_compute. reflexivity.
    + reflexivity.
    + rewrite (Hfound [] Demo.daily_report_summary []).
      * vm_compute. reflexivity.
      * reflexivity.
      * intros c' Hin. destruct (not_elem_of_nil c' Hin).
      * vm_compute. reflexivity.
  - pose proof (classify_resolves_by_lowercase_name Demo.env "Please run the daily report"
                  Demo.world_other (snd (getAllWorkflows Demo.world_other))
                  (snd (getAnthropicClient Demo.env (snd (getAllWorkflows Demo.world_other))))
                  {| ws_id := "skill-2"; ws_name := "Weekly Digest";
                     ws_description := EmptyString |} []
                  "sk-ant-from-environment" Demo.daily_report_reply []
                  demo_catalog_other) as Hthm.
    cbv zeta in Hthm. rewrite demo_reply_name in Hthm.
    destruct Hthm as [_ Hmissing].
    + vm_compute. reflexivity.
    + reflexivity.
    + vm_compute. reflexivity.
    + reflexivity.
    + rewrite Hmissing; [reflexivity|].
      intros c Hin. apply elem_of_cons in Hin as [->|Hin];
        [|destruct (not_elem_of_nil c Hin)].
      vm_compute. discriminate.
  - pose proof (classify_resolves_by_lowercase_name Demo.env_numeric
                  "Please run the daily report"
                  Demo.world (snd (getAllWorkflows Demo.world))
                  (snd (getAnthropicClient Demo.env_numeric
                          (snd (getAllWorkflows Demo.world))))
                  Demo.daily_report_summary [] "sk-ant-from-environment"
                  Demo.numeric_reply []
                  demo_catalog (demo_key Demo.env_numeric eq_refl) eq_refl) as Hthm.
    cbv zeta in Hthm. rewrite demo_numeric_name in Hthm.
    rewrite Hthm; [reflexivity|vm_compute; reflexivity|reflexivity].
Defined.

(** C7 fails as stated: the reply of this scenario claims a match and
    gives the number 5 for the name, which resolves to no entry of the
    catalog; the result is the {none} result, but it carries no reasoning
    note. *)
Lemma name_not_text_gets_no_note :
  truthy (p_match (parseClassificationResponse Demo.env_numeric Demo.numeric_reply)) = true
  /\ p_workflowName (parseClassificationResponse Demo.env_numeric Demo.numeric_reply)
     = JNum 5 0
  /\ (forall c, c ∈ [Demo.daily_report_summary] -> JStr (ws_name c) <> JNum 5 0)
  /\ fst (classifyWorkflow Demo.env_numeric "Please run the daily report" Demo.world)
     = Ret no_match
  /\ ~ none_with_note no_match.
Proof.
  split; [vm_compute; reflexivity|].
  split; [exact demo_numeric_name|].
  split; [intros c _; discriminate|].
  split; [vm_compute; reflexivity|].
  intros (_ & _ & _ & note & Hnote). discriminate Hnote.
Qed.

(** C8. [classifyWorkflow] returns for every prompt in every world and
    environment; whenever the body of its [try] throws, what it returns
    is the {none} result.  In particular the result is {none} when the
    catalog cannot be fetched, when no API key can be had, when the call
    of the language capability fails or answers without a text block,
    when no JSON object can be parsed from the answer, when the claimed
    name is not a string, and when the matched workflow cannot be fetched. *)
Theorem classifyWorkflow_never_throws env userPrompt w :
  (exists r w', classifyWorkflow env userPrompt w = (Ret r, w'))
  /\ (forall e w', classify_body env userPrompt w = (Throw e, w') ->
        classifyWorkflow env userPrompt w = (Ret no_match, w'))
  /\ (storage_down w = true -> fst (classifyWorkflow env userPrompt w) = Ret no_match)
  /\ (forall x ws w1,
        getAllWorkflows w = (Ret (x :: ws), w1) ->
        (forall e w2, getAnthropicClient env w1 = (Throw e, w2) ->
           fst (classifyWorkflow env userPrompt w) = Ret no_match)
        /\ (forall key w2,
              getAnthropicClient env w1 = (Ret key, w2) ->
              (forall f,
                  messages_create env (classificationPrompt (x :: ws) userPrompt) = inl f ->
                  fst (classifyWorkflow env userPrompt w) = Ret no_match)
              /\ (forall blocks,
                  messages_create env (classificationPrompt (x :: ws) userPrompt)
                    = inr blocks ->
                  (forall response rest, blocks <> TextBlock response :: rest) ->
                  fst (classifyWorkflow env userPrompt w) = Ret no_match)
              /\ (forall response rest,
                  messages_create env (classificationPrompt (x :: ws) userPrompt)
                    = inr (TextBlock response :: rest) ->
                  ((match_braces response ≫= JSON_parse env) = None ->
                   fst (classifyWorkflow env userPrompt w) = Ret no_match)
                  /\ (truthy (p_match (parseClassificationResponse env response)) = true ->
                      truthy (p_workflowName (parseClassificationResponse env response))
                        = true ->
                      (forall name,
                          p_workflowName (parseClassificationResponse env response)
                            <> JStr name) ->
                      fst (classifyWorkflow env userPrompt w) = Ret no_match)
                  /\ (forall name matchedWorkflow,
                      truthy (p_match (parseClassificationResponse env response)) = true ->
                      p_workflowName (parseClassificationResponse env response)
                        = JStr name ->
                      name <> EmptyString ->
                      find (fun c => String.eqb (toLowerCase env (ws_name c))
                                       (toLowerCase env name)) (x :: ws)
                        = Some matchedWorkflow ->
                      storage_down
                        (snd (capability "anthropic.messages.create"
                                (classificationPrompt (x :: ws) userPrompt)
                                (messages_create env
                                   (classificationPrompt (x :: ws) userPrompt)) w2))
                        = true ->
                      fst (classifyWorkflow env userPrompt w) = Ret no_match)))).
Proof.
  split; [apply classifyWorkflow_total|].
  split; [apply classifyWorkflow_caught|].
  split.
  { intros Hdown. destruct (getAllWorkflows_outage w Hdown) as (w' & Hget & _).
    by rewrite (classifyWorkflow_empty_catalog env userPrompt w w' Hget). }
  intros x ws w1 Hcatalog. split.
  { intros e w2 Hkey.
    by rewrite (classify_no_key env userPrompt w w1 w2 x ws Hcatalog e Hkey). }
  intros key w2 Hkey. split.
  { intros f. apply (classify_capability_fails env userPrompt w w1 w2 x ws Hcatalog key Hkey). }
  split.
  { intros blocks.
    apply (classify_no_text env userPrompt w w1 w2 x ws Hcatalog key Hkey). }
  intros response rest Hllm. split.
  { intros Hparse.
    by rewrite (classify_unparsable env userPrompt w w1 w2 x ws Hcatalog key Hkey
                  response rest Hllm Hparse). }
  split.
  { intros Hmatch Hname Hnot.
    by rewrite (classify_name_not_text env userPrompt w w1 w2 x ws Hcatalog key Hkey
                  response rest Hllm Hmatch Hname Hnot). }
  intros name matchedWorkflow Hmatch Hname Hnonempty Hfind Hdown.
  apply (classify_fetch_fails env userPrompt w w1 w2 x ws Hcatalog key Hkey response rest
           Hllm name Hmatch Hname Hnonempty matchedWorkflow Hfind Hdown).
Qed.

(** The scenario with the storage layer down, and with the language
    capability failing. *)
Lemma classifyWorkflow_never_throws_witness :
  fst (classifyWorkflow Demo.env "Please run the daily report" Demo.world_outage)
    = Ret no_match
  /\ fst (classifyWorkflow Demo.env_mute "Please run the daily report" Demo.world)
    = Ret no_match.
Proof.
  split.
  - apply (proj1 (proj2 (proj2 (classifyWorkflow_never_throws Demo.env
                                  "Please run the daily report" Demo.world_outage)))).
    reflexivity.
  - destruct (classifyWorkflow_never_throws Demo.env_mute "Please run the daily report"
                Demo.world) as (_ & _ & _ & Hreach).
    destruct (Hreach Demo.daily_report_summary [] (snd (getAllWorkflows Demo.world))
                demo_catalog) as [_ Hkeyed].
    destruct (Hkeyed "sk-ant-from-environment"
                (snd (getAnthropicClient Demo.env_mute (snd (getAllWorkflows Demo.world))))
                (demo_key Demo.env_mute eq_refl)) as [Hfails _].
    apply (Hfails Demo.overloaded). reflexivity.
Defined.

(** C10. When the storage layer fails while the catalog is fetched,
    [getAllWorkflows] returns the empty list and [classifyWorkflow]
    returns the {none} result without a call of the language capability
    (the log gains no entry).  A catalog without active skills, fetched
    from a working storage layer, gives the same: the two cannot be told
    apart by what [classifyWorkflow] returns or does. *)
Theorem catalog_outage_reads_as_empty env userPrompt w :
  storage_down w = true ->
  (exists w',
      getAllWorkflows w = (Ret [], w') /\
      classifyWorkflow env userPrompt w = (Ret no_match, w') /\
      log w' = log w)
  /\ (forall w0,
        storage_down w0 = false ->
        (forall id skill, skills (db w0) !! id = Some skill -> sk_isActive skill = false) ->
        exists w0',
          getAllWorkflows w0 = (Ret [], w0') /\
          classifyWorkflow env userPrompt w0 = (Ret no_match, w0') /\
          log w0' = log w0).
Proof.
  intros Hdown. split.
  - destruct (getAllWorkflows_outage w Hdown) as (w' & Hget & _ & Hlog).
    exists w'. split; [exact Hget|]. split; [|exact Hlog].
    by apply classifyWorkflow_empty_catalog.
  - intros w0 Hup Hnone.
    destruct (getAllWorkflows_none_active w0 Hup Hnone) as (w0' & Hget & _ & Hlog).
    exists w0'. split; [exact Hget|]. split; [|exact Hlog].
    by apply classifyWorkflow_empty_catalog.
Qed.

(** The scenario with the storage server unreachable, next to a world
    whose catalog is empty. *)
Lemma catalog_outage_reads_as_empty_witness :
  fst (getAllWorkflows Demo.world_outage) = Ret []
  /\ fst (classifyWorkflow Demo.env "Please run the daily report" Demo.world_outage)
     = Ret no_match
  /\ log (snd (classifyWorkflow Demo.env "Please run the daily report" Demo.world_outage))
     = []
  /\ fst (classifyWorkflow Demo.env "Please run the daily report" Demo.world_empty)
     = Ret no_match
  /\ log (snd (classifyWorkflow Demo.env "Please run the daily report" Demo.world_empty))
     = [].
Proof.
  destruct (catalog_outage_reads_as_empty Demo.env "Please run the daily report"
              Demo.world_outage eq_refl)
    as [(w' & Hget & Hclassify & Hlog) Hempty].
  destruct (Hempty Demo.world_empty eq_refl) as (w0' & _ & Hclassify0 & Hlog0).
  { intros id skill Hlookup. vm_compute in Hlookup. discriminate. }
  rewrite Hget, Hclassify, Hclassify0. repeat split; assumption.
Defined.

(** ** Base64 *)

Local Open Scope list_scope.

Lemma dec6_enc6 n : (n < 64)%N -> Base64.dec6 (Base64.enc6 n) = Some n.
Proof.
  intros Hn. rewrite <- (N2Nat.id n). assert (Hlt : (N.to_nat n < 64)%nat) by lia.
  revert Hlt. generalize (N.to_nat n). clear. intros k Hk.
  do 64 (destruct k as [|k]; [reflexivity|]). lia.
Qed.

Lemma enc6_not_colon n : Base64.enc6 n <> colon.
Proof.
  destruct (decide (n < 64)%N) as [Hn|Hn].
  - intros Heq. pose proof (dec6_enc6 n Hn) as Hdec. rewrite Heq in Hdec. discriminate.
  - unfold Base64.enc6.
    assert (Hnone : String.get (N.to_nat n) Base64.alphabet = None).
    { assert (Hge : (64 <= N.to_nat n)%nat) by lia.
      revert Hge. generalize (N.to_nat n). clear. intros k Hk.
      do 64 (destruct k as [|k]; [lia|]). reflexivity. }
    rewrite Hnone. discriminate.
Qed.

Lemma code_bound c : (code c < 256)%N.
Proof. apply N_ascii_bounded. Qed.

Lemma ascii_of_code c : ascii_of_N (code c) = c.
Proof. apply ascii_N_embedding. Qed.

Lemma sextets a b c :
  (a < 256)%N -> (b < 256)%N -> (c < 256)%N ->
  ((a / 4 < 64) /\ ((a mod 4) * 16 + b / 16 < 64) /\ ((b mod 16) * 4 + c / 64 < 64)
   /\ (c mod 64 < 64) /\ ((a mod 4) * 16 < 64) /\ ((b mod 16) * 4 < 64))%N.
Proof. intros Ha Hb Hc. repeat split; zify; Z.to_euclidean_division_equations; lia. Qed.

Lemma regroup a b c :
  (a < 256)%N -> (b < 256)%N -> (c < 256)%N ->
  ((a / 4) * 4 + ((a mod 4) * 16 + b / 16) / 16 = a /\
   (((a mod 4) * 16 + b / 16) mod 16) * 16 + ((b mod 16) * 4 + c / 64) / 4 = b /\
   (((b mod 16) * 4 + c / 64) mod 4) * 64 + c mod 64 = c /\
   (a / 4) * 4 + ((a mod 4) * 16) / 16 = a /\
   (((a mod 4) * 16 + b / 16) mod 16) * 16 + ((b mod 16) * 4) / 4 = b)%N.
Proof. intros Ha Hb Hc. repeat split; zify; Z.to_euclidean_division_equations; lia. Qed.

Lemma enc6_not_pad n : (n < 64)%N -> Ascii.eqb (Base64.enc6 n) Base64.pad = false.
Proof.
  intros Hn. rewrite <- (N2Nat.id n). assert (Hlt : (N.to_nat n < 64)%nat) by lia.
  revert Hlt. generalize (N.to_nat n). clear. intros k Hk.
  do 64 (destruct k as [|k]; [reflexivity|]). lia.
Qed.

(** The decoder reads a character of the encoder as its group. *)
Lemma groups_enc6 n rest :
  (n < 64)%N -> Base64.groups (Base64.enc6 n :: rest) = n :: Base64.groups rest.
Proof.
  intros Hn. cbn [Base64.groups]. by rewrite (enc6_not_pad n Hn), (dec6_enc6 n Hn).
Qed.

Lemma groups_pad rest : Base64.groups (Base64.pad :: rest) = [].
Proof. reflexivity. Qed.

Lemma decode_encode_chars s : Base64.decode_chars (Base64.encode_chars s) = s.
Proof.
  unfold Base64.decode_chars.
  assert (H : forall n s, (length s <= n)%nat ->
                          Base64.bytes (Base64.groups (Base64.encode_chars s)) = s).
  { clear s. induction n as [|n IH]; intros s Hlen.
    - destruct s; [reflexivity|simpl in Hlen; lia].
    - destruct s as [|a [|b [|c rest]]]; [reflexivity| | |].
      + pose proof (sextets _ 0 0 (code_bound a) eq_refl eq_refl) as (H1 & _ & _ & _ & H2 & _).
        pose proof (regroup _ 0 0 (code_bound a) eq_refl eq_refl) as (_ & _ & _ & Ha & _).
        cbn [Base64.encode_chars].
        rewrite !groups_enc6, groups_pad by assumption.
        cbn [Base64.bytes].
        by rewrite Ha, ascii_of_code.
      + pose proof (sextets _ _ 0 (code_bound a) (code_bound b) eq_refl)
          as (H1 & H2 & _ & _ & _ & H3).
        pose proof (regroup _ _ 0 (code_bound a) (code_bound b) eq_refl)
          as (Ha & _ & _ & _ & Hb).
        cbn [Base64.encode_chars].
        rewrite !groups_enc6, groups_pad by assumption.
        cbn [Base64.bytes].
        by rewrite Ha, Hb, !ascii_of_code.
      + pose proof (sextets _ _ _ (code_bound a) (code_bound b) (code_bound c))
          as (H1 & H2 & H3 & H4 & _).
        pose proof (regroup _ _ _ (code_bound a) (code_bound b) (code_bound c))
          as (Ha & Hb & Hc & _).
        cbn [Base64.encode_chars].
        rewrite !groups_enc6 by assumption.
        cbn [Base64.bytes].
        rewrite Ha, Hb, Hc, !ascii_of_code.
        rewrite IH; [reflexivity|]. simpl in Hlen. lia. }
  by apply (H (length s)).
Qed.

Lemma decode_encode s : Base64.decode (Base64.encode s) = s.
Proof.
  unfold Base64.decode, Base64.encode.
  by rewrite chars_text, decode_encode_chars, text_chars.
Qed.

Lemma encode_chars_no_colon s : colon ∉ Base64.encode_chars s.
Proof.
  assert (Hpad : Base64.pad <> colon) by discriminate.
  assert (H : forall n s, (length s <= n)%nat -> colon ∉ Base64.encode_chars s).
  { clear s. induction n as [|n IH]; intros s Hlen.
    - destruct s; [apply not_elem_of_nil|simpl in Hlen; lia].
    - destruct s as [|a [|b [|c rest]]]; [apply not_elem_of_nil| | |];
        cbn [Base64.encode_chars];
        repeat (apply not_elem_of_cons; split;
                [first [apply not_eq_sym, enc6_not_colon | by apply not_eq_sym]|]).
      + apply not_elem_of_nil.
      + apply not_elem_of_nil.
      + apply IH. simpl in Hlen. lia. }
  by apply (H (length s)).
Qed.

(** ** Splitting at a separator *)

Lemma split_chars_whole sep cur s :
  sep ∉ s -> split_chars sep cur s = [text (rev cur ++ s)].
Proof.
  revert cur. induction s as [|x s IH]; intros cur Hs; simpl.
  - by rewrite app_nil_r.
  - apply not_elem_of_cons in Hs as [Hne Hs].
    destruct (Ascii.eqb_spec x sep) as [->|_]; [done|].
    rewrite (IH _ Hs). simpl. by rewrite <- app_assoc.
Qed.

Lemma split_chars_app sep cur a rest :
  sep ∉ a ->
  split_chars sep cur (a ++ sep :: rest) = text (rev cur ++ a) :: split_chars sep [] rest.
Proof.
  revert cur. induction a as [|x a IH]; intros cur Ha; simpl.
  - by rewrite Ascii.eqb_refl, app_nil_r.
  - apply not_elem_of_cons in Ha as [Hne Ha].
    destruct (Ascii.eqb_spec x sep) as [->|_]; [done|].
    rewrite (IH _ Ha). simpl. by rewrite <- app_assoc.
Qed.

Lemma chars_app (a b : string) : chars (a ++ b)%string = chars a ++ chars b.
Proof. induction a as [|x a IH]; simpl; [done|]. by rewrite IH. Qed.

Lemma chars_encode s : chars (Base64.encode s) = Base64.encode_chars (chars s).
Proof. apply chars_text. Qed.

Lemma colon_not_in_word : colon ∉ chars "encrypted".
Proof.
  intros Hin. apply list_elem_of_In in Hin. simpl in Hin.
  repeat (destruct Hin as [Hin|Hin]; [discriminate|]). exact Hin.
Qed.

(** The stored form of a secret splits into its four parts. *)
Lemma split_sealed iv tag ciphertext :
  split colon (Config.marker ++ Base64.encode iv ++ ":" ++ Base64.encode tag
                 ++ ":" ++ Base64.encode ciphertext)%string
  = ["encrypted"%string; Base64.encode iv; Base64.encode tag; Base64.encode ciphertext].
Proof.
  unfold split. rewrite !chars_app, !chars_encode.
  change (chars Config.marker) with (chars "encrypted" ++ [colon]).
  change (chars ":") with [colon].
  rewrite <- app_assoc. cbn [app].
  rewrite split_chars_app by apply colon_not_in_word.
  rewrite split_chars_app by apply encode_chars_no_colon.
  rewrite split_chars_app by apply encode_chars_no_colon.
  rewrite split_chars_whole by apply encode_chars_no_colon.
  reflexivity.
Qed.

(** ** The secret store *)

Local Open Scope string_scope.

Section SecretStore.
Variable env : Env.
Variable secret : string.
Hypothesis Hcipher : cipher_correct (cipher env).
Hypothesis Hsecret : VM_ENCRYPTION_SECRET env = Some secret.
Hypothesis Hconfigured : secret <> EmptyString.

Lemma encryption_key : Config.getEncryptionKey env = Ret (sha256 (cipher env) secret).
Proof.
  unfold Config.getEncryptionKey. rewrite Hsecret.
  apply String.eqb_neq in Hconfigured. by rewrite Hconfigured.
Qed.

Lemma sealed_prefix rest : startsWith Config.marker (Config.marker ++ rest) = true.
Proof. vm_compute. by destruct rest. Qed.

Lemma sealed_nonempty rest : String.eqb (Config.marker ++ rest) EmptyString = false.
Proof. reflexivity. Qed.

Lemma decrypt_encrypt iv plaintext :
  String.length iv = 16%nat ->
  exists stored,
    Config.encrypt env iv plaintext = Ret stored /\
    Config.decrypt env stored = Ret plaintext /\
    startsWith Config.marker stored = true /\
    String.eqb stored EmptyString = false.
Proof.
  intros Hiv. unfold Config.encrypt. rewrite encryption_key.
  eexists. split; [reflexivity|].
  split; [|split; [apply sealed_prefix|apply sealed_nonempty]].
  unfold Config.decrypt. rewrite sealed_prefix. cbn [negb].
  rewrite split_sealed, encryption_key, !decode_encode, (Hcipher _ _ _ Hiv). reflexivity.
Qed.

Lemma read_stored value w :
  storage_down w = false ->
  config (db w) !! Config.api_key_name = Some value ->
  fst (Config.getAnthropicApiKey env w) =
    if String.eqb value EmptyString then Ret None
    else match Config.decrypt env value with
         | Ret plaintext => Ret (Some plaintext)
         | Throw _ => Ret None
         end.
Proof.
  unfold storage_down. intros Hup Hstored.
  unfold Config.getAnthropicApiKey, try_catch, bind, getPrismaClient.
  destruct (client_error w) as [f|]; [discriminate|].
  unfold atomically, config_findUnique, bind, round_trip, read_db, ret.
  destruct (faults w) as [|[f|] rest]; try discriminate.
  all: cbn; rewrite Hstored.
  all: destruct (String.eqb value EmptyString); [reflexivity|].
  all: unfold lift; by destruct (Config.decrypt env value).
Qed.

Lemma saveConfig_stores key iv w :
  healthy w ->
  startsWith "sk-ant-" key = true ->
  (20 <= length (utf16 key))%nat ->
  String.length iv = 16%nat ->
  exists stored w',
    Config.encrypt env iv key = Ret stored /\
    Config.saveConfig env (JStr key) iv w
      = (Ret {| Config.reply_status := 200;
                Config.reply_text := "API key saved successfully" |}, w') /\
    healthy w' /\
    config (db w') !! Config.api_key_name = Some stored.
Proof.
  intros [Hclient Hfaults] Hprefix Hlen Hiv.
  destruct (decrypt_encrypt iv key Hiv) as (stored & Henc & _).
  exists stored.
  unfold Config.saveConfig, try_catch.
  assert (Hkey : String.eqb key EmptyString = false).
  { destruct key; [discriminate|reflexivity]. }
  cbn [truthy]. rewrite Hkey, Hprefix. cbn [negb].
  replace (length (utf16 key) <? 20)%nat with false
    by (symmetry; apply Nat.ltb_ge; lia).
  unfold bind, getPrismaClient. rewrite Hclient. unfold lift. rewrite Henc.
  unfold atomically, config_upsert, bind, round_trip, modify_db, emit, ret.
  rewrite Hfaults. cbn.
  eexists. split; [reflexivity|]. split; [reflexivity|]. split.
  - split; cbn; [exact Hclient|by rewrite Hfaults].
  - cbn. apply lookup_insert_eq.
Qed.

End SecretStore.

(** C9 (as amended). With a cipher that decrypts what it encrypted and
    the encryption secret configured:
    - for every text (well-formed: no unpaired surrogate) and every IV of
      16 bytes, [decrypt] of what [encrypt] produces is the text, and
      [getAnthropicApiKey] returns the text when that is what is stored
      under the key;
    - for every value the setter accepts (a text that starts with
      "sk-ant-" and has a length of at least 20, counted in UTF-16 code
      units as the runtime does), [saveConfig] answers 200 and a
      following [getAnthropicApiKey] returns that value.
    Whatever the cipher, for a stored value that lacks the marker
    "encrypted:" the getter returns the value unchanged when it is not
    empty, and returns null when it is empty. *)
Theorem secret_round_trip env secret :
  cipher_correct (cipher env) ->
  VM_ENCRYPTION_SECRET env = Some secret ->
  secret <> EmptyString ->
  (forall iv plaintext,
      String.length iv = 16%nat ->
      well_formed plaintext = true ->
      exists stored,
        Config.encrypt env iv plaintext = Ret stored /\
        Config.decrypt env stored = Ret plaintext /\
        forall w,
          storage_down w = false ->
          config (db w) !! Config.api_key_name = Some stored ->
          fst (Config.getAnthropicApiKey env w) = Ret (Some plaintext))
  /\ (forall key iv w,
        healthy w ->
        String.length iv = 16%nat ->
        well_formed key = true ->
        startsWith "sk-ant-" key = true ->
        (20 <= length (utf16 key))%nat ->
        exists w',
          Config.saveConfig env (JStr key) iv w
            = (Ret {| Config.reply_status := 200;
                      Config.reply_text := "API key saved successfully" |}, w') /\
          fst (Config.getAnthropicApiKey env w') = Ret (Some key))
  /\ (forall value w,
        storage_down w = false ->
        config (db w) !! Config.api_key_name = Some value ->
        startsWith Config.marker value = false ->
        fst (Config.getAnthropicApiKey env w) =
          if String.eqb value EmptyString then Ret None else Ret (Some value)).
Proof.
  intros Hcipher Hsecret Hconfigured. split; [|split].
  - intros iv plaintext Hiv _.
    destruct (decrypt_encrypt env secret Hcipher Hsecret Hconfigured iv plaintext Hiv)
      as (stored & Henc & Hdec & _ & Hnonempty).
    exists stored. split; [exact Henc|]. split; [exact Hdec|].
    intros w Hup Hstored. rewrite (read_stored env stored w Hup Hstored).
    by rewrite Hnonempty, Hdec.
  - intros key iv w Hw Hiv _ Hprefix Hlen.
    destruct (saveConfig_stores env secret Hcipher Hsecret Hconfigured key iv w Hw
                Hprefix Hlen Hiv)
      as (stored & w' & Henc & Hsave & [Hclient Hfaults] & Hstored).
    exists w'. split; [exact Hsave|].
    destruct (decrypt_encrypt env secret Hcipher Hsecret Hconfigured iv key Hiv)
      as (stored' & Henc' & Hdec & _ & Hnonempty).
    rewrite Henc in Henc'. injection Henc' as <-.
    rewrite (read_stored env stored w'); [|unfold storage_down; by rewrite Hclient, Hfaults
                                         |exact Hstored].
    by rewrite Hnonempty, Hdec.
  - intros value w Hup Hstored Hplain.
    rewrite (read_stored env value w Hup Hstored).
    destruct (String.eqb value EmptyString); [reflexivity|].
    unfold Config.decrypt. by rewrite Hplain.
Qed.

Lemma toy_cipher_correct : cipher_correct Demo.toy_cipher.
Proof.
  intros secret iv plaintext _. cbn. rewrite String.eqb_refl.
  by rewrite chars_text, rev_involutive, text_chars.
Qed.

(** An API key saved and read back, and the legacy value of the
    specification read unchanged. *)
Lemma secret_round_trip_witness :
  (exists w',
      Config.saveConfig Demo.env (JStr "sk-ant-api03-0123456789") "0123456789abcdef"
        Demo.world
        = (Ret {| Config.reply_status := 200;
                  Config.reply_text := "API key saved successfully" |}, w') /\
      fst (Config.getAnthropicApiKey Demo.env w') = Ret (Some "sk-ant-api03-0123456789"))
  /\ fst (Config.getAnthropicApiKey Demo.env Demo.world_legacy) = Ret (Some "plainvalue").
Proof.
  destruct (secret_round_trip Demo.env "vm-secret" toy_cipher_correct eq_refl)
    as (_ & Hsave & Hlegacy); [discriminate|].
  split.
  - apply Hsave; [split; reflexivity|reflexivity|vm_compute; reflexivity
                 |vm_compute; reflexivity|vm_compute; lia].
  - apply (Hlegacy "plainvalue" Demo.world_legacy); reflexivity.
Defined.

(** C9 fails as stated: an empty value stored under the key lacks the
    marker, and the getter returns null for it, not the stored value;
    and the setter refuses the plaintext "v" of the specification's
    example and stores nothing. *)
Lemma empty_secret_reads_as_absent :
  config (db Demo.world_blank) !! Config.api_key_name = Some EmptyString
  /\ fst (Config.getAnthropicApiKey Demo.env Demo.world_blank) = Ret None
  /\ ~ plaintext_tolerated Demo.env Demo.world_blank
  /\ fst (Config.saveConfig Demo.env (JStr "v") "0123456789abcdef" Demo.world)
     = Ret {| Config.reply_status := 400;
              Config.reply_text := "Invalid API key format. Must start with sk-ant-" |}
  /\ db (snd (Config.saveConfig Demo.env (JStr "v") "0123456789abcdef" Demo.world))
     = db Demo.world.
Proof.
  split; [reflexivity|]. split; [vm_compute; reflexivity|]. split.
  - intros Hclaim. specialize (Hclaim EmptyString eq_refl eq_refl).
    vm_compute in Hclaim. discriminate.
  - split; vm_compute; reflexivity.
Qed.

(* ===================================================================== *)
(** * Further properties of the code *)
(* ===================================================================== *)

Local Open Scope string_scope.
Local Open Scope list_scope.
Local Open Scope Z_scope.

(** ** Retry: the delays *)

Section RetryBackoff.
Context {S T : Type}.
Variable operation : S -> outcome T * S.

(** The loop asks the timer for [delay], [delay * multiplier], ... between
    attempts, never after the last one, and stays within the allowed
    attempts. *)
Lemma retry_loop_backoff fuel : forall cfg d attempt delay lastError calls slept st r,
  Retry.retry_loop operation fuel cfg attempt delay lastError calls slept st = Some r ->
  attempt = Z.of_nat calls + 1 ->
  delay = d * Retry.backoffMultiplier cfg ^ Z.of_nat calls ->
  slept = map (fun i => Timer.delay (d * Retry.backoffMultiplier cfg ^ Z.of_nat i))
            (seq 0 calls) ->
  calls = 0%nat \/ attempt <= Retry.maxAttempts cfg ->
  Retry.sleeps r
    = map (fun i => Timer.delay (d * Retry.backoffMultiplier cfg ^ Z.of_nat i))
        (seq 0 (Nat.pred (Retry.invocations r)))
  /\ Z.of_nat (Retry.invocations r) <= Z.max 0 (Retry.maxAttempts cfg).
Proof.
  induction fuel as [|fuel IH];
    intros cfg d attempt delay lastError calls slept st r Hrun Hattempt Hdelay Hslept Hcalls;
    [discriminate|].
  simpl in Hrun.
  destruct (attempt <=? Retry.maxAttempts cfg) eqn:Hle.
  - apply Z.leb_le in Hle.
    destruct (operation st) as [[v|error] st'].
    + injection Hrun as <-. cbn [Retry.sleeps Retry.invocations Nat.pred].
      split; [exact Hslept|lia].
    + destruct (negb (Retry.shouldRetry error) || (attempt =? Retry.maxAttempts cfg))
        eqn:Hstop.
      * injection Hrun as <-. cbn [Retry.sleeps Retry.invocations Nat.pred].
        split; [exact Hslept|lia].
      * apply orb_false_iff in Hstop as [_ Hne]. apply Z.eqb_neq in Hne.
        apply (IH cfg d) in Hrun; [exact Hrun|lia| | |lia].
        -- rewrite Hdelay, Nat2Z.inj_succ, Z.pow_succ_r by lia. lia.
        -- rewrite seq_S, map_app, Hslept, Hdelay. reflexivity.
  - apply Z.leb_gt in Hle. injection Hrun as <-.
    cbn [Retry.sleeps Retry.invocations].
    destruct Hcalls as [->|Hcalls]; [|lia]. split; [by rewrite Hslept|lia].
Qed.

End RetryBackoff.

(** X1. [withRetry] backs off exponentially, within what a timer takes.
    For integer settings it always settles and invokes the operation at
    most maxAttempts times; between two consecutive invocations it sleeps
    once, and not after the last one; for the i-th sleep (counted from 0)
    it asks the timer for delayMs * backoffMultiplier^i milliseconds, so
    that this sleep lasts as long when that number lies between 1 and
    2147483647, and 1 ms when it does not.  With the default settings
    there are at most three invocations and the sleeps are 100 ms and
    then 200 ms. *)
Theorem withRetry_backoff :
  (forall (S T : Type) (operation : S -> outcome T * S) config st,
      let cfg := Retry.merge_config config in
      exists r,
        Retry.withRetry operation config st = Some r /\
        Retry.sleeps r
          = map (fun i => Timer.delay (Retry.delayMs cfg
                                       * Retry.backoffMultiplier cfg ^ Z.of_nat i))
              (seq 0 (Nat.pred (Retry.invocations r))) /\
        Z.of_nat (Retry.invocations r) <= Z.max 0 (Retry.maxAttempts cfg) /\
        (forall i t,
            Retry.sleeps r !! i = Some t ->
            let requested := Retry.delayMs cfg * Retry.backoffMultiplier cfg ^ Z.of_nat i in
            (1 <= requested <= 2147483647 -> t = Z.to_N requested) /\
            (requested < 1 \/ 2147483647 < requested -> t = 1%N)))
  /\ (forall (S T : Type) (operation : S -> outcome T * S) st,
        exists r,
          Retry.withRetry operation Retry.no_overrides st = Some r /\
          (Retry.invocations r <= 3)%nat /\
          Retry.sleeps r = take (Nat.pred (Retry.invocations r)) [100%N; 200%N]).
Proof.
  assert (Hmain : forall (S T : Type) (operation : S -> outcome T * S) config st,
             exists r,
               Retry.withRetry operation config st = Some r /\
               Retry.sleeps r
                 = map (fun i => Timer.delay
                                   (Retry.delayMs (Retry.merge_config config)
                                    * Retry.backoffMultiplier (Retry.merge_config config)
                                      ^ Z.of_nat i))
                     (seq 0 (Nat.pred (Retry.invocations r))) /\
               Z.of_nat (Retry.invocations r)
                 <= Z.max 0 (Retry.maxAttempts (Retry.merge_config config))).
  { intros S T operation config st.
    destruct (withRetry_total operation config st) as [r Hr].
    exists r. split; [exact Hr|].
    unfold Retry.withRetry in Hr.
    apply (retry_loop_backoff operation _ _ (Retry.delayMs (Retry.merge_config config)))
      in Hr; [exact Hr|reflexivity|simpl; lia|reflexivity|by left]. }
  split.
  - intros S T operation config st cfg.
    destruct (Hmain S T operation config st) as (r & Hr & Hsleeps & Hinv).
    exists r. split; [exact Hr|]. split; [exact Hsleeps|]. split; [exact Hinv|].
    intros i t Hi requested. rewrite Hsleeps in Hi.
    apply list_lookup_fmap_Some in Hi as (k & -> & Hk).
    apply lookup_seq in Hk as [-> _]. cbn [Nat.add]. fold cfg. fold requested.
    split; [apply delay_in_range|apply delay_out_of_range].
  - intros S T operation st.
    destruct (Hmain S T operation Retry.no_overrides st) as (r & Hr & Hsleeps & Hinv).
    exists r. split; [exact Hr|].
    change (Retry.maxAttempts (Retry.merge_config Retry.no_overrides)) with 3 in Hinv.
    split; [lia|]. rewrite Hsleeps.
    destruct (Retry.invocations r) as [|[|[|[|n]]]]; [reflexivity..|lia].
Qed.

(** ** The helpers of src/db/utils.ts *)

(** X2. [createSkillExecution] is all or nothing: when it returns, the
    skill existed, the row is new, and the one state it commits holds the
    running row together with the run counter raised by one; when it
    throws (client unavailable, a failed round trip, unknown skill, id
    taken), tables, log and committed states are as before, also when
    the failure comes after the row was created. *)
Theorem createSkillExecution_all_or_nothing skillId trigger input w :
  match createSkillExecution skillId trigger input w with
  | (Ret row, w') =>
      exists sk,
        skills (db w) !! skillId = Some sk /\
        executions (db w) !! ex_id row = None /\
        executions (db w') !! ex_id row = Some row /\
        ex_skillId row = skillId /\
        ex_status row = running /\
        ex_completedAt row = None /\
        (sk_runCount <$> skills (db w') !! skillId) = Some (sk_runCount sk + 1) /\
        snapshots w' = db w' :: snapshots w
  | (Throw _, w') => db w' = db w /\ snapshots w' = snapshots w /\ log w' = log w
  end.
Proof.
  destruct w as [d clk cerr fs nid gid col lg sn].
  unfold createSkillExecution, bind, getPrismaClient, atomically, execution_create,
    skill_update_run, bind, round_trip, read_db, now, modify_db, emit, ret, throw.
  cbn [client_error]. destruct cerr as [f|]; [done|].
  destruct fs as [|[f|] [|[f'|] rest]]; cbn; try done.
  all: destruct (skills d !! skillId) as [sk|] eqn:Hsk; cbn; try done.
  all: destruct (executions d !! gid nid) eqn:Hfresh; cbn; try done.
  all: rewrite ?Hsk; cbn; try done.
  all: exists sk; rewrite !lookup_insert_eq; repeat split; done.
Qed.

(** X3. [completeSkillExecution] writes the execution only: when it
    returns, the row existed and now has the given terminal status and
    the current time as completed-at; the skills table (run counter,
    last run) is never touched; and for an unknown id, or on any other
    failure, it throws and leaves the tables as they were. *)
Theorem completeSkillExecution_leaves_skills executionId result w :
  match completeSkillExecution executionId result w with
  | (Ret row, w') =>
      is_Some (executions (db w) !! executionId) /\
      executions (db w') !! executionId = Some row /\
      ex_status row = status_of (r_status result) /\
      ex_completedAt row = Some (clock w) /\
      skills (db w') = skills (db w)
  | (Throw _, w') => db w' = db w
  end
  /\ (executions (db w) !! executionId = None ->
      exists e, fst (completeSkillExecution executionId result w) = Throw e).
Proof.
  destruct w as [d clk cerr fs nid gid col lg sn].
  unfold completeSkillExecution, bind, getPrismaClient, now, atomically, execution_update.
  cbn [client_error u_durationMs].
  destruct cerr as [f|]; [split; [done|eauto]|].
  destruct (int_arg (r_durationMs result)) as [|n|]; [| |split; [done|cbn; eauto]].
  all: unfold bind, round_trip, read_db, modify_db, emit, ret, throw.
  all: destruct fs as [|[f|] rest]; cbn.
  all: destruct (executions d !! executionId) as [ex|] eqn:Hex; cbn.
  all: rewrite ?lookup_insert_eq; split; try done; eauto.
Qed.

(** A run of [completeSkillExecution] on the execution the scenario
    started, and one on an id that does not exist. *)
Lemma completeSkillExecution_leaves_skills_witness :
  (exists e,
      fst (completeSkillExecution "exec-9"
             {| r_status := Completed; r_output := Some "done"; r_trace := None;
                r_error := None; r_durationMs := JNum 1500 0; r_tokenCount := None |}
             Demo.world) = Throw e)
  /\ (sk_runCount <$>
        skills (db (snd (completeSkillExecution "exec-0"
                           {| r_status := Completed; r_output := Some "done";
                              r_trace := None; r_error := None;
                              r_durationMs := JNum 1500 0; r_tokenCount := None |}
                           Demo.world_started))) !! "skill-1") = Some 5.
Proof.
  split.
  - apply (completeSkillExecution_leaves_skills "exec-9" _ Demo.world). reflexivity.
  - vm_compute. reflexivity.
Defined.

(** ** [updateExecution] *)

Lemma updateExecution_returns executionId result w :
  fst (updateExecution executionId result w) = Ret tt.
Proof.
  unfold updateExecution, try_catch.
  match goal with
  | |- context [let (_, _) := ?body w in _] => destruct (body w) as [[[]|e] w1]
  | |- context [match ?body w with _ => _ end] => destruct (body w) as [[[]|e] w1]
  end; reflexivity.
Qed.

(** X4. [updateExecution] never throws, and it is an update, not an
    upsert: for an id that has no row it returns normally and leaves
    tables and log as they were (no row is created, no skill is bumped). *)
Theorem updateExecution_unknown_id executionId result :
  (forall w, fst (updateExecution executionId result w) = Ret tt)
  /\ (forall w,
        executions (db w) !! executionId = None ->
        db (snd (updateExecution executionId result w)) = db w /\
        log (snd (updateExecution executionId result w)) = log w).
Proof.
  split; [apply updateExecution_returns|].
  intros w Hmissing. destruct w as [d clk cerr fs nid gid col lg sn].
  cbn [db executions] in Hmissing.
  unfold updateExecution, try_catch, bind, getPrismaClient, now, atomically,
    execution_update.
  cbn [client_error u_durationMs].
  destruct cerr as [f|]; [done|].
  destruct (int_arg (r_durationMs result)) as [|n|]; [| |done].
  all: unfold bind, round_trip, read_db, modify_db, emit, ret, throw.
  all: destruct fs as [|[f|] rest]; cbn; rewrite ?Hmissing; done.
Qed.

Lemma updateExecution_unknown_id_witness :
  let result := {| r_status := Failed; r_output := None; r_trace := None;
                   r_error := Some "boom"; r_durationMs := JNum 12 0;
                   r_tokenCount := None |} in
  fst (updateExecution "exec-9" result Demo.world) = Ret tt
  /\ db (snd (updateExecution "exec-9" result Demo.world)) = db Demo.world
  /\ log (snd (updateExecution "exec-9" result Demo.world)) = log Demo.world.
Proof.
  intros result.
  destruct (updateExecution_unknown_id "exec-9" result) as [Hret Hsame].
  split; [apply Hret|]. apply Hsame. reflexivity.
Defined.

(** X5. The three statements of [updateExecution] are not one
    transaction: when the update of the execution and the read of its
    skill id succeed and the bump of the skill then fails, the call
    still returns normally, the execution keeps its new terminal status
    and completed-at, and the skills table is unchanged, so the run is
    never counted. *)
Theorem updateExecution_not_atomic executionId result w ex f rest :
  client_error w = None ->
  faults w = None :: None :: Some f :: rest ->
  executions (db w) !! executionId = Some ex ->
  ex_skillId ex <> EmptyString ->
  int_arg (r_durationMs result) <> IntInvalid ->
  exists w' ex',
    updateExecution executionId result w = (Ret tt, w') /\
    executions (db w') !! executionId = Some ex' /\
    ex_status ex' = status_of (r_status result) /\
    ex_completedAt ex' = Some (clock w) /\
    skills (db w') = skills (db w) /\
    head (snapshots w') = Some (db w').
Proof.
  intros Hclient Hfaults Hex Hskill Hduration.
  destruct w as [d clk cerr fs nid gid col lg sn].
  cbn [client_error faults db clock] in *. subst cerr fs.
  apply String.eqb_neq in Hskill.
  unfold updateExecution, try_catch, bind, getPrismaClient, now, atomically,
    execution_update, execution_findUnique, skill_update_run.
  cbn [client_error u_durationMs].
  destruct (int_arg (r_durationMs result)) as [|n|]; [| |done].
  all: unfold bind, round_trip, read_db, modify_db, emit, ret, throw.
  all: cbn; rewrite Hex; cbn; rewrite lookup_insert_eq; cbn; rewrite Hskill; cbn.
  all: eexists _, _; split; [reflexivity|]; cbn; rewrite lookup_insert_eq; done.
Qed.

(** A running execution of the daily report, completed while the third
    round trip fails. *)
Lemma updateExecution_not_atomic_witness :
  let row := {| ex_id := "exec-0"; ex_skillId := "skill-1"; ex_status := running;
                ex_trigger := "webhook"; ex_input := JObj [];
                ex_output := None; ex_trace := None; ex_error := None;
                ex_startedAt := 1000; ex_completedAt := None;
                ex_durationMs := None; ex_tokenCount := None |} in
  let d := {| executions := {[ "exec-0" := row ]};
              skills := {[ "skill-1" := Demo.daily_report ]}; config := ∅ |} in
  let w := {| db := d; clock := 2000; client_error := None;
              faults := [None; None; Some Demo.crash]; next_id := 1;
              gen_id := gen_id Demo.world; collate := String.leb;
              log := []; snapshots := [] |} in
  let result := {| r_status := Completed; r_output := Some "report ready";
                   r_trace := None; r_error := None; r_durationMs := JNum 1000 0;
                   r_tokenCount := None |} in
  exists w' ex',
    updateExecution "exec-0" result w = (Ret tt, w') /\
    executions (db w') !! "exec-0" = Some ex' /\
    ex_status ex' = completed /\
    ex_completedAt ex' = Some 2000 /\
    skills (db w') = skills d /\
    head (snapshots w') = Some (db w').
Proof.
  intros row d w result.
  apply (updateExecution_not_atomic "exec-0" result w row Demo.crash []).
  - reflexivity.
  - reflexivity.
  - vm_compute. reflexivity.
  - discriminate.
  - vm_compute. discriminate.
Defined.

(** ** The invariant of the execution rows *)

(** X6. Completed-at and the terminal statuses go together: if, before
    a request, every execution row has a completed-at exactly when its
    status is completed or failed, then so it is after the request,
    whatever the request is and whatever fails while it is processed. *)
Theorem processWebhook_keeps_rows_settled env req w :
  (forall id ex,
      executions (db w) !! id = Some ex ->
      (is_terminal (ex_status ex) = true <-> is_Some (ex_completedAt ex))) ->
  forall id ex,
    executions (db (snd (processWebhook env req w))) !! id = Some ex ->
    (is_terminal (ex_status ex) = true <-> is_Some (ex_completedAt ex)).
Proof. intros Hw. by apply (processWebhook_settled env req w). Qed.

(** The daily report already ran once and completed; the request of
    the scenario then runs with a failing orchestrator. *)
Lemma processWebhook_keeps_rows_settled_witness :
  let row := {| ex_id := "exec-9"; ex_skillId := "skill-1"; ex_status := completed;
                ex_trigger := "webhook"; ex_input := JObj [];
                ex_output := Some "report ready"; ex_trace := None; ex_error := None;
                ex_startedAt := 500; ex_completedAt := Some 900;
                ex_durationMs := Some 400; ex_tokenCount := None |} in
  let d := {| executions := {[ "exec-9" := row ]};
              skills := {[ "skill-1" := Demo.daily_report ]}; config := ∅ |} in
  let w := {| db := d; clock := 1000; client_error := None; faults := [];
              next_id := 0; gen_id := gen_id Demo.world; collate := String.leb;
              log := []; snapshots := [d] |} in
  (forall id ex,
      executions (db w) !! id = Some ex ->
      (is_terminal (ex_status ex) = true <-> is_Some (ex_completedAt ex)))
  /\ (forall id ex,
        executions (db (snd (processWebhook Demo.env_failing Demo.request w))) !! id
          = Some ex ->
        (is_terminal (ex_status ex) = true <-> is_Some (ex_completedAt ex))).
Proof.
  intros row d w.
  assert (Hw : forall id ex,
             executions (db w) !! id = Some ex ->
             (is_terminal (ex_status ex) = true <-> is_Some (ex_completedAt ex))).
  { intros id ex Hex.
    change (({[ "exec-9" := row ]} : gmap string Execution) !! id = Some ex) in Hex.
    apply lookup_singleton_Some in Hex as [_ <-].
    split; [by eexists|reflexivity]. }
  split; [exact Hw|].
  exact (processWebhook_keeps_rows_settled Demo.env_failing Demo.request w Hw).
Defined.

(** ** What a request can fail with, and what it answers *)

Lemma classify_step_returns env req w :
  exists classification, fst (classify_step env req w) = Ret classification.
Proof.
  unfold classify_step. destruct (searchWorkflow req); [|by eexists].
  unfold try_catch.
  destruct (classifyWorkflow env (prompt req) w) as [[c|e] w1]; by eexists.
Qed.

Lemma create_step_returns req classification w :
  exists executionId, fst (create_step req classification w) = Ret executionId.
Proof.
  unfold create_step.
  destruct (matched classification) as [[skillId workflow]|]; [|by eexists].
  unfold try_catch, bind.
  destruct (createExecution _ _ _ _ w) as [[id|e] w1]; by eexists.
Qed.

Lemma store_step_returns req executionId agentResponse conversationTrace w :
  fst (store_step req executionId agentResponse conversationTrace w) = Ret tt.
Proof.
  unfold store_step, try_catch.
  match goal with
  | |- context [let (_, _) := ?body w in _] => destruct (body w) as [[[]|e] w1]
  | |- context [match ?body w with _ => _ end] => destruct (body w) as [[[]|e] w1]
  end; reflexivity.
Qed.

Lemma execute_step_throws env req classification systemPrompt userPromptPrefix w e w' :
  execute_step env req classification systemPrompt userPromptPrefix w = (Throw e, w') ->
  e = AgentError "Agent execution timeout" \/ e = AgentError "Agent execution failed".
Proof.
  unfold execute_step, try_catch.
  match goal with
  | |- context [let (_, _) := ?body w in _] => destruct (body w) as [[a|e0] w1]
  | |- context [match ?body w with _ => _ end] => destruct (body w) as [[a|e0] w1]
  end; [discriminate|].
  destruct (mentions_timeout e0); unfold throw; intros [= <- <-]; auto.
Qed.

Lemma webhook_catch_returns req cell error w :
  fst (webhook_catch req cell error w) = Ret tt.
Proof.
  unfold webhook_catch, bind.
  destruct (has_id (cell_executionId cell)) as [id|].
  - unfold now.
    pose proof (updateExecution_returns id
                  {| r_status := Failed; r_output := None; r_trace := None;
                     r_error := message_text error;
                     r_durationMs := JNum (clock w - startTime req) 0;
                     r_tokenCount := None |} w) as Hret.
    destruct (updateExecution _ _ w) as [[[]|e] w1]; [|discriminate].
    apply cleanup_step_returns.
  - unfold ret. apply cleanup_step_returns.
Qed.

(** What the outer [try] block hands to the [catch]. *)
Lemma webhook_try_throws env req w cell e w' :
  webhook_try env req w = (Ret (cell, Throw e), w') ->
  (exists w1, load_prompts env req w = (Throw e, w1))
  \/ e = AgentError "Agent execution timeout"
  \/ e = AgentError "Agent execution failed".
Proof.
  unfold webhook_try, guarded.
  destruct (load_prompts env req w) as [[prompts|e1] w1] eqn:Hload;
    [|intros [= _ <- _]; left; by eexists].
  destruct (classify_step_returns env req w1) as [classification Hclassify].
  destruct (classify_step env req w1) as [[c|e2] w2]; [|discriminate].
  destruct (create_step_returns req c w2) as [executionId Hcreate].
  destruct (create_step req c w2) as [[id|e3] w3]; [|discriminate].
  unfold orchestrate_and_finish, guarded.
  destruct (execute_step env req c (fst prompts) (snd prompts) w3)
    as [[agentResult|e4] w4] eqn:Hexecute;
    [|intros [= _ <- _]; right; by apply (execute_step_throws _ _ _ _ _ _ _ _ Hexecute)].
  match goal with
  | |- context [files_step env req ?dir w4] =>
      destruct (files_step_returns env req dir w4) as [uploadedFiles Hfiles];
      destruct (files_step env req dir w4) as [[files|e5] w5]; [|discriminate]
  end.
  match goal with
  | |- context [store_step req id ?text ?tr w5] =>
      pose proof (store_step_returns req id text tr w5) as Hstore;
      destruct (store_step req id text tr w5) as [[[]|e6] w6]; [|discriminate]
  end.
  match goal with
  | |- context [cleanup_step ?dir w6] =>
      pose proof (cleanup_step_returns dir w6) as Hcleanup;
      destruct (cleanup_step dir w6) as [[[]|e7] w7]; [|discriminate]
  end.
  discriminate.
Qed.

(** X7. A request fails only by its prompts or by its agent: when
    [processWebhook] throws, either loading the prompts threw that very
    error, or the error is the AgentError "Agent execution timeout" or
    "Agent execution failed".  A failure of the classifier, of the
    creation or update of the execution record, of the file upload or of
    the cleanup never reaches the caller. *)
Theorem processWebhook_throws_only env req w e w' :
  processWebhook env req w = (Throw e, w') ->
  (exists w1, load_prompts env req w = (Throw e, w1))
  \/ e = AgentError "Agent execution timeout"
  \/ e = AgentError "Agent execution failed".
Proof.
  unfold processWebhook, bind.
  destruct (webhook_try env req w) as [[[cell [r|error]]|e0] w1] eqn:Htry.
  - discriminate.
  - pose proof (webhook_catch_returns req cell error w1) as Hcatch.
    destruct (webhook_catch req cell error w1) as [[[]|e1] w2]; [|discriminate].
    unfold throw. intros [= <- <-]. by apply (webhook_try_throws env req w cell _ w1).
  - exfalso. revert Htry. unfold webhook_try, guarded.
    destruct (load_prompts env req w) as [[prompts|e1] w1']; [|discriminate].
    destruct (classify_step env req w1') as [[c|e2] w2]; [|discriminate].
    destruct (create_step req c w2) as [[id|e3] w3]; [|discriminate].
    unfold orchestrate_and_finish, guarded.
    destruct (execute_step _ _ _ _ _ w3) as [[agentResult|e4] w4]; [|discriminate].
    destruct (files_step _ _ _ w4) as [[files|e5] w5]; [|discriminate].
    destruct (store_step _ _ _ _ w5) as [[[]|e6] w6]; [|discriminate].
    destruct (cleanup_step _ w6) as [[[]|e7] w7]; discriminate.
Qed.

(** The scenario with the orchestrator crashing in step 2. *)
Lemma processWebhook_throws_only_witness :
  (exists w1, load_prompts Demo.env_failing Demo.request Demo.world
              = (Throw (AgentError "Agent execution failed"), w1))
  \/ AgentError "Agent execution failed" = AgentError "Agent execution timeout"
  \/ AgentError "Agent execution failed" = AgentError "Agent execution failed".
Proof.
  apply (processWebhook_throws_only Demo.env_failing Demo.request Demo.world
           (AgentError "Agent execution failed")
           (snd (processWebhook Demo.env_failing Demo.request Demo.world))).
  vm_compute. reflexivity.
Defined.

(** ** Requests without workflow search *)

Section CallsOnly.
Import Props.
Variable allowed : string -> bool.
Context {A B : Type}.

Lemma co_ret (a : A) : calls_only allowed (ret a).
Proof. intros w. split; [done|]. by exists []. Qed.

Lemma co_throw e : calls_only allowed (@throw A e).
Proof. intros w. split; [done|]. by exists []. Qed.

Lemma co_capability name arg (r : Fault + A) :
  allowed name = true -> calls_only allowed (capability name arg r).
Proof.
  intros Hname w. unfold capability.
  split; [by destruct r|]. exists [EvCapability name arg].
  split; [by destruct r|]. by constructor.
Qed.

Lemma co_emit name arg :
  allowed name = true -> calls_only allowed (emit (EvCapability name arg)).
Proof.
  intros Hname w. split; [done|]. exists [EvCapability name arg].
  split; [done|]. by constructor.
Qed.

Lemma co_bind (m : M A) (k : A -> M B) :
  calls_only allowed m -> (forall a, calls_only allowed (k a)) ->
  calls_only allowed (bind m k).
Proof.
  intros Hm Hk w. unfold bind. destruct (Hm w) as (Hdb & l & Hl & Hall).
  destruct (m w) as [[a|e] w1]; simpl in *; [|split; [done|by exists l]].
  destruct (Hk a w1) as (Hdb' & l' & Hl' & Hall').
  split; [congruence|]. exists (l' ++ l). rewrite Hl', Hl, app_assoc.
  split; [done|by apply Forall_app].
Qed.

Lemma co_try_catch (m : M A) (h : jsval -> M A) :
  calls_only allowed m -> (forall e, calls_only allowed (h e)) ->
  calls_only allowed (try_catch m h).
Proof.
  intros Hm Hh w. unfold try_catch. destruct (Hm w) as (Hdb & l & Hl & Hall).
  destruct (m w) as [[a|e] w1]; simpl in *; [split; [done|by exists l]|].
  destruct (Hh e w1) as (Hdb' & l' & Hl' & Hall').
  split; [congruence|]. exists (l' ++ l). rewrite Hl', Hl, app_assoc.
  split; [done|by apply Forall_app].
Qed.

Lemma co_ext (m m' : M A) :
  (forall w, m w = m' w) -> calls_only allowed m' -> calls_only allowed m.
Proof. intros Heq Hm w. rewrite Heq. apply Hm. Qed.

End CallsOnly.

Lemma co_guarded allowed {A R} cell (m : M A) (k : A -> M (Cell * outcome R)) :
  Props.calls_only allowed m -> (forall a, Props.calls_only allowed (k a)) ->
  Props.calls_only allowed (guarded cell m k).
Proof.
  intros Hm Hk w. unfold guarded. destruct (Hm w) as (Hdb & l & Hl & Hall).
  destruct (m w) as [[a|e] w1]; simpl in *; [|split; [done|by exists l]].
  destruct (Hk a w1) as (Hdb' & l' & Hl' & Hall').
  split; [congruence|]. exists (l' ++ l). rewrite Hl', Hl, app_assoc.
  split; [done|by apply Forall_app].
Qed.

(** In [{ ...metadata, executionId }] the last key wins. *)
Lemma get_field_last k v fields : get_field k (fields ++ [(k, v)]) = Some v.
Proof.
  induction fields as [|[k' v'] fields IH]; simpl.
  - by rewrite String.eqb_refl.
  - by rewrite IH.
Qed.

Lemma store_step_untracked req agentResponse conversationTrace w :
  store_step req None agentResponse conversationTrace w = (Ret tt, w).
Proof.
  unfold store_step, try_catch, bind, upsertResult, with_executionId, prop.
  by rewrite get_field_last.
Qed.

Lemma co_one_off_try env req :
  searchWorkflow req = false ->
  Props.calls_only Props.one_off_capability (webhook_try env req) /\
  forall w cell o, fst (webhook_try env req w) = Ret (cell, o) ->
    cell_executionId cell = None /\
    match o with
    | Ret r => res_workflowId r = None /\ res_workflow r = None
    | Throw _ => True
    end.
Proof.
  intros Hsearch. split.
  - unfold webhook_try. apply co_guarded.
    { unfold load_prompts. apply co_bind.
      - destruct (requestSystemPrompt req) as [p|]; [destruct (String.eqb p EmptyString)|].
        all: first [by apply co_capability | apply co_ret].
      - intros systemPrompt. apply co_bind; [by apply co_capability|].
        intros ?. apply co_ret. }
    intros prompts. unfold classify_step. rewrite Hsearch.
    apply (co_ext _ _ (orchestrate_and_finish env req prompts no_match None)); [done|].
    unfold orchestrate_and_finish. apply co_guarded.
    { unfold execute_step. apply co_try_catch.
      - cbn [matched no_match workflowId workflowData]. by apply co_capability.
      - intros e. destruct (mentions_timeout e); apply co_throw. }
    intros agentResult. apply co_guarded.
    { unfold files_step. apply co_try_catch; [|intros e; apply co_ret].
      destruct (String.eqb _ _); [apply co_ret|].
      apply co_bind; [by apply co_capability|].
      intros [|file detected]; [apply co_ret|by apply co_capability]. }
    intros uploadedFiles. apply co_guarded.
    { eapply co_ext; [intros w; apply store_step_untracked|apply co_ret]. }
    intros _. apply co_guarded.
    { unfold cleanup_step. destruct (String.eqb _ _); [apply co_ret|by apply co_emit]. }
    intros _. apply co_ret.
  - intros w cell o. unfold webhook_try, guarded.
    destruct (load_prompts env req w) as [[prompts|e1] w1]; [|by intros [= <- <-]].
    unfold classify_step. rewrite Hsearch. unfold ret at 1.
    change (create_step req no_match w1) with (Ret (@None string), w1).
    cbv iota beta. unfold orchestrate_and_finish, guarded.
    destruct (execute_step _ _ _ _ _ w1) as [[agentResult|e4] w4]; [|by intros [= <- <-]].
    destruct (files_step _ _ _ w4) as [[files|e5] w5]; [|by intros [= <- <-]].
    destruct (store_step _ _ _ _ w5) as [[[]|e6] w6]; [|by intros [= <- <-]].
    destruct (cleanup_step _ w6) as [[[]|e7] w7]; by intros [= <- <-].
Qed.

(** X8. With workflow search disabled the request is a one-off run:
    whatever happens, the tables are left as they were (no execution row
    is created or updated, no skill is counted), the only capabilities
    called are the prompt loaders, [executeAgent], the file detection and
    upload and the cleanup (so the classifier is never asked), and an
    answer names no workflow. *)
Theorem one_off_run_writes_nothing env req w :
  searchWorkflow req = false ->
  db (snd (processWebhook env req w)) = db w
  /\ (exists l,
        log (snd (processWebhook env req w)) = l ++ log w /\
        Forall (fun ev => match ev with
                          | EvCapability name _ =>
                              name ∈ ["loadSystemPrompt"; "loadUserPromptPrefix";
                                      "executeAgent"; "detectFiles"; "uploadAllFiles";
                                      "cleanupWorkingDirectory"]
                          | _ => False
                          end) l)
  /\ (forall r, fst (processWebhook env req w) = Ret r ->
        res_workflowId r = None /\ res_workflow r = None).
Proof.
  intros Hsearch. destruct (co_one_off_try env req Hsearch) as [Htry Hcell].
  assert (Hall : Props.calls_only Props.one_off_capability (processWebhook env req)).
  { intros w0. unfold processWebhook, bind.
    specialize (Htry w0). specialize (Hcell w0).
    destruct (webhook_try env req w0) as [[[cell [r|error]]|e0] w1]; try exact Htry.
    destruct (Hcell cell (Throw error) eq_refl) as [Hid _].
    unfold webhook_catch. rewrite Hid. cbn [has_id].
    change (bind (ret tt) (fun _ => cleanup_step (cell_workingDirectory cell)) w1)
      with (cleanup_step (cell_workingDirectory cell) w1).
    simpl in Htry. destruct Htry as (Hdb & l & Hl & Hforall).
    unfold cleanup_step.
    destruct (cell_workingDirectory cell) as [dir|]; cbn.
    - split; [exact Hdb|]. exists (EvCapability "cleanupWorkingDirectory" dir :: l).
      rewrite Hl. split; [done|]. by constructor.
    - split; [exact Hdb|]. by exists l. }
  destruct (Hall w) as (Hdb & l & Hl & Hforall).
  split; [exact Hdb|]. split.
  - exists l. split; [exact Hl|].
    eapply Forall_impl; [exact Hforall|].
    intros [| | | |name arg]; try done. unfold Props.one_off_capability.
    apply bool_decide_eq_true.
  - intros r. unfold processWebhook, bind. specialize (Hcell w).
    destruct (webhook_try env req w) as [[[cell [r'|error]]|e0] w1].
    + intros [= <-]. by destruct (Hcell cell (Ret r') eq_refl) as [_ Hwf].
    + destruct (webhook_catch req cell error w1) as [[[]|e1] w2]; discriminate.
    + discriminate.
Qed.

(** A one-off request against the scenario's tables. *)
Lemma one_off_run_writes_nothing_witness :
  let req := {| prompt := "What is the weather?"; requestId := "req-2";
                requestSystemPrompt := None; searchWorkflow := false;
                metadata := None; startTime := 1000 |} in
  db (snd (processWebhook Demo.env req Demo.world)) = db Demo.world
  /\ (exists l,
        log (snd (processWebhook Demo.env req Demo.world)) = l ++ log Demo.world /\
        Forall (fun ev => match ev with
                          | EvCapability name _ =>
                              name ∈ ["loadSystemPrompt"; "loadUserPromptPrefix";
                                      "executeAgent"; "detectFiles"; "uploadAllFiles";
                                      "cleanupWorkingDirectory"]
                          | _ => False
                          end) l)
  /\ (forall r, fst (processWebhook Demo.env req Demo.world) = Ret r ->
        res_workflowId r = None /\ res_workflow r = None).
Proof.
  intros req. apply (one_off_run_writes_nothing Demo.env req Demo.world). reflexivity.
Defined.


(** ** The answer of a request *)

Lemma append_empty (s : string) : (s ++ EmptyString)%string = s.
Proof. induction s as [|c s IH]; [done|]. change (String c (s ++ EmptyString)%string = String c s). by rewrite IH. Qed.

(** X9. What a successful request answers: the request id it was given,
    the trace of the agent run, and as text the text of the agent run
    followed by the listing of the uploaded files; with no uploaded file
    the text is the agent's text unchanged. *)
Theorem processWebhook_answer env req w r w' :
  processWebhook env req w = (Ret r, w') ->
  res_requestId r = requestId req
  /\ exists classification systemPrompt userPromptPrefix w3 agentResult w4,
       execute_step env req classification systemPrompt userPromptPrefix w3
         = (Ret agentResult, w4) /\
       response r = (ar_text agentResult ++ formatFilesForResponse (files r))%string /\
       trace r = ar_trace agentResult /\
       (files r = [] -> response r = ar_text agentResult).
Proof.
  unfold processWebhook, bind.
  destruct (webhook_try env req w) as [[[cell [r'|error]]|e0] w1] eqn:Htry.
  - intros [= <- <-]. revert Htry. unfold webhook_try, guarded.
    destruct (load_prompts env req w) as [[prompts|e1] w1']; [|discriminate].
    destruct (classify_step env req w1') as [[c|e2] w2]; [|discriminate].
    destruct (create_step req c w2) as [[id|e3] w3]; [|discriminate].
    unfold orchestrate_and_finish, guarded.
    destruct (execute_step _ _ _ _ _ w3) as [[agentResult|e4] w4] eqn:Hexecute;
      [|discriminate].
    destruct (files_step _ _ _ w4) as [[uploaded|e5] w5]; [|discriminate].
    destruct (store_step _ _ _ _ w5) as [[[]|e6] w6]; [|discriminate].
    destruct (cleanup_step _ w6) as [[[]|e7] w7]; [|discriminate].
    unfold ret. intros [= _ <- _]. cbn [res_requestId response files trace].
    split; [reflexivity|].
    exists c, (fst prompts), (snd prompts), w3, agentResult, w4.
    split; [exact Hexecute|]. split; [reflexivity|]. split; [reflexivity|].
    intros ->. cbn [formatFilesForResponse]. apply append_empty.
  - destruct (webhook_catch req cell error w1) as [[[]|e1] w2]; discriminate.
  - discriminate.
Qed.

(** The request of the scenario, answered. *)
Lemma processWebhook_answer_witness :
  res_requestId
    (match fst (processWebhook Demo.env Demo.request Demo.world) with
     | Ret r => r
     | Throw _ => {| response := EmptyString; files := []; res_requestId := EmptyString;
                     trace := []; res_workflowId := None; res_workflow := None |}
     end) = "req-1".
Proof.
  refine (proj1 (processWebhook_answer Demo.env Demo.request Demo.world _
                   (snd (processWebhook Demo.env Demo.request Demo.world)) _)).
  vm_compute. reflexivity.
Defined.

(** ** src/config.ts: what the setter writes and what the getter hides *)

Lemma marker_is_not_a_key rest :
  startsWith "sk-ant-" (Config.marker ++ rest)%string = false.
Proof. reflexivity. Qed.

(** X11. [saveConfig] never throws and never stores a key as given: it
    answers 200, 400 or 500; unless it answers 200 the tables are left as
    they were; and when it answers 200 the key was a string that starts
    with "sk-ant-" and has a length of at least 20, counted in UTF-16
    code units as the runtime does, and the only change is that the
    config row of the key now holds what [encrypt] made of it, which
    starts with the marker "encrypted:" and so differs from the key. *)
Theorem saveConfig_stores_only_sealed env anthropic_api_key iv w :
  match Config.saveConfig env anthropic_api_key iv w with
  | (Ret reply, w') =>
      (Config.reply_status reply = 200 /\
       exists key stored,
         anthropic_api_key = JStr key /\
         startsWith "sk-ant-" key = true /\
         (20 <= length (utf16 key))%nat /\
         Config.encrypt env iv key = Ret stored /\
         db w' = {| executions := executions (db w); skills := skills (db w);
                    config := <[Config.api_key_name := stored]> (config (db w)) |} /\
         startsWith Config.marker stored = true /\
         stored <> key)
      \/ ((Config.reply_status reply = 400 \/ Config.reply_status reply = 500) /\
          db w' = db w)
  | (Throw _, _) => False
  end.
Proof.
  destruct w as [d clk cerr fs nid gid col lg sn].
  unfold Config.saveConfig, try_catch.
  destruct (truthy anthropic_api_key) eqn:Htruthy; cbn [negb]; [|right; cbn; auto].
  destruct anthropic_api_key as [| |b|m e|key|items|fields];
    try (right; cbn; by auto).
  destruct (startsWith "sk-ant-" key) eqn:Hprefix; cbn [negb]; [|right; cbn; auto].
  destruct (length (utf16 key) <? 20)%nat eqn:Hlen; [right; cbn; auto|].
  apply Nat.ltb_ge in Hlen.
  unfold bind, getPrismaClient. cbn [client_error].
  destruct cerr as [f|]; [right; cbn; auto|].
  unfold lift. unfold Config.encrypt at 1.
  destruct (Config.getEncryptionKey env) as [k|e] eqn:Hkey; [|right; cbn; auto].
  unfold atomically, config_upsert, bind, round_trip, modify_db, emit, ret.
  destruct fs as [|[f|] rest]; cbn; try (right; by auto).
  all: left; split; [reflexivity|]; eexists key, _.
  all: split; [reflexivity|]; split; [exact Hprefix|]; split; [exact Hlen|].
  all: unfold Config.encrypt; rewrite Hkey.
  all: split; [reflexivity|]; split; [reflexivity|]; split; [apply sealed_prefix|].
  all: intros Hsame; rewrite <- Hsame in Hprefix; by rewrite marker_is_not_a_key in Hprefix.
Qed.

(** With the storage layer down the getter yields no key. *)
Lemma getAnthropicApiKey_down env w :
  storage_down w = true -> fst (Config.getAnthropicApiKey env w) = Ret None.
Proof.
  unfold storage_down, Config.getAnthropicApiKey, try_catch, bind, getPrismaClient.
  destruct (client_error w) as [f|]; [done|].
  unfold atomically, config_findUnique, bind, round_trip.
  by destruct (faults w) as [|[f|] rest].
Qed.

(** X12. The getter never throws and hides every failure as "no key":
    [getAnthropicApiKey] always returns; it returns null when the storage
    layer is down; and when the stored value carries the marker
    "encrypted:" but does not have exactly four parts between colons, or
    the encryption secret is not configured, it returns null as if no key
    were stored. *)
Theorem getAnthropicApiKey_hides_failures env :
  (forall w, exists r, fst (Config.getAnthropicApiKey env w) = Ret r)
  /\ (forall w, storage_down w = true ->
        fst (Config.getAnthropicApiKey env w) = Ret None)
  /\ (forall w value,
        storage_down w = false ->
        config (db w) !! Config.api_key_name = Some value ->
        startsWith Config.marker value = true ->
        length (split colon value) <> 4%nat
        \/ VM_ENCRYPTION_SECRET env = None
        \/ VM_ENCRYPTION_SECRET env = Some EmptyString ->
        fst (Config.getAnthropicApiKey env w) = Ret None).
Proof.
  split; [|split].
  - intros w. unfold Config.getAnthropicApiKey, try_catch.
    match goal with
    | |- context [let (_, _) := ?body w in _] => destruct (body w) as [[a|e] w1]
    | |- context [match ?body w with _ => _ end] => destruct (body w) as [[a|e] w1]
    end; by eexists.
  - intros w. apply getAnthropicApiKey_down.
  - intros w value Hup Hstored Hmarker Hbad.
    rewrite (read_stored env value w Hup Hstored).
    destruct (String.eqb value EmptyString); [reflexivity|].
    unfold Config.decrypt. rewrite Hmarker. cbn [negb].
    destruct (split colon value) as [|p0 [|p1 [|p2 [|p3 [|p4 parts]]]]]; try reflexivity.
    destruct Hbad as [Hparts|Hsecret]; [by destruct Hparts|].
    unfold Config.getEncryptionKey.
    by destruct Hsecret as [-> | ->].
Qed.

(** A stored value with the marker and two parts only. *)
Lemma getAnthropicApiKey_hides_failures_witness :
  let w := {| db := {| executions := ∅; skills := ∅;
                       config := {[ "anthropic_api_key" := "encrypted:abc" ]} |};
              clock := 1000; client_error := None; faults := [];
              next_id := 0; gen_id := gen_id Demo.world;
              collate := String.leb; log := []; snapshots := [] |} in
  fst (Config.getAnthropicApiKey Demo.env w) = Ret None
  /\ fst (Config.getAnthropicApiKey Demo.env Demo.world_outage) = Ret None.
Proof.
  intros w.
  destruct (getAnthropicApiKey_hides_failures Demo.env) as (_ & Hdown & Hbad).
  split.
  - apply (Hbad w "encrypted:abc"); [reflexivity|reflexivity|reflexivity|].
    left. vm_compute. discriminate.
  - apply Hdown. reflexivity.
Defined.

(** X13. Which key the classifier's client uses, with a cipher that
    decrypts what it encrypted and the encryption secret configured: a
    key saved through [saveConfig] (a well-formed text that starts with
    "sk-ant-" and has at least 20 UTF-16 code units) is the one
    [getAnthropicClient] returns on a healthy storage layer, whatever
    ANTHROPIC_API_KEY holds; with the storage layer down it is the
    non-empty ANTHROPIC_API_KEY of the environment; and with the storage
    layer down and no such variable the call throws the "No Anthropic API
    key configured" error. *)
Theorem getAnthropicClient_key_precedence env secret :
  cipher_correct (cipher env) ->
  VM_ENCRYPTION_SECRET env = Some secret ->
  secret <> EmptyString ->
  (forall key iv w,
      healthy w ->
      String.length iv = 16%nat ->
      well_formed key = true ->
      startsWith "sk-ant-" key = true ->
      (20 <= length (utf16 key))%nat ->
      fst (getAnthropicClient env (snd (Config.saveConfig env (JStr key) iv w)))
        = Ret key)
  /\ (forall w key,
        storage_down w = true ->
        ANTHROPIC_API_KEY env = Some key ->
        key <> EmptyString ->
        fst (getAnthropicClient env w) = Ret key)
  /\ (forall w,
        storage_down w = true ->
        ANTHROPIC_API_KEY env = None \/ ANTHROPIC_API_KEY env = Some EmptyString ->
        fst (getAnthropicClient env w)
          = Throw (mkError "Error" "No Anthropic API key configured. Set it via /api/config or ANTHROPIC_API_KEY env var.")).
Proof.
  intros Hcipher Hsecret Hconfigured.
  pose proof (getAnthropicApiKey_down env) as Hdown.
  split; [|split].
  - intros key iv w Hw Hiv _ Hprefix Hlen.
    destruct (saveConfig_stores env secret Hcipher Hsecret Hconfigured key iv w Hw
                Hprefix Hlen Hiv)
      as (stored & w' & Henc & Hsave & [Hclient Hfaults] & Hstored).
    rewrite Hsave. cbn [snd].
    destruct (decrypt_encrypt env secret Hcipher Hsecret Hconfigured iv key Hiv)
      as (stored' & Henc' & Hdec & _ & Hnonempty).
    rewrite Henc in Henc'. injection Henc' as <-.
    assert (Hread : fst (Config.getAnthropicApiKey env w') = Ret (Some key)).
    { rewrite (read_stored env stored w');
        [|unfold storage_down; by rewrite Hclient, Hfaults|exact Hstored].
      by rewrite Hnonempty, Hdec. }
    unfold getAnthropicClient, bind.
    destruct (Config.getAnthropicApiKey env w') as [o w'']. cbn [fst] in Hread.
    rewrite Hread.
    assert (Hkey : String.eqb key EmptyString = false) by (by destruct key).
    rewrite Hkey. cbv iota beta. by rewrite Hkey.
  - intros w key Hw Henv Hkey. specialize (Hdown w Hw).
    unfold getAnthropicClient, bind.
    destruct (Config.getAnthropicApiKey env w) as [o w'']. cbn [fst] in Hdown.
    rewrite Hdown, Henv. apply String.eqb_neq in Hkey. cbv iota beta. by rewrite Hkey.
  - intros w Hw Henv. specialize (Hdown w Hw).
    unfold getAnthropicClient, bind.
    destruct (Config.getAnthropicApiKey env w) as [o w'']. cbn [fst] in Hdown.
    rewrite Hdown. by destruct Henv as [-> | ->].
Qed.

(** A key saved in the scenario wins over the variable of the
    environment; during the outage the variable is used. *)
Lemma getAnthropicClient_key_precedence_witness :
  fst (getAnthropicClient Demo.env
         (snd (Config.saveConfig Demo.env (JStr "sk-ant-api03-0123456789")
                 "0123456789abcdef" Demo.world)))
    = Ret "sk-ant-api03-0123456789"
  /\ fst (getAnthropicClient Demo.env Demo.world_outage) = Ret "sk-ant-from-environment".
Proof.
  destruct (getAnthropicClient_key_precedence Demo.env "vm-secret" toy_cipher_correct
              eq_refl) as (Hsaved & Henv & _); [discriminate|].
  split.
  - apply Hsaved; [split; reflexivity|reflexivity|vm_compute; reflexivity
                  |reflexivity|vm_compute; lia].
  - apply Henv; [reflexivity|reflexivity|discriminate].
Defined.

(** ** Health checks *)

Lemma checkDatabaseHealth_answer w :
  fst (Health.checkDatabaseHealth w) = Ret (negb (storage_down w)).
Proof.
  destruct w as [d clk cerr fs nid gid col lg sn].
  unfold Health.checkDatabaseHealth, Health.healthCheck, Health.queryRaw_select_1,
    storage_down, try_catch, bind, getPrismaClient, atomically, round_trip, ret.
  cbn [client_error faults].
  destruct cerr as [f|]; [done|].
  by destruct fs as [|[f|] rest].
Qed.

(** X14. [healthCheck] (and [checkDatabaseHealth], which is the same
    function) never throws, leaves the tables alone, and answers true
    exactly when the storage layer is up: the client can be built and
    the round trip of the probe query does not fail. *)
Theorem healthCheck_reports_storage w :
  fst (Health.healthCheck w) = Ret (negb (storage_down w))
  /\ fst (Health.checkDatabaseHealth w) = Ret (negb (storage_down w))
  /\ db (snd (Health.healthCheck w)) = db w.
Proof.
  destruct w as [d clk cerr fs nid gid col lg sn].
  unfold Health.checkDatabaseHealth, Health.healthCheck, Health.queryRaw_select_1,
    storage_down, try_catch, bind, getPrismaClient, atomically, round_trip, ret.
  cbn [client_error faults].
  destruct cerr as [f|]; [done|].
  by destruct fs as [|[f|] rest].
Qed.

(** Is round trip number [i] from now free of a scheduled fault? *)
Lemma detailedHealthCheck_runs w :
  client_error w = None ->
  let free i := match faults w !! i with Some (Some _) => false | _ => true end in
  exists r,
    fst (Health.detailedHealthCheck w) = Ret r /\
    Health.dh_connectivity r = free 0%nat /\
    Health.dh_readAccess r = free 1%nat /\
    Health.dh_skillsAccess r = free 2%nat /\
    Health.dh_healthy r = free 0%nat && free 1%nat && free 2%nat /\
    Health.dh_latencyMs r = (if free 0%nat then Some 1 else None) /\
    faults (snd (Health.detailedHealthCheck w)) = drop 3 (faults w) /\
    db (snd (Health.detailedHealthCheck w)) = db w.
Proof.
  destruct w as [d clk cerr fs nid gid col lg sn]. cbn [client_error faults].
  intros ->.
  unfold Health.detailedHealthCheck, Health.queryRaw_select_1, Health.config_findFirst,
    Health.skill_findFirst, try_catch, bind, getPrismaClient, now, atomically,
    round_trip, read_db, ret.
  cbn [client_error faults].
  destruct fs as [|[f0|] [|[f1|] [|[f2|] rest]]]; cbn.
  all: eexists; split; [reflexivity|]; cbn.
  all: repeat split; try reflexivity; f_equal; lia.
Qed.

(** X15. [detailedHealthCheck] makes all of its three checks, each on
    its own: with the client available it returns, whatever fails; each
    entry of [checks] tells whether the round trip of that check
    succeeded; a failed check does not stop the later ones (three round
    trips are always made); [healthy] holds exactly when all three
    succeeded; a latency is reported exactly when the connectivity check
    succeeded; and the tables are left alone.  Unlike [healthCheck], it
    throws when the client cannot be built. *)
Theorem detailedHealthCheck_checks_independently w :
  match client_error w with
  | Some f =>
      fst (Health.detailedHealthCheck w) = Throw (fault_val f) /\
      fst (Health.healthCheck w) = Ret false
  | None =>
      let free i := match faults w !! i with Some (Some _) => false | _ => true end in
      exists r,
        fst (Health.detailedHealthCheck w) = Ret r /\
        Health.dh_connectivity r = free 0%nat /\
        Health.dh_readAccess r = free 1%nat /\
        Health.dh_skillsAccess r = free 2%nat /\
        Health.dh_healthy r = free 0%nat && free 1%nat && free 2%nat /\
        (is_Some (Health.dh_latencyMs r) <-> Health.dh_connectivity r = true) /\
        faults (snd (Health.detailedHealthCheck w)) = drop 3 (faults w) /\
        db (snd (Health.detailedHealthCheck w)) = db w
  end.
Proof.
  destruct (client_error w) as [f|] eqn:Hclient.
  - unfold Health.detailedHealthCheck, Health.healthCheck, try_catch, bind,
      getPrismaClient.
    by rewrite Hclient.
  - intros free.
    destruct (detailedHealthCheck_runs w Hclient)
      as (r & Hr & Hc & Hread & Hskills & Hhealthy & Hlat & Hfaults & Hdb).
    exists r. subst free. cbv beta zeta in *. repeat split; try assumption.
    + rewrite Hlat, Hc. destruct (faults w !! 0%nat) as [[?|]|]; by intros [? ?].
    + rewrite Hlat, Hc. by destruct (faults w !! 0%nat) as [[?|]|].
Qed.

(** X16. [GET /health] answers 200 exactly when the storage layer is up
    and 503 otherwise, whatever the metrics say; the body reports
    "healthy" exactly when the storage layer is up and the metrics do not
    report "unhealthy".  So an instance whose metrics are unhealthy still
    answers 200, with "unhealthy" in the body. *)
Theorem health_route_status getUptimeString health w :
  exists reply,
    fst (Health.health_route getUptimeString health w) = Ret reply /\
    Health.hr_statusCode reply = (if storage_down w then 503 else 200) /\
    Health.hr_database reply
      = (if storage_down w then "disconnected" else "connected") /\
    (Health.hr_status reply = "healthy" <->
       storage_down w = false /\ Health.mh_status health <> "unhealthy") /\
    (Health.hr_status reply = "healthy" \/ Health.hr_status reply = "unhealthy").
Proof.
  pose proof (checkDatabaseHealth_answer w) as Hcheck.
  unfold Health.health_route, bind.
  destruct (Health.checkDatabaseHealth w) as [o w']. cbn [fst] in Hcheck. subst o.
  eexists. split; [reflexivity|]. cbn.
  destruct (storage_down w); cbn.
  - repeat split; auto; try discriminate. by intros [? _].
  - destruct (String.eqb_spec (Health.mh_status health) "unhealthy") as [Heq|Hne]; cbn.
    + repeat split; auto; try discriminate. by intros [_ ?].
    + repeat split; auto.
Qed.

(** ** src/database.ts: reading executions back *)



Lemma skill_rows_length skillId (l : list (string * Execution)) :
  length (filter (fun e => String.eqb (ex_skillId e) skillId = true) (map snd l))
  = length (filter (fun kv => ex_skillId kv.2 = skillId) l).
Proof.
  induction l as [|[k e] l IH]; [done|]. cbn [map snd].
  rewrite !filter_cons. cbn [snd].
  destruct (decide (String.eqb (ex_skillId e) skillId = true)) as [Heq|Hne];
    destruct (decide (ex_skillId e = skillId)) as [Heq'|Hne']; simpl; try by rewrite IH.
  - by apply String.eqb_eq in Heq.
  - by apply String.eqb_eq in Heq'.
Qed.

(** X18. [getExecutionsForSkill] never throws, returns at most [limit]
    records (10 when no limit is given), and only records of the given
    skill; with the storage layer down it returns the empty list, and
    with it up it returns as many records as the skill has executions, up
    to the limit. *)
Theorem getExecutionsForSkill_bounded skillId limit w :
  exists records,
    fst (Queries.getExecutionsForSkill skillId limit w) = Ret records /\
    (length records <= N.to_nat (default 10%N limit))%nat /\
    Forall (fun r => Queries.er_skillId r = skillId) records /\
    (storage_down w = true -> records = []) /\
    (storage_down w = false ->
       length records
         = Nat.min (N.to_nat (default 10%N limit))
             (length (filter (fun kv => ex_skillId kv.2 = skillId)
                        (map_to_list (executions (db w)))))).
Proof.
  destruct w as [d clk cerr fs nid gid col lg sn].
  unfold Queries.getExecutionsForSkill, storage_down, try_catch, bind, getPrismaClient,
    atomically, Queries.execution_findMany, bind, round_trip, read_db, ret.
  cbn [client_error faults].
  destruct cerr as [f|].
  { exists []. cbn. repeat split; [lia|constructor|discriminate]. }
  set (rows := filter (fun e => String.eqb (ex_skillId e) skillId = true)
                 (map snd (map_to_list (executions d)))).
  set (sorted := merge_sort Queries.newest_first rows).
  assert (Hperm : sorted ≡ₚ rows) by apply merge_sort_Permutation.
  assert (Hrows : Forall (fun e => ex_skillId e = skillId) rows).
  { apply Forall_forall. intros e He.
    apply list_elem_of_filter in He as [He _]. by apply String.eqb_eq. }
  assert (Hcount : length rows
                   = length (filter (fun kv => ex_skillId kv.2 = skillId)
                               (map_to_list (executions d)))).
  { apply skill_rows_length. }
  assert (Hall : exists records,
             records = map Queries.to_record
                         (take (N.to_nat (default 10%N limit)) sorted) /\
             (length records <= N.to_nat (default 10%N limit))%nat /\
             Forall (fun r => Queries.er_skillId r = skillId) records /\
             length records
               = Nat.min (N.to_nat (default 10%N limit))
                   (length (filter (fun kv => ex_skillId kv.2 = skillId)
                              (map_to_list (executions d))))).
  { eexists. split; [reflexivity|].
    rewrite length_map, length_take, (Permutation_length Hperm), Hcount.
    split; [lia|]. split; [|reflexivity].
    apply Forall_map, Forall_take. by rewrite Hperm. }
  destruct Hall as (records & -> & Hlen & Hskill & Hexact).
  destruct fs as [|[f|] rest]; cbn.
  - eexists. repeat split; eauto. discriminate.
  - exists []. cbn. repeat split; [lia|constructor|discriminate].
  - eexists. repeat split; eauto. discriminate.
Qed.

#[local] Instance newest_first_total : Total Queries.newest_first.
Proof.
  intros a b. unfold Queries.newest_first.
  destruct (Z.le_ge_cases (ex_startedAt a) (ex_startedAt b)) as [H|H].
  - right. apply Is_true_true, Z.leb_le. lia.
  - left. apply Is_true_true, Z.leb_le. lia.
Qed.

#[local] Instance newest_first_trans : Transitive Queries.newest_first.
Proof.
  intros a b c. unfold Queries.newest_first. rewrite !Is_true_true, !Z.leb_le. lia.
Qed.

Lemma sorted_head_is_newest rows e rest :
  merge_sort Queries.newest_first rows = e :: rest ->
  e ∈ rows /\ forall e', e' ∈ rows -> ex_startedAt e' <= ex_startedAt e.
Proof.
  intros Hsorted.
  pose proof (merge_sort_Permutation Queries.newest_first rows) as Hperm.
  pose proof (StronglySorted_merge_sort Queries.newest_first rows) as Hstrong.
  rewrite Hsorted in Hperm, Hstrong.
  split; [rewrite <- Hperm; by left|].
  intros e' He'. rewrite <- Hperm in He'.
  apply StronglySorted_inv in Hstrong as [_ Hall].
  apply elem_of_cons in He' as [->|He']; [lia|].
  rewrite Forall_forall in Hall. specialize (Hall e' He').
  unfold Queries.newest_first in Hall. by apply Is_true_true, Z.leb_le in Hall.
Qed.

Lemma rows_of_table (P : Execution -> bool) d e :
  e ∈ filter (fun e => P e = true) (map snd (map_to_list (executions d)))
  <-> (exists k, executions d !! k = Some e) /\ P e = true.
Proof.
  rewrite list_elem_of_filter, list_elem_of_fmap. split.
  - intros [HP ([k e'] & -> & Hin)]. apply elem_of_map_to_list in Hin. eauto.
  - intros [[k Hk] HP]. split; [exact HP|]. exists (k, e). split; [done|].
    by apply elem_of_map_to_list.
Qed.

(** X19. [getResult] never throws.  When it returns a result, that
    result describes an execution whose stored input has the asked
    request id under the key [requestId], and among all such executions
    one that started last; its text is the stored output (the empty
    string when there is none) and its list of files is empty.  With the
    storage layer up it returns null exactly when no execution has that
    request id in its input; with the storage layer down it returns
    null. *)
Theorem getResult_returns_latest requestId w :
  (exists r, fst (Queries.getResult requestId w) = Ret r)
  /\ (forall r,
        fst (Queries.getResult requestId w) = Ret (Some r) ->
        exists k ex,
          executions (db w) !! k = Some ex /\
          prop (ex_input ex) "requestId" = JStr requestId /\
          (forall k' ex',
              executions (db w) !! k' = Some ex' ->
              prop (ex_input ex') "requestId" = JStr requestId ->
              ex_startedAt ex' <= ex_startedAt ex) /\
          Queries.rm_executionId (Queries.sr_metadata r) = ex_id ex /\
          Queries.rm_status (Queries.sr_metadata r) = ex_status ex /\
          Queries.sr_text r = default EmptyString (ex_output ex) /\
          Queries.sr_requestId r = requestId /\
          Queries.sr_files r = [])
  /\ (storage_down w = false ->
        (fst (Queries.getResult requestId w) = Ret None <->
         forall k ex, executions (db w) !! k = Some ex ->
                      prop (ex_input ex) "requestId" <> JStr requestId))
  /\ (storage_down w = true -> fst (Queries.getResult requestId w) = Ret None).
Proof.
  assert (Hfilter : forall ex,
             Queries.input_requestId_is requestId ex = true
             <-> prop (ex_input ex) "requestId" = JStr requestId).
  { intros ex. unfold Queries.input_requestId_is.
    destruct (prop (ex_input ex) "requestId"); try (split; [discriminate|by intros [=]]).
    rewrite String.eqb_eq. split; [by intros ->|by intros [= ->]]. }
  destruct w as [d clk cerr fs nid gid col lg sn].
  unfold Queries.getResult, storage_down, try_catch, bind, getPrismaClient,
    atomically, Queries.execution_findMany, bind, round_trip, read_db, ret.
  cbn [client_error faults db].
  destruct cerr as [f|].
  { cbn. repeat split; eauto; try discriminate. }
  set (rows := filter (fun e => Queries.input_requestId_is requestId e = true)
                 (map snd (map_to_list (executions d)))).
  assert (Hnil : merge_sort Queries.newest_first rows = [] ->
                 forall k ex, executions d !! k = Some ex ->
                              prop (ex_input ex) "requestId" <> JStr requestId).
  { intros Hsorted k ex Hk Hmatch.
    assert (Hin : ex ∈ rows) by (apply rows_of_table; split; [eauto|by apply Hfilter]).
    rewrite <- (merge_sort_Permutation Queries.newest_first rows), Hsorted in Hin.
    by apply not_elem_of_nil in Hin. }
  assert (Hcons : forall e rest,
             merge_sort Queries.newest_first rows = e :: rest ->
             exists k,
               executions d !! k = Some e /\
               prop (ex_input e) "requestId" = JStr requestId /\
               (forall k' ex',
                   executions d !! k' = Some ex' ->
                   prop (ex_input ex') "requestId" = JStr requestId ->
                   ex_startedAt ex' <= ex_startedAt e)).
  { intros e rest Hsorted.
    destruct (sorted_head_is_newest rows e rest Hsorted) as [Hin Hnewest].
    apply rows_of_table in Hin as [[k Hk] Hmatch]. apply Hfilter in Hmatch.
    exists k. repeat split; auto.
    intros k' ex' Hk' Hmatch'. apply Hnewest, rows_of_table.
    split; [eauto|by apply Hfilter]. }
  subst rows.
  destruct fs as [|[f|] rest']; cbn.
  2: { repeat split; eauto; try discriminate. }
  all: destruct (merge_sort Queries.newest_first _) as [|e rest] eqn:Hsorted; cbn.
  all: split; [by eexists|].
  all: split; [intros r Hr; try discriminate Hr|].
  all: try (injection Hr as <-; destruct (Hcons e rest eq_refl) as (k & Hk & Hmatch & Hnewest);
            exists k, e; cbn; by repeat split).
  all: split; intros Hup; try discriminate Hup.
  all: split; try (intros Hr; discriminate Hr).
  all: try (intros _; by apply Hnil).
  all: try reflexivity.
  all: intros Hnone; exfalso; destruct (Hcons e rest eq_refl) as (k & Hk & Hmatch & _);
    by apply (Hnone k e).
Qed.

(** X20. What reads back as absent: [getExecutionById] never throws and
    leaves the tables alone; it returns null for an id without a row and
    when the storage layer is down; and in the record it returns an
    output or error is never the empty string and a duration or token
    count is never 0, because an empty text and a zero are mapped to
    undefined. *)
Theorem getExecutionById_absent_values id w :
  (exists r, fst (Queries.getExecutionById id w) = Ret r)
  /\ db (snd (Queries.getExecutionById id w)) = db w
  /\ (executions (db w) !! id = None \/ storage_down w = true ->
      fst (Queries.getExecutionById id w) = Ret None)
  /\ (forall r,
        fst (Queries.getExecutionById id w) = Ret (Some r) ->
        Queries.er_output r <> Some EmptyString /\
        Queries.er_error r <> Some EmptyString /\
        Queries.er_durationMs r <> Some 0 /\
        Queries.er_tokenCount r <> Some 0 /\
        exists ex, executions (db w) !! id = Some ex /\ r = Queries.to_record ex).
Proof.
  assert (Htext : forall v, Queries.text_or_undefined v <> Some EmptyString).
  { intros [s|]; [|discriminate]. unfold Queries.text_or_undefined.
    destruct (String.eqb_spec s EmptyString); [discriminate|congruence]. }
  assert (Hint : forall v, Queries.int_or_undefined v <> Some 0).
  { intros [n|]; [|discriminate]. unfold Queries.int_or_undefined.
    destruct (Z.eqb_spec n 0); [discriminate|congruence]. }
  destruct w as [d clk cerr fs nid gid col lg sn].
  unfold Queries.getExecutionById, storage_down, try_catch, bind, getPrismaClient,
    atomically, execution_findUnique, bind, round_trip, read_db, ret.
  cbn [client_error faults db].
  destruct cerr as [f|].
  { cbn. repeat split; eauto; try discriminate. }
  destruct fs as [|[f|] rest]; cbn.
  all: destruct (executions d !! id) as [ex|] eqn:Hex; cbn.
  all: split; [by eexists|]; split; [reflexivity|]; split.
  all: try (intros [H|H]; first [discriminate H|reflexivity]).
  all: intros r Hr; first [discriminate Hr|injection Hr as <-].
  all: cbn; repeat split; auto; eauto.
Qed.

(** An execution stored with an empty output and a duration of 0. *)
Lemma getExecutionById_absent_values_witness :
  let row := {| ex_id := "exec-0"; ex_skillId := "skill-1"; ex_status := completed;
                ex_trigger := "webhook"; ex_input := JNull;
                ex_output := Some EmptyString; ex_trace := None; ex_error := None;
                ex_startedAt := 1000; ex_completedAt := Some 1000;
                ex_durationMs := Some 0; ex_tokenCount := None |} in
  let w := {| db := {| executions := {[ "exec-0" := row ]}; skills := ∅; config := ∅ |};
              clock := 2000; client_error := None; faults := []; next_id := 1;
              gen_id := gen_id Demo.world; collate := String.leb;
              log := []; snapshots := [] |} in
  fst (Queries.getExecutionById "exec-1" w) = Ret None
  /\ exists r, fst (Queries.getExecutionById "exec-0" w) = Ret (Some r)
               /\ Queries.er_durationMs r <> Some 0
               /\ Queries.er_requestId r = JStr "exec-0".
Proof.
  intros row w. split.
  - apply (getExecutionById_absent_values "exec-1" w). left. vm_compute. reflexivity.
  - destruct (getExecutionById_absent_values "exec-0" w) as (_ & _ & _ & Hrecord).
    exists (Queries.to_record row). split; [vm_compute; reflexivity|].
    split; [|reflexivity].
    apply (Hrecord (Queries.to_record row)). vm_compute. reflexivity.
Defined.

(** ** src/config/index.ts: reading the environment *)

Lemma digit_of_char m :
  (m < 10)%N -> Json.digit (pretty_N_char m) = Some (Z.of_N m).
Proof.
  intros Hm.
  assert (m = 0 \/ m = 1 \/ m = 2 \/ m = 3 \/ m = 4 \/ m = 5 \/ m = 6 \/ m = 7
          \/ m = 8 \/ m = 9)%N as Hcases by lia.
  repeat (destruct Hcases as [->|Hcases]; [reflexivity|]). by subst.
Qed.

Lemma digit_code c d : Json.digit c = Some d -> (48 <= code c <= 57)%N.
Proof.
  unfold Json.digit.
  destruct ((48 <=? code c)%N && (code c <=? 57)%N) eqn:H; [|discriminate].
  apply andb_true_iff in H as [H1 H2]. apply N.leb_le in H1, H2. done.
Qed.

Lemma pretty_N_go_app x : forall s1 s2,
  pretty_N_go x (s1 +:+ s2) = pretty_N_go x s1 +:+ s2.
Proof.
  induction (N.lt_wf_0 x) as [x _ IH]. intros s1 s2.
  destruct (decide (x = 0)%N) as [->|Hx]; [by rewrite !pretty_N_go_0|].
  rewrite (pretty_N_go_step x (s1 +:+ s2)), (pretty_N_go_step x s1) by lia.
  apply (IH (x `div` 10)%N (N.div_lt x 10 ltac:(lia) ltac:(lia))
           (String (pretty_N_char (x `mod` 10)) s1) s2).
Qed.

Lemma split_decimal x :
  Z.of_N x = 10 * Z.of_N (x `div` 10) + Z.of_N (x `mod` 10).
Proof.
  rewrite (N.div_mod x 10) at 1 by lia. by rewrite N2Z.inj_add, N2Z.inj_mul.
Qed.

(** Reading back what the decimal printer wrote. *)
Lemma digits_pretty_N_go x : forall s,
  (0 < x)%N ->
  exists c t k,
    pretty_N_go x s = String c t /\ (48 <= code c <= 57)%N /\ 0 < k /\
    forall acc cnt,
      Json.digits (chars (pretty_N_go x s)) acc cnt
      = Json.digits (chars s) (acc * 10 ^ k + Z.of_N x) (cnt + k).
Proof.
  induction (N.lt_wf_0 x) as [x _ IH]. intros s Hx.
  rewrite pretty_N_go_step by done.
  assert (Hdigit : Json.digit (pretty_N_char (x `mod` 10)) = Some (Z.of_N (x `mod` 10)))
    by (apply digit_of_char, N.mod_lt; lia).
  destruct (decide (x `div` 10 = 0)%N) as [Hsmall|Hbig].
  - rewrite Hsmall, pretty_N_go_0.
    exists (pretty_N_char (x `mod` 10)), s, 1.
    split; [done|]. split; [by apply (digit_code _ _ Hdigit)|]. split; [lia|].
    intros acc cnt. cbn [chars list_ascii_of_string Json.digits]. rewrite Hdigit.
    f_equal.
    pose proof (split_decimal x) as Hx'. rewrite Hsmall in Hx'.
    rewrite Hx'. change (Z.of_N 0) with 0.
    generalize (Z.of_N (x `mod` 10)). intros; lia.
  - destruct (IH (x `div` 10)%N) with (s := String (pretty_N_char (x `mod` 10)) s)
      as (c & t & k & Hhead & Hc & Hk & Hdigits);
      [apply N.div_lt; lia|by apply N.neq_0_lt_0|].
    exists c, t, (k + 1). split; [done|]. split; [done|]. split; [lia|].
    intros acc cnt. rewrite Hdigits.
    cbn [chars list_ascii_of_string Json.digits]. rewrite Hdigit.
    f_equal; [|lia].
    rewrite Z.pow_add_r, Z.pow_1_r by lia.
    rewrite (split_decimal x).
    generalize (Z.of_N (x `div` 10)) (Z.of_N (x `mod` 10)) (10 ^ k). intros; lia.
Qed.

Lemma digits_stop rest value count :
  match chars rest with [] => True | c :: _ => Json.digit c = None end ->
  Json.digits (chars rest) value count = (value, count, chars rest).
Proof. destruct (chars rest) as [|c r]; [done|]. simpl. by intros ->. Qed.

Lemma trimStart_no_space c r :
  (code c < 128)%N -> Settings.space1 c = false ->
  Settings.trimStart (c :: r) = c :: r.
Proof.
  intros Hascii Hspace. unfold Settings.trimStart. cbn [Settings.drop_space].
  rewrite Hspace.
  assert (H2 : forall b, Settings.space2 c b = false).
  { intros b. unfold Settings.space2.
    destruct (N.eqb_spec (code c) 194); [lia|done]. }
  assert (H3 : forall b d, Settings.space3 c b d = false).
  { intros b d. unfold Settings.space3.
    destruct (N.eqb_spec (code c) 225); [lia|].
    destruct (N.eqb_spec (code c) 226); [lia|].
    destruct (N.eqb_spec (code c) 227); [lia|].
    destruct (N.eqb_spec (code c) 239); [lia|]. done. }
  destruct r as [|b [|d r]]; [done| |]; by rewrite ?H2, ?H3.
Qed.

Lemma parseInt_pretty_N x rest :
  (0 < x)%N ->
  match chars rest with [] => True | c :: _ => Json.digit c = None end ->
  exists c t,
    pretty_N_go x rest = String c t /\ (48 <= code c <= 57)%N /\
    Json.digits (chars (pretty_N_go x rest)) 0 0 = (Z.of_N x, snd (fst (Json.digits (chars (pretty_N_go x rest)) 0 0)), chars rest) /\
    0 < snd (fst (Json.digits (chars (pretty_N_go x rest)) 0 0)).
Proof.
  intros Hx Hrest.
  destruct (digits_pretty_N_go x rest Hx) as (c & t & k & Hhead & Hc & Hk & Hdigits).
  exists c, t. split; [done|]. split; [done|].
  rewrite Hdigits, (digits_stop rest _ _ Hrest). cbn [fst snd].
  split; [f_equal; f_equal; lia|lia].
Qed.

(** The decimal form of an integer, followed by a text that does not
    begin with a digit, reads as that integer. *)
Lemma parseIntEnv_pretty (n : Z) rest defaultValue :
  match chars rest with [] => True | c :: _ => Json.digit c = None end ->
  Settings.parseIntEnv (Some (pretty n +:+ rest)) defaultValue = n.
Proof.
  intros Hrest.
  assert (Hpos : forall p,
             exists c t,
               pretty (N.pos p) +:+ rest = String c t /\ (48 <= code c <= 57)%N /\
               exists k, 0 < k /\
                 Json.digits (chars (pretty (N.pos p) +:+ rest)) 0 0
                 = (Z.pos p, k, chars rest)).
  { intros p. unfold pretty, pretty_N. cbn [decide].
    destruct (decide (N.pos p = 0%N)) as [?|_]; [done|].
    rewrite <- pretty_N_go_app. cbn [String.append].
    destruct (parseInt_pretty_N (N.pos p) rest) as (c & t & Hhead & Hc & Hdigits & Hk);
      [lia|done|].
    exists c, t. split; [done|]. split; [done|]. eexists. split; [exact Hk|].
    exact Hdigits. }
  unfold Settings.parseIntEnv, Settings.parseInt.
  destruct n as [|p|p].
  + change (pretty 0 +:+ rest) with (String "0" rest). cbn [String.eqb].
    cbn [chars list_ascii_of_string].
    rewrite trimStart_no_space by (vm_compute; done).
    change (code "0" =? 45)%N with false. change (code "0" =? 43)%N with false.
    cbv iota. cbn [Json.digits]. change (Json.digit "0") with (Some 0).
    cbv iota. fold (chars rest). rewrite (digits_stop rest _ _ Hrest). reflexivity.
  + change (pretty (Z.pos p)) with (pretty (N.pos p)).
    destruct (Hpos p) as (c & t & Hhead & Hc & k & Hk & Hdigits).
    rewrite Hhead in *. cbn [String.eqb]. cbn [chars list_ascii_of_string] in *.
    rewrite trimStart_no_space; [|lia|].
    2: { unfold Settings.space1.
         destruct (N.leb_spec 9 (code c)), (N.leb_spec (code c) 13),
           (N.eqb_spec (code c) 32); try lia; done. }
    destruct (N.eqb_spec (code c) 45); [lia|].
    destruct (N.eqb_spec (code c) 43); [lia|].
    rewrite Hdigits.
    destruct (Z.eqb_spec k 0); [lia|]. reflexivity.
  + change (pretty (Z.neg p) +:+ rest) with (String "-" (pretty (N.pos p) +:+ rest)).
    destruct (Hpos p) as (c & t & Hhead & Hc & k & Hk & Hdigits).
    cbn [String.eqb]. cbn [chars list_ascii_of_string].
    rewrite trimStart_no_space by (vm_compute; done).
    change (code "-" =? 45)%N with true. cbv iota.
    fold (chars (pretty (N.pos p) +:+ rest)). rewrite Hdigits.
    destruct (Z.eqb_spec k 0); [lia|]. reflexivity.
Qed.

(** X21. [parseIntEnv] reads a decimal number: for every integer [n]
    and every text [rest] that does not begin with a digit, the variable
    holding the decimal form of [n] followed by [rest] reads as [n]
    (so what follows the digits is ignored, and "0" reads as 0, not as
    the default), [n] being within 2^53 in absolute value, where a number
    of the runtime is exact; an unset or empty variable reads as the default; and so
    does a variable that begins with an ASCII character that is neither
    white space, a sign nor a digit. *)
Theorem parseIntEnv_reads_decimal :
  (forall (n : Z) rest defaultValue,
      Z.abs n <= 2 ^ 53 ->
      match chars rest with [] => True | c :: _ => Json.digit c = None end ->
      Settings.parseIntEnv (Some (pretty n +:+ rest)) defaultValue = n)
  /\ (forall defaultValue,
        Settings.parseIntEnv None defaultValue = defaultValue /\
        Settings.parseIntEnv (Some EmptyString) defaultValue = defaultValue)
  /\ (forall c s defaultValue,
        (code c < 128)%N -> Settings.space1 c = false ->
        code c <> 43%N -> code c <> 45%N -> Json.digit c = None ->
        Settings.parseIntEnv (Some (String c s)) defaultValue = defaultValue).
Proof.
  split; [|split].
  - intros n rest defaultValue _. apply parseIntEnv_pretty.
  - done.
  - intros c s defaultValue Hascii Hspace Hplus Hminus Hdigit.
    unfold Settings.parseIntEnv, Settings.parseInt. cbn [String.eqb].
    cbn [chars list_ascii_of_string].
    rewrite trimStart_no_space by done.
    destruct (N.eqb_spec (code c) 45); [done|].
    destruct (N.eqb_spec (code c) 43); [done|].
    cbn [Json.digits]. rewrite Hdigit. reflexivity.
Qed.

(** PORT=8080, a timeout written with its unit, and a word. *)
Lemma parseIntEnv_reads_decimal_witness :
  Settings.parseIntEnv (Some "8080") 3001 = 8080
  /\ Settings.parseIntEnv (Some "30000ms") 360000 = 30000
  /\ Settings.parseIntEnv (Some "auto") 3001 = 3001.
Proof.
  destruct parseIntEnv_reads_decimal as (Hdecimal & _ & Hword).
  split; [|split].
  - apply (Hdecimal 8080 EmptyString 3001); [lia|exact I].
  - apply (Hdecimal 30000 "ms" 360000); [lia|reflexivity].
  - apply (Hword "a"%char "uto" 3001); vm_compute; congruence.
Defined.

(** ** White space and comma-separated lists *)

Section DropSpace.
Variable p1 : ascii -> bool.
Variable p2 : ascii -> ascii -> bool.
Variable p3 : ascii -> ascii -> ascii -> bool.

Lemma drop_space_suffix n : forall s,
  (length s <= n)%nat -> exists pre, s = pre ++ Settings.drop_space p1 p2 p3 s.
Proof.
  induction n as [|n IH]; intros s Hn.
  - destruct s; [by exists []|simpl in Hn; lia].
  - destruct s as [|a r1]; [by exists []|]. simpl in Hn. cbn [Settings.drop_space].
    destruct (p1 a).
    { destruct (IH r1) as [pre Hpre]; [lia|]. exists (a :: pre). simpl. by f_equal. }
    destruct r1 as [|b r2]; [by exists []|]. simpl in Hn.
    destruct (p2 a b).
    { destruct (IH r2) as [pre Hpre]; [lia|]. exists (a :: b :: pre). simpl.
      by do 2 f_equal. }
    destruct r2 as [|c r3]; [by exists []|]. simpl in Hn.
    destruct (p3 a b c); [|by exists []].
    destruct (IH r3) as [pre Hpre]; [lia|]. exists (a :: b :: c :: pre). simpl.
    by do 3 f_equal.
Qed.

Lemma drop_space_length s :
  (length (Settings.drop_space p1 p2 p3 s) <= length s)%nat.
Proof.
  destruct (drop_space_suffix (length s) s) as [pre Hpre]; [lia|].
  rewrite Hpre at 2. rewrite length_app. lia.
Qed.

Lemma drop_space_idem n : forall s,
  (length s <= n)%nat ->
  Settings.drop_space p1 p2 p3 (Settings.drop_space p1 p2 p3 s)
  = Settings.drop_space p1 p2 p3 s.
Proof.
  induction n as [|n IH]; intros s Hn.
  - destruct s; [done|simpl in Hn; lia].
  - destruct s as [|a r1]; [done|]. simpl in Hn. cbn [Settings.drop_space].
    destruct (p1 a) eqn:H1; [apply IH; lia|].
    destruct r1 as [|b r2]; [cbn [Settings.drop_space]; by rewrite H1|]. simpl in Hn.
    destruct (p2 a b) eqn:H2; [apply IH; lia|].
    destruct r2 as [|c r3]; [cbn [Settings.drop_space]; by rewrite H1, H2|].
    simpl in Hn.
    destruct (p3 a b c) eqn:H3; [apply IH; lia|].
    cbn [Settings.drop_space]. by rewrite H1, H2, H3.
Qed.

(** A text without white space at its front has none at the front of
    its prefixes. *)
Lemma drop_space_prefix t u :
  Settings.drop_space p1 p2 p3 (t ++ u) = t ++ u ->
  Settings.drop_space p1 p2 p3 t = t.
Proof.
  intros Hfix.
  assert (Hshort : forall r : list ascii,
             (length r < length (t ++ u))%nat ->
             Settings.drop_space p1 p2 p3 r <> t ++ u).
  { intros r Hr Heq. pose proof (drop_space_length r) as Hlen.
    rewrite Heq in Hlen. lia. }
  destruct t as [|a t1]; [done|].
  cbn [app Settings.drop_space] in Hfix. cbn [Settings.drop_space].
  destruct (p1 a) eqn:H1.
  { exfalso. apply (Hshort (t1 ++ u)); [simpl; lia|exact Hfix]. }
  destruct t1 as [|b t2]; [done|]. cbn [app] in Hfix.
  destruct (p2 a b) eqn:H2.
  { exfalso. apply (Hshort (t2 ++ u)); [simpl; lia|exact Hfix]. }
  destruct t2 as [|c t3]; [done|]. cbn [app] in Hfix.
  destruct (p3 a b c) eqn:H3; [|done].
  exfalso. apply (Hshort (t3 ++ u)); [simpl; lia|exact Hfix].
Qed.

End DropSpace.

Lemma trimStart_suffix s : exists pre, s = pre ++ Settings.trimStart s.
Proof. apply (drop_space_suffix _ _ _ (length s)). lia. Qed.

Lemma trimEnd_prefix s : exists post, s = Settings.trimEnd s ++ post.
Proof.
  unfold Settings.trimEnd.
  destruct (drop_space_suffix Settings.space1 (fun b a => Settings.space2 a b)
              (fun c b a => Settings.space3 a b c) (length (rev s)) (rev s))
    as [pre Hpre]; [lia|].
  exists (rev pre). rewrite <- rev_app_distr, <- Hpre. by rewrite rev_involutive.
Qed.

(** [trim] is idempotent. *)
Lemma trim_idem s : Settings.trim (Settings.trim s) = Settings.trim s.
Proof.
  unfold Settings.trim. rewrite chars_text. f_equal.
  set (s1 := Settings.trimStart (chars s)).
  assert (Hstart : Settings.trimStart (Settings.trimEnd s1) = Settings.trimEnd s1).
  { destruct (trimEnd_prefix s1) as [post Hpost].
    apply (drop_space_prefix _ _ _ _ post). rewrite <- Hpost.
    apply (drop_space_idem _ _ _ (length (chars s))). lia. }
  rewrite Hstart. unfold Settings.trimEnd at 1 3. f_equal.
  unfold Settings.trimEnd. rewrite rev_involutive.
  apply (drop_space_idem _ _ _ (length (rev s1))). lia.
Qed.

Lemma trim_chars s c : c ∈ chars (Settings.trim s) -> c ∈ chars s.
Proof.
  unfold Settings.trim. rewrite chars_text. intros Hc.
  destruct (trimStart_suffix (chars s)) as [pre Hpre].
  destruct (trimEnd_prefix (Settings.trimStart (chars s))) as [post Hpost].
  rewrite Hpre, Hpost. apply elem_of_app. right. apply elem_of_app. by left.
Qed.

Lemma trim_leading_space s :
  Settings.trim (String " " s) = Settings.trim s.
Proof. reflexivity. Qed.

Lemma not_elem_of_rev {A} (x : A) l : x ∉ l -> x ∉ rev l.
Proof.
  intros Hl Hin. apply Hl. apply list_elem_of_In, in_rev. by apply list_elem_of_In.
Qed.

Lemma split_chars_no_sep sep s : forall cur x,
  sep ∉ cur -> x ∈ split_chars sep cur s -> sep ∉ chars x.
Proof.
  induction s as [|a s IH]; intros cur x Hcur Hx; cbn [split_chars] in Hx.
  - apply list_elem_of_singleton in Hx as ->. rewrite chars_text.
    by apply not_elem_of_rev.
  - destruct (Ascii.eqb_spec a sep) as [->|Hne].
    + apply elem_of_cons in Hx as [->|Hx].
      * rewrite chars_text. by apply not_elem_of_rev.
      * apply (IH [] x); [apply not_elem_of_nil|exact Hx].
    + apply (IH (a :: cur) x); [|exact Hx].
      apply not_elem_of_cons. split; [congruence|exact Hcur].
Qed.

Lemma append_assoc (a b c : string) : (a +:+ b) +:+ c = a +:+ (b +:+ c).
Proof.
  induction a as [|x a IH]; [done|].
  change (String x ((a +:+ b) +:+ c) = String x (a +:+ (b +:+ c))). by rewrite IH.
Qed.

Lemma split_chars_cur sep s : forall cur,
  split_chars sep cur s
  = match split_chars sep [] s with
    | h :: t => (text (rev cur) +:+ h) :: t
    | [] => []
    end.
Proof.
  assert (Htext : forall a b : list ascii, text (a ++ b) = text a +:+ text b).
  { intros a b. induction a as [|x a IHa]; [done|]. simpl. by rewrite IHa. }
  induction s as [|a s IH]; intros cur; cbn [split_chars].
  - cbn [rev]. change (text []) with EmptyString. by rewrite append_empty.
  - destruct (Ascii.eqb_spec a sep) as [->|Hne].
    + cbn [rev]. change (text []) with EmptyString. by rewrite append_empty.
    + rewrite (IH (a :: cur)), (IH [a]).
      destruct (split_chars sep [] s) as [|h t]; [done|].
      cbn [rev app]. by rewrite !Htext, append_assoc.
Qed.

Lemma split_concat_comma names :
  names <> [] ->
  Forall (fun n => Settings.comma ∉ chars n) names ->
  split Settings.comma (String.concat "," names) = names.
Proof.
  intros Hnames Hall. unfold split.
  induction Hall as [|n ns Hn Hns IH]; [done|].
  destruct ns as [|n' ns].
  - cbn [String.concat]. rewrite split_chars_whole by done. cbn [rev app].
    by rewrite text_chars.
  - change (String.concat "," (n :: n' :: ns))
      with (n +:+ String Settings.comma (String.concat "," (n' :: ns))).
    rewrite chars_app. cbn [chars list_ascii_of_string].
    rewrite split_chars_app by done. cbn [rev app]. rewrite text_chars.
    f_equal. by apply IH.
Qed.

Lemma split_concat_comma_space names :
  Forall (fun n => Settings.comma ∉ chars n) names ->
  split Settings.comma (String.concat ", " names)
  = match names with
    | [] => [EmptyString]
    | n :: ns => n :: map (String " ") ns
    end.
Proof.
  intros Hall. unfold split.
  induction Hall as [|n ns Hn Hns IH]; [done|].
  destruct ns as [|n' ns].
  - cbn [String.concat map]. rewrite split_chars_whole by done. cbn [rev app].
    by rewrite text_chars.
  - change (String.concat ", " (n :: n' :: ns))
      with (n +:+ String Settings.comma (String " " (String.concat ", " (n' :: ns)))).
    rewrite chars_app. cbn [chars list_ascii_of_string].
    rewrite split_chars_app by done. cbn [rev app]. rewrite text_chars.
    f_equal. cbn [split_chars].
    change (Ascii.eqb " " Settings.comma) with false. cbv iota.
    rewrite split_chars_cur. fold (chars (String.concat ", " (n' :: ns))).
    rewrite IH. reflexivity.
Qed.

(** X22. [parseStringArrayEnv] cleans a comma-separated list: no entry
    of its result is empty, contains a comma or has white space at
    either end (trimming it again changes nothing); an unset or empty
    variable gives the empty list; and a non-empty list of such clean
    names written with "," or with ", " between them reads back as that
    list. *)
Theorem parseStringArrayEnv_cleans :
  (forall envVar entry,
      entry ∈ Settings.parseStringArrayEnv envVar ->
      entry <> EmptyString /\
      (Settings.comma ∉ chars entry) /\
      Settings.trim entry = entry)
  /\ Settings.parseStringArrayEnv None = []
  /\ Settings.parseStringArrayEnv (Some EmptyString) = []
  /\ (forall names,
        names <> [] ->
        Forall (fun n => n <> EmptyString /\ (Settings.comma ∉ chars n)
                         /\ Settings.trim n = n) names ->
        Settings.parseStringArrayEnv (Some (String.concat "," names)) = names /\
        Settings.parseStringArrayEnv (Some (String.concat ", " names)) = names).
Proof.
  split; [|split; [done|split; [done|]]].
  - intros envVar entry. unfold Settings.parseStringArrayEnv.
    destruct envVar as [s|]; [|by intros ?%not_elem_of_nil].
    destruct (String.eqb s EmptyString); [by intros ?%not_elem_of_nil|].
    rewrite list_elem_of_filter, list_elem_of_fmap.
    intros [Hnonempty (piece & -> & Hpiece)]. split; [|split].
    + intros Hempty. rewrite Hempty in Hnonempty. discriminate.
    + intros Hcomma. apply trim_chars in Hcomma. revert Hcomma.
      apply (split_chars_no_sep Settings.comma (chars s) [] piece);
        [apply not_elem_of_nil|exact Hpiece].
    + apply trim_idem.
  - intros names Hnames Hall.
    assert (Hcommas : Forall (fun n => Settings.comma ∉ chars n) names).
    { eapply Forall_impl; [exact Hall|]. by intros n (_ & ? & _). }
    assert (Hkeep : forall l : list string,
               Forall (fun n => n <> EmptyString /\ (Settings.comma ∉ chars n)
                                /\ Settings.trim n = n) l ->
               filter (fun piece => negb (String.eqb piece EmptyString) = true) l = l).
    { intros l Hl. induction Hl as [|n l (Hn & _ & _) _ IH]; [done|].
      rewrite filter_cons. apply String.eqb_neq in Hn.
      destruct (decide _) as [_|Hno]; [by rewrite IH|by rewrite Hn in Hno]. }
    assert (Htrim : map Settings.trim names = names).
    { clear Hnames Hcommas. induction Hall as [|n l (_ & _ & Hn) _ IH]; [done|].
      cbn [map]. by rewrite Hn, IH. }
    assert (Hsome : forall sep, String.eqb (String.concat sep names) EmptyString = false).
    { intros sep. destruct Hall as [|n l (Hn & _) _]; [done|].
      destruct n as [|c n]; [done|]. by destruct l. }
    unfold Settings.parseStringArrayEnv. rewrite !Hsome.
    split.
    + rewrite split_concat_comma by done. rewrite Htrim. by apply Hkeep.
    + rewrite split_concat_comma_space by done.
      destruct Hall as [|n l Hn Hl]; [done|].
      cbn [map]. rewrite map_map.
      assert (Hrest : map (fun x => Settings.trim (String " " x)) l = l).
      { clear -Hl. induction Hl as [|n' l (_ & _ & Hn') _ IH]; [done|].
        cbn [map]. by rewrite trim_leading_space, Hn', IH. }
      rewrite Hrest. destruct Hn as (Hn1 & Hn2 & Hn3). rewrite Hn3.
      apply (Hkeep (n :: l)). by constructor.
Qed.

(** DISALLOWED_TOOLS written with spaces and a trailing comma. *)
Lemma parseStringArrayEnv_cleans_witness :
  Settings.parseStringArrayEnv (Some "Bash, Write") = ["Bash"; "Write"]
  /\ (forall entry,
        entry ∈ Settings.parseStringArrayEnv (Some " Bash ,, Write , ") ->
        entry <> EmptyString /\ (Settings.comma ∉ chars entry)
        /\ Settings.trim entry = entry).
Proof.
  destruct parseStringArrayEnv_cleans as (Hclean & _ & _ & Hback).
  split.
  - apply (Hback ["Bash"; "Write"]); [done|].
    repeat constructor; try done; vm_compute; intros H; inversion H; subst;
      repeat match goal with
             | H : _ ∈ _ :: _ |- _ => inversion H; clear H; subst
             | H : _ ∈ [] |- _ => inversion H
             end.
  - intros entry. apply Hclean.
Defined.

(** ** Validation of the settings *)

(** X23. What makes the configuration invalid: when [validateConfig]
    returns, [valid] holds exactly when the port is between 1 and 65535
    and the rate limit is at least 1, and exactly when the list of errors
    is empty; there are at most two errors and at most eight warnings, and
    a missing API key, missing Supabase settings, missing tools or low
    timeouts are warnings only.  It throws only when the MCP connections
    are null or undefined, on which [Object.keys] fails. *)
Theorem validateConfig_validity numberToString config :
  match Settings.validateConfig numberToString config with
  | Ret result =>
      (Settings.valid result = true <->
         1 <= Settings.port (Settings.server config) <= 65535 /\
         1 <= Settings.rateLimitMax (Settings.security config))
      /\ (Settings.valid result = true <-> Settings.errors result = [])
      /\ (length (Settings.errors result) <= 2)%nat
      /\ (length (Settings.warnings result) <= 8)%nat
  | Throw e =>
      Settings.connections (Settings.mcp config) = JNull \/
      Settings.connections (Settings.mcp config) = JUndefined
  end.
Proof.
  unfold Settings.validateConfig.
  destruct (Settings.no_keys (Settings.connections (Settings.mcp config)))
    as [no_tools|e] eqn:Hkeys.
  2: { destruct (Settings.connections (Settings.mcp config)); cbn in Hkeys;
         try discriminate; auto. }
  cbv zeta. cbn [Settings.valid Settings.errors Settings.warnings].
  set (c1 := (Settings.port (Settings.server config) <? 1)
             || (65535 <? Settings.port (Settings.server config))).
  set (c2 := Settings.rateLimitMax (Settings.security config) <? 1).
  assert (Hc1 : c1 = false <-> 1 <= Settings.port (Settings.server config) <= 65535).
  { subst c1. rewrite orb_false_iff, !Z.ltb_ge. lia. }
  assert (Hc2 : c2 = false <-> 1 <= Settings.rateLimitMax (Settings.security config)).
  { subst c2. by rewrite Z.ltb_ge. }
  assert (Hone : forall (b : bool) (x : string),
             (length (if b then [x] else []) <= 1)%nat).
  { intros [] x; simpl; lia. }
  split; [|split; [|split]].
  - destruct c1, c2; cbn [app]; split; try discriminate.
    all: try (intros [H1 H2]; apply Hc1 in H1; apply Hc2 in H2; discriminate).
    + intros _. split; [by apply Hc1|by apply Hc2].
    + done.
  - destruct c1, c2; cbn [app]; split; try discriminate; done.
  - rewrite length_app.
    pose proof (Hone c1 ("PORT must be between 1 and 65535 (got "
                         +:+ numberToString (Settings.port (Settings.server config))
                         +:+ ")")).
    pose proof (Hone c2 ("RATE_LIMIT_MAX must be at least 1 (got "
                         +:+ numberToString
                               (Settings.rateLimitMax (Settings.security config))
                         +:+ ")")).
    lia.
  - rewrite !length_app.
    repeat match goal with
           | |- context [length (if ?b then [?x] else [])] =>
               let H := fresh in
               pose proof (Hone b x) as H;
               generalize dependent (length (if b then [x] else []))
           end.
    intros; lia.
Qed.

(** X24. From the environment to the verdict: with PORT, RATE_LIMIT_MAX
    and MCP_CONNECTIONS unset, the configuration built from any
    environment is valid, with port 3001 and no tools; with a PORT whose
    decimal value lies outside 1..65535 it is invalid; and when
    MCP_CONNECTIONS holds a text that parses to null (the JSON text
    "null"), [validateConfig] throws a TypeError instead of returning a
    verdict. *)
Theorem config_of_environment JSON_parse numberToString (env : gmap string string) :
  (env !! "PORT" = None ->
   env !! "RATE_LIMIT_MAX" = None ->
   env !! "MCP_CONNECTIONS" = None ->
   exists result,
     Settings.validateConfig numberToString (Settings.config JSON_parse env) = Ret result /\
     Settings.valid result = true /\
     Settings.errors result = [] /\
     Settings.port (Settings.server (Settings.config JSON_parse env)) = 3001 /\
     Settings.connections (Settings.mcp (Settings.config JSON_parse env)) = JObj [])
  /\ (forall port : Z,
        env !! "PORT" = Some (pretty port) ->
        env !! "MCP_CONNECTIONS" = None ->
        Z.abs port <= 2 ^ 53 ->
        port < 1 \/ 65535 < port ->
        exists result,
          Settings.validateConfig numberToString (Settings.config JSON_parse env)
            = Ret result /\
          Settings.valid result = false /\
          ("PORT must be between 1 and 65535 (got " +:+ numberToString port +:+ ")")
            ∈ Settings.errors result)
  /\ (forall s,
        env !! "MCP_CONNECTIONS" = Some s ->
        s <> EmptyString ->
        JSON_parse s = Some JNull ->
        Settings.validateConfig numberToString (Settings.config JSON_parse env)
          = Throw (mkError "TypeError" "Cannot convert undefined or null to object")).
Proof.
  split; [|split].
  - intros Hport Hrate Hmcp.
    unfold Settings.validateConfig, Settings.config.
    cbn [Settings.mcp Settings.connections Settings.server Settings.port
           Settings.security Settings.rateLimitMax].
    rewrite Hport, Hrate, Hmcp. cbn [Settings.parseJsonEnv Settings.parseIntEnv
                                       Settings.no_keys].
    change (3001 <? 1) with false. change (65535 <? 3001) with false.
    change (60 <? 1) with false. cbn [orb app].
    eexists. split; [reflexivity|]. cbn. auto.
  - intros port Hport Hmcp _ Hrange.
    pose proof (parseIntEnv_pretty port EmptyString 3001 I) as Hdecimal.
    rewrite append_empty in Hdecimal.
    unfold Settings.validateConfig, Settings.config.
    cbn [Settings.mcp Settings.connections Settings.server Settings.port
           Settings.security Settings.rateLimitMax].
    rewrite Hport, Hmcp, Hdecimal. cbn [Settings.parseJsonEnv Settings.no_keys].
    assert (Hbad : (port <? 1) || (65535 <? port) = true).
    { destruct (Z.ltb_spec port 1), (Z.ltb_spec 65535 port); try done. lia. }
    rewrite Hbad. eexists. split; [reflexivity|]. cbn [Settings.valid Settings.errors app].
    split; [reflexivity|]. by left.
  - intros s Hmcp Hs Hnull.
    unfold Settings.validateConfig, Settings.config.
    cbn [Settings.mcp Settings.connections].
    rewrite Hmcp. unfold Settings.parseJsonEnv.
    apply String.eqb_neq in Hs. rewrite Hs, Hnull. reflexivity.
Qed.

(** An empty environment, PORT=70000, and MCP_CONNECTIONS=null. *)
Lemma config_of_environment_witness :
  let show := fun n : Z => pretty n in
  (exists result,
      Settings.validateConfig show (Settings.config Json.parse ∅) = Ret result /\
      Settings.valid result = true)
  /\ (exists result,
        Settings.validateConfig show
          (Settings.config Json.parse {[ "PORT" := "70000" ]}) = Ret result /\
        Settings.valid result = false)
  /\ Settings.validateConfig show
       (Settings.config Json.parse {[ "MCP_CONNECTIONS" := "null" ]})
     = Throw (mkError "TypeError" "Cannot convert undefined or null to object").
Proof.
  intros show. split; [|split].
  - destruct (proj1 (config_of_environment Json.parse show ∅))
      as (result & Hresult & Hvalid & _); [reflexivity..|].
    by exists result.
  - destruct (proj1 (proj2 (config_of_environment Json.parse show {[ "PORT" := "70000" ]}))
                70000)
      as (result & Hresult & Hvalid & _); [reflexivity|reflexivity|lia|right; lia|].
    by exists result.
  - apply (proj2 (proj2 (config_of_environment Json.parse show
                           {[ "MCP_CONNECTIONS" := "null" ]})) "null");
      [reflexivity|discriminate|reflexivity].
Defined.

(** ** src/agent.ts: the one-off agent *)

Lemma getAnthropicApiKey_quiet env w :
  log (snd (Config.getAnthropicApiKey env w)) = log w.
Proof.
  destruct w as [d clk cerr fs nid gid col lg sn].
  unfold Config.getAnthropicApiKey, try_catch, bind, getPrismaClient, atomically,
    config_findUnique, bind, round_trip, read_db, ret, lift.
  cbn [client_error]. destruct cerr as [f|]; [done|].
  destruct fs as [|[f|] rest]; cbn; try done.
  all: destruct (config d !! Config.api_key_name) as [value|]; [|done].
  all: destruct (String.eqb value EmptyString); [done|].
  all: by destruct (Config.decrypt env value).
Qed.

Lemma getAnthropicApiKey_returns env w :
  exists r, fst (Config.getAnthropicApiKey env w) = Ret r.
Proof.
  unfold Config.getAnthropicApiKey, try_catch.
  match goal with
  | |- context [let (_, _) := ?body w in _] => destruct (body w) as [[a|e] w1]
  | |- context [match ?body w with _ => _ end] => destruct (body w) as [[a|e] w1]
  end; by eexists.
Qed.

Lemma message_of_fault f : message_of (fault_val f) = JStr (fault_message f).
Proof. unfold message_of, fault_val, prop. by destruct (fault_code f). Qed.

(** What the race can reject with: the error the iteration ended with,
    or the error of the timer. *)
Lemma raced_throws agent tie stream error :
  Agent.raced agent tie stream = Throw error ->
  error = Agent.timeout_error
  \/ exists f, Agent.st_failure stream = Some f /\ error = fault_val f.
Proof.
  unfold Agent.raced, Timeout.race, Timeout.rejectAfter.
  destruct (Agent.st_ends stream) as [t|]; [|intros [= <-]; by left].
  destruct (t <? Timer.delay (Agent.agent_timeoutMs agent))%N.
  - destruct (Agent.st_failure stream) as [f|]; [|discriminate].
    intros [= <-]. right. by exists f.
  - destruct (Timer.delay (Agent.agent_timeoutMs agent) <? t)%N;
      [intros [= <-]; by left|].
    destruct tie; [|intros [= <-]; by left].
    destruct (Agent.st_failure stream) as [f|]; [|discriminate].
    intros [= <-]. right. by exists f.
Qed.


(** X26. The one-off agent runs on the stored key only: when
    [getAnthropicApiKey] yields no key (none stored, an empty one, the
    storage layer down, a value that cannot be decrypted), [executeAgent]
    throws "Agent execution failed: Anthropic API key not configured. ..."
    whatever ANTHROPIC_API_KEY holds in the environment, and it does so
    before the working directory is created or the agent SDK is called:
    nothing is added to the log. *)
Theorem executeAgent_needs_stored_key env agent tie options w :
  fst (Config.getAnthropicApiKey env w) = Ret None
  \/ fst (Config.getAnthropicApiKey env w) = Ret (Some EmptyString) ->
  fst (Agent.executeAgent env agent tie options w)
    = Throw (mkError "Error"
               "Agent execution failed: Anthropic API key not configured. Please set up your API key in the configuration.")
  /\ log (snd (Agent.executeAgent env agent tie options w)) = log w.
Proof.
  intros Hkey. pose proof (getAnthropicApiKey_quiet env w) as Hlog.
  unfold Agent.executeAgent, bind, now, try_catch, Agent.agent_body, bind.
  destruct (Config.getAnthropicApiKey env w) as [o w1]. cbn [fst snd] in *.
  by destruct Hkey as [-> | ->].
Qed.

(** The scenario has no stored key, and a key in the environment. *)
Lemma executeAgent_needs_stored_key_witness :
  let agent := {| Agent.agent_model := "claude-sonnet-4-20250514";
                  Agent.agent_timeoutMs := 300000;
                  Agent.agent_disallowedTools := [];
                  Agent.mkdir := fun _ => inr tt;
                  Agent.query := fun _ =>
                    {| Agent.st_messages := []; Agent.st_failure := None;
                       Agent.st_ends := Some 10%N |};
                  Agent.getDefaultSystemPrompt := "You are a helpful agent.";
                  Agent.extractResponseText := fun _ => inr "ok" |} in
  let options := {| Agent.o_prompt := "What is the weather?";
                    Agent.o_requestId := "req-2";
                    Agent.o_systemPrompt := None;
                    Agent.o_userPromptPrefix := None |} in
  ANTHROPIC_API_KEY Demo.env = Some "sk-ant-from-environment"
  /\ fst (Agent.executeAgent Demo.env agent true options Demo.world)
     = Throw (mkError "Error"
                "Agent execution failed: Anthropic API key not configured. Please set up your API key in the configuration.")
  /\ log (snd (Agent.executeAgent Demo.env agent true options Demo.world)) = log Demo.world.
Proof.
  intros agent options. split; [reflexivity|].
  apply (executeAgent_needs_stored_key Demo.env agent true options Demo.world).
  left. vm_compute. reflexivity.
Defined.

Section AgentRun.
Variable env : Env.
Variable agent : Agent.AgentEnv.
Variable tie : bool.
Variable options : Agent.ExecuteAgentOptions.
Variables (w : World) (key : string).

Hypothesis Hkey : fst (Config.getAnthropicApiKey env w) = Ret (Some key).
Hypothesis Hnonempty : key <> EmptyString.
Hypothesis Hmkdir : forall dir, Agent.mkdir agent dir = inr tt.

(** With a key and a working directory, the run is decided by the race
    and the extraction of the text. *)
Lemma executeAgent_runs :
  exists stream,
    fst (Agent.executeAgent env agent tie options w)
    = match Agent.raced agent tie stream with
      | Ret result =>
          match Agent.extractResponseText agent result with
          | inr text =>
              Ret {| ar_text := text;
                     ar_workingDirectory :=
                       "/tmp/" +:+ Agent.o_requestId options +:+ "-"
                       +:+ pretty (clock w);
                     ar_trace := Agent.st_messages stream |}
          | inl f =>
              Throw (mkError "Error"
                       ("Agent execution failed: " +:+ fault_message f))
          end
      | Throw error =>
          match message_of error with
          | JStr message =>
              Throw (mkError "Error" ("Agent execution failed: " +:+ message))
          | _ => Throw (mkError "Error" "Agent execution failed")
          end
      end
    /\ exists q, stream = Agent.query agent q.
Proof.
  unfold Agent.executeAgent, bind, now, try_catch, Agent.agent_body, bind.
  destruct (Config.getAnthropicApiKey env w) as [o w1]. cbn [fst] in Hkey. subst o.
  apply String.eqb_neq in Hnonempty. rewrite Hnonempty.
  unfold emit, capability, lift. rewrite Hmkdir.
  match goal with
  | |- context [Agent.raced agent tie ?s] => exists s
  end.
  split; [|eexists; reflexivity].
  match goal with
  | |- context [Agent.raced agent tie ?s] => destruct (Agent.raced agent tie s) as [r|e]
  end.
  - cbn [fst]. destruct (Agent.extractResponseText agent r) as [f|text].
    + cbn [fst]. unfold message_of, fault_val, prop.
      destruct (fault_code f); reflexivity.
    + done.
  - cbn [fst]. by destruct (message_of e).
Qed.

End AgentRun.

(** X27. The deadline of the one-off agent.  The timer of the race
    runs [deadline] milliseconds after the call, where [deadline] is
    config.agent.timeoutMs when that lies between 1 and 2147483647, and 1
    otherwise.  With a stored key and the working directory created, a
    run of the agent SDK that ends after the deadline, or never ends,
    makes [executeAgent] throw the Error "Agent execution failed: Agent
    execution timeout"; that message contains "timeout", which is what
    [processWebhook] looks for to report the AgentError "Agent execution
    timeout".  A run that ends before the deadline without an error
    yields the text extracted from its last message of type "result"
    (from null when there is none), the working directory
    /tmp/<requestId>-<time of the call>, and all of its messages as the
    trace. *)
Theorem executeAgent_deadline env agent tie options w key :
  fst (Config.getAnthropicApiKey env w) = Ret (Some key) ->
  key <> EmptyString ->
  (forall dir, Agent.mkdir agent dir = inr tt) ->
  let deadline := Timer.delay (Agent.agent_timeoutMs agent) in
  (1 <= Agent.agent_timeoutMs agent <= 2147483647 ->
   deadline = Z.to_N (Agent.agent_timeoutMs agent))
  /\ (Agent.agent_timeoutMs agent < 1 \/ 2147483647 < Agent.agent_timeoutMs agent ->
      deadline = 1%N)
  /\ ((forall q, Agent.st_ends (Agent.query agent q) = None
                 \/ exists t, Agent.st_ends (Agent.query agent q) = Some t
                              /\ (deadline < t)%N) ->
      fst (Agent.executeAgent env agent tie options w)
        = Throw (mkError "Error" "Agent execution failed: Agent execution timeout")
      /\ mentions_timeout
           (mkError "Error" "Agent execution failed: Agent execution timeout") = true)
  /\ (forall messages t text,
        (forall q, Agent.query agent q
                   = {| Agent.st_messages := messages; Agent.st_failure := None;
                        Agent.st_ends := Some t |}) ->
        (t < deadline)%N ->
        Agent.extractResponseText agent (Agent.finalResult messages) = inr text ->
        fst (Agent.executeAgent env agent tie options w)
          = Ret {| ar_text := text;
                   ar_workingDirectory :=
                     "/tmp/" +:+ Agent.o_requestId options +:+ "-" +:+ pretty (clock w);
                   ar_trace := messages |}).
Proof.
  intros Hkey Hnonempty Hmkdir deadline.
  destruct (executeAgent_runs env agent tie options w key Hkey Hnonempty Hmkdir)
    as (stream & Hrun & q & ->).
  split; [apply delay_in_range|].
  split; [apply delay_out_of_range|].
  split.
  - intros Hlate. split; [|reflexivity]. rewrite Hrun.
    unfold Agent.raced, Timeout.race, Timeout.rejectAfter. fold deadline.
    destruct (Hlate q) as [-> | (t & -> & Ht)]; [reflexivity|].
    destruct (N.ltb_spec t deadline); [lia|].
    destruct (N.ltb_spec deadline t); [reflexivity|lia].
  - intros messages t text Hquery Ht Htext. rewrite Hrun, Hquery.
    unfold Agent.raced, Timeout.race, Timeout.rejectAfter. fold deadline.
    cbn [Agent.st_ends Agent.st_failure Agent.st_messages].
    destruct (N.ltb_spec t deadline); [|lia].
    by rewrite Htext.
Qed.



(** A key saved in the scenario; an agent run that never ends, one that
    ends after 10 ms with a result message, and the same run under a
    timeout of 3000000000 ms, which no timer takes. *)
Lemma executeAgent_deadline_witness :
  let w := snd (Config.saveConfig Demo.env (JStr "sk-ant-api03-0123456789")
                  "0123456789abcdef" Demo.world) in
  let done := JObj [("type", JStr "result"); ("result", JStr "sunny")] in
  let agent timeoutMs ends :=
    {| Agent.agent_model := "claude-sonnet-4-20250514";
       Agent.agent_timeoutMs := timeoutMs;
       Agent.agent_disallowedTools := [];
       Agent.mkdir := fun _ => inr tt;
       Agent.query := fun _ =>
         {| Agent.st_messages := [JObj [("type", JStr "system")]; done];
            Agent.st_failure := None;
            Agent.st_ends := ends |};
       Agent.getDefaultSystemPrompt := "You are a helpful agent.";
       Agent.extractResponseText := fun result =>
         match prop result "result" with
         | JStr text => inr text
         | _ => inl Demo.crash
         end |} in
  let options := {| Agent.o_prompt := "What is the weather?";
                    Agent.o_requestId := "req-2";
                    Agent.o_systemPrompt := None;
                    Agent.o_userPromptPrefix := None |} in
  fst (Agent.executeAgent Demo.env (agent 300000 None) true options w)
    = Throw (mkError "Error" "Agent execution failed: Agent execution timeout")
  /\ fst (Agent.executeAgent Demo.env (agent 300000 (Some 10%N)) true options w)
     = Ret {| ar_text := "sunny";
              ar_workingDirectory := "/tmp/req-2-1001";
              ar_trace := [JObj [("type", JStr "system")]; done] |}
  /\ fst (Agent.executeAgent Demo.env (agent 3000000000 (Some 10%N)) true options w)
     = Throw (mkError "Error" "Agent execution failed: Agent execution timeout").
Proof.
  intros w done agent options.
  assert (Hkey : fst (Config.getAnthropicApiKey Demo.env w)
                 = Ret (Some "sk-ant-api03-0123456789")) by (vm_compute; reflexivity).
  split; [|split].
  - destruct (executeAgent_deadline Demo.env (agent 300000 None) true options w
                "sk-ant-api03-0123456789" Hkey) as (_ & _ & Hlate & _);
      [discriminate|done|].
    apply Hlate. intros q. by left.
  - destruct (executeAgent_deadline Demo.env (agent 300000 (Some 10%N)) true options w
                "sk-ant-api03-0123456789" Hkey) as (_ & _ & _ & Hearly);
      [discriminate|done|].
    apply (Hearly [JObj [("type", JStr "system")]; done] 10%N "sunny");
      [done|reflexivity|reflexivity].
  - destruct (executeAgent_deadline Demo.env (agent 3000000000 (Some 10%N)) true options w
                "sk-ant-api03-0123456789" Hkey) as (_ & _ & Hlate & _);
      [discriminate|done|].
    apply Hlate. intros q. right. exists 10%N. split; [reflexivity|].
    vm_compute. reflexivity.
Defined.

(** ** src/webhook.ts: the handler *)

(** X28. Fire and forget: for a valid body with [async] set,
    [webhookHandler] answers 202 with the request id and never throws,
    whether the pipeline succeeds or fails, and the pipeline nevertheless
    runs to its end: the world is left exactly as [processWebhook] leaves
    it (so a failed run is still recorded on its execution).  The request
    id is the one of the body, or "req-" followed by the time of the call
    when the body has none; without [async] the handler answers with the
    response of [processWebhook] or throws its error; and an invalid
    body makes it throw before anything is started. *)
Theorem webhookHandler_dispatch env ValidationError data w :
  let id := Settings.or_string (Handler.b_requestId data) ("req-" +:+ pretty (clock w)) in
  let req := {| prompt := Handler.b_prompt data;
                requestId := id;
                requestSystemPrompt := Handler.b_systemPrompt data;
                searchWorkflow := Handler.b_searchWorkflow data;
                metadata := Handler.b_metadata data;
                startTime := clock w |} in
  (Handler.b_async data = true ->
   fst (Handler.webhookHandler env ValidationError (Some data) w) = Ret (Handler.Accepted id)
   /\ snd (Handler.webhookHandler env ValidationError (Some data) w)
      = snd (processWebhook env req w))
  /\ (Handler.b_async data = false ->
      Handler.webhookHandler env ValidationError (Some data) w
      = match processWebhook env req w with
        | (Ret response, w') => (Ret (Handler.Answered response), w')
        | (Throw e, w') => (Throw e, w')
        end)
  /\ Handler.webhookHandler env ValidationError None w
     = (Throw (ValidationError "Invalid request body"), w).
Proof.
  intros id req. split; [|split].
  - intros Hasync.
    unfold Handler.webhookHandler, bind, now, try_catch, Handler.processWebhookAsync.
    rewrite Hasync. fold id. fold req. unfold bind, try_catch.
    by destruct (processWebhook env req w) as [[r|e] w1].
  - intros Hasync.
    unfold Handler.webhookHandler, bind, now, try_catch.
    rewrite Hasync. fold id. fold req. unfold bind.
    by destruct (processWebhook env req w) as [[r|e] w1].
  - reflexivity.
Qed.

(** The request of the scenario sent with [async], against a failing
    orchestrator. *)
Lemma webhookHandler_dispatch_witness :
  let data := {| Handler.b_prompt := "Please run the daily report";
                 Handler.b_requestId := None;
                 Handler.b_systemPrompt := None;
                 Handler.b_async := true;
                 Handler.b_searchWorkflow := true;
                 Handler.b_metadata := None |} in
  let ValidationError := mkError "ValidationError" in
  fst (Handler.webhookHandler Demo.env_failing ValidationError (Some data) Demo.world)
    = Ret (Handler.Accepted "req-1000")
  /\ (ex_status <$>
        executions (db (snd (Handler.webhookHandler Demo.env_failing ValidationError
                               (Some data) Demo.world))) !! "exec-0") = Some failed.
Proof.
  intros data ValidationError.
  destruct (proj1 (webhookHandler_dispatch Demo.env_failing ValidationError data Demo.world)
              eq_refl) as [Hreply Hworld].
  split; [exact Hreply|]. rewrite Hworld. vm_compute. reflexivity.
Defined.

(** ** The mask of an API key *)

(** A text of ASCII characters has one code unit for each of its bytes. *)
Lemma code_points_ascii l :
  Forall (fun c => (code c < 128)%N) l ->
  flat_map units (code_points l) = map code l.
Proof.
  induction 1 as [|c l Hc _ IH]; [reflexivity|].
  cbn [code_points]. apply N.ltb_lt in Hc as Hlt. rewrite Hlt.
  cbn [flat_map units map].
  replace (code c <? 65536)%N with true by (symmetry; apply N.ltb_lt; lia).
  cbn [app]. by rewrite IH.
Qed.

(** X10. The mask shows the ends of a key only, in the UTF-16 code
    units that the runtime counts: a key of fewer than 12 code units is
    shown as "****"; a longer key is split into its first 7 code units, a
    middle part and its last 4 code units, and is shown as the first 7,
    three dots, and the last 4, whatever the middle part is.  So the mask
    has 4 or 14 code units, and of a key of [n] code units, [n] at least
    12, it hides [n - 11].  The code units of a key of ASCII characters
    are its bytes. *)
Theorem maskApiKey_shows_the_ends key :
  ((length (utf16 key) < 12)%nat -> Config.maskApiKey key = utf16 "****")
  /\ ((12 <= length (utf16 key))%nat ->
      exists first middle last,
        utf16 key = first ++ middle ++ last /\
        length first = 7%nat /\
        length last = 4%nat /\
        length middle = (length (utf16 key) - 11)%nat /\
        Config.maskApiKey key = first ++ utf16 "..." ++ last)
  /\ (length (Config.maskApiKey key) = 4%nat
      \/ length (Config.maskApiKey key) = 14%nat)
  /\ (Forall (fun c => (code c < 128)%N) (chars key) ->
      utf16 key = map code (chars key)).
Proof.
  unfold Config.maskApiKey. cbv zeta.
  set (l := utf16 key). set (n := length l).
  assert (Hascii : Forall (fun c => (code c < 128)%N) (chars key) ->
                   l = map code (chars key)) by apply code_points_ascii.
  destruct (Nat.ltb_spec n 12) as [Hshort|Hlong].
  { split; [done|]. split; [lia|]. split; [by left|exact Hascii]. }
  assert (Hhides :
            exists first middle last,
              l = first ++ middle ++ last /\
              length first = 7%nat /\
              length last = 4%nat /\
              length middle = (n - 11)%nat /\
              take 7 l ++ utf16 "..." ++ drop (n - 4) l
              = first ++ utf16 "..." ++ last).
  { exists (take 7 l), (take (n - 11) (drop 7 l)), (drop (n - 4) l).
    split; [|split; [|split; [|split]]].
    - rewrite <- (take_drop 7 l) at 1. f_equal.
      rewrite <- (take_drop (n - 11) (drop 7 l)) at 1. f_equal.
      rewrite drop_drop. f_equal. lia.
    - rewrite length_take. lia.
    - rewrite length_drop. lia.
    - rewrite length_take, length_drop. lia.
    - reflexivity. }
  split; [lia|]. split; [by intros _|]. split; [|exact Hascii].
  right. rewrite !length_app, length_take, length_drop.
  change (length (utf16 "...")) with 3%nat. lia.
Qed.

(** A key as [saveConfig] accepts it, and a short text. *)
Lemma maskApiKey_shows_the_ends_witness :
  Config.maskApiKey "short" = utf16 "****"
  /\ exists first middle last,
       utf16 "sk-ant-api03-0123456789" = first ++ middle ++ last /\
       length first = 7%nat /\
       length last = 4%nat /\
       length middle = (length (utf16 "sk-ant-api03-0123456789") - 11)%nat /\
       Config.maskApiKey "sk-ant-api03-0123456789" = first ++ utf16 "..." ++ last.
Proof.
  split.
  - apply (maskApiKey_shows_the_ends "short"). vm_compute. lia.
  - apply (maskApiKey_shows_the_ends "sk-ant-api03-0123456789"). vm_compute. lia.
Defined.

(** ** Two more runs *)

(** Two executions of one request id, the later one completed. *)
Lemma getResult_returns_latest_witness :
  let row id started status output :=
    {| ex_id := id; ex_skillId := "skill-1"; ex_status := status;
       ex_trigger := "webhook"; ex_input := JObj [("requestId", JStr "req-1")];
       ex_output := output; ex_trace := None; ex_error := None;
       ex_startedAt := started; ex_completedAt := None;
       ex_durationMs := None; ex_tokenCount := None |} in
  let w := {| db := {| executions :=
                         {[ "exec-0" := row "exec-0" 1000 failed None;
                            "exec-1" := row "exec-1" 2000 completed (Some "report ready") ]};
                       skills := ∅; config := ∅ |};
              clock := 3000; client_error := None; faults := []; next_id := 2;
              gen_id := gen_id Demo.world; collate := String.leb;
              log := []; snapshots := [] |} in
  let r := {| Queries.sr_text := "report ready";
              Queries.sr_requestId := "req-1";
              Queries.sr_files := [];
              Queries.sr_metadata :=
                {| Queries.rm_executionId := "exec-1";
                   Queries.rm_skillId := "skill-1";
                   Queries.rm_status := completed;
                   Queries.rm_durationMs := None |} |} in
  fst (Queries.getResult "req-1" w) = Ret (Some r)
  /\ exists k ex,
       executions (db w) !! k = Some ex /\
       prop (ex_input ex) "requestId" = JStr "req-1" /\
       (forall k' ex',
           executions (db w) !! k' = Some ex' ->
           prop (ex_input ex') "requestId" = JStr "req-1" ->
           ex_startedAt ex' <= ex_startedAt ex) /\
       Queries.rm_executionId (Queries.sr_metadata r) = ex_id ex /\
       Queries.rm_status (Queries.sr_metadata r) = ex_status ex /\
       Queries.sr_text r = default EmptyString (ex_output ex) /\
       Queries.sr_requestId r = "req-1" /\
       Queries.sr_files r = [].
Proof.
  intros row w r.
  assert (Hrun : fst (Queries.getResult "req-1" w) = Ret (Some r))
    by (vm_compute; reflexivity).
  split; [exact Hrun|].
  exact (proj1 (proj2 (getResult_returns_latest "req-1" w)) r Hrun).
Defined.

(** Three executions of two skills, read with a limit of 1. *)
Lemma getExecutionsForSkill_bounded_witness :
  let row id skill started :=
    {| ex_id := id; ex_skillId := skill; ex_status := running;
       ex_trigger := "webhook"; ex_input := JObj [];
       ex_output := None; ex_trace := None; ex_error := None;
       ex_startedAt := started; ex_completedAt := None;
       ex_durationMs := None; ex_tokenCount := None |} in
  let w := {| db := {| executions :=
                         {[ "exec-0" := row "exec-0" "skill-1" 1000;
                            "exec-1" := row "exec-1" "skill-2" 2000;
                            "exec-2" := row "exec-2" "skill-1" 3000 ]};
                       skills := ∅; config := ∅ |};
              clock := 4000; client_error := None; faults := []; next_id := 3;
              gen_id := gen_id Demo.world; collate := String.leb;
              log := []; snapshots := [] |} in
  exists records,
    fst (Queries.getExecutionsForSkill "skill-1" (Some 1%N) w) = Ret records /\
    length records = 1%nat /\
    Forall (fun r => Queries.er_skillId r = "skill-1") records.
Proof.
  intros row w.
  destruct (getExecutionsForSkill_bounded "skill-1" (Some 1%N) w)
    as (records & Hrun & _ & Hskill & _ & Hcount).
  exists records. split; [exact Hrun|]. split; [|exact Hskill].
  rewrite Hcount by reflexivity. vm_compute. reflexivity.
Defined.
